(** * codeurRSS: the deduplication store, the field extractor and batch delivery

    A shallow embedding of [src/rss_parser.py], [src/state_manager.py],
    [src/discord_notifier.py] and the pass over the feeds of [src/main.py],
    with the properties of the specification stated and settled against
    it, followed by further properties of the code.

    - Python [str] values are sequences of Unicode code points, modelled
      as [list N].  The library functions the code calls ([re.search],
      [re.sub], [str.strip], [str.split], [datetime.fromisoformat],
      [sorted]) are modelled by executable definitions that follow their
      documented behaviour.
    - The store is the pair of a set of strings and of a dictionary in
      insertion order.  A record of the dictionary is an object with the
      members [title], [pub_date], [feed_name] and [seen_at]; the state
      file is read back as it is, so each member may be absent and may
      hold any JSON value.
    - The readings of the clock are arguments of the operations.
    - The two files of [save_state] are a small file system with a
      journal of the operations performed, and the environment chooses
      the step that fails, and whether the removal of the temporary file
      by the handler fails. *)

From Stdlib Require Import ZArith NArith List String Ascii Bool Lia.
From Stdlib Require DecimalN.
From stdpp Require Import base gmap sets list.
Import ListNotations.

Local Open Scope N_scope.

(** ** Text *)

Module Text.

Definition char := N.
Definition str := list char.

(** Decoding of the UTF-8 bytes of a literal into code points, so that
    literals of the source can be written as they are. *)
Fixpoint utf8_decode (bs : list N) : str :=
  match bs with
  | [] => []
  | b :: r =>
      if b <? 128 then b :: utf8_decode r
      else if b <? 224 then
        match r with
        | b1 :: r1 => ((b - 192) * 64 + (b1 - 128)) :: utf8_decode r1
        | [] => []
        end
      else if b <? 240 then
        match r with
        | b1 :: b2 :: r2 =>
            ((b - 224) * 4096 + (b1 - 128) * 64 + (b2 - 128)) :: utf8_decode r2
        | _ => []
        end
      else
        match r with
        | b1 :: b2 :: b3 :: r3 =>
            ((b - 240) * 262144 + (b1 - 128) * 4096 + (b2 - 128) * 64 + (b3 - 128))
              :: utf8_decode r3
        | _ => []
        end
  end.

Definition u (s : String.string) : str :=
  utf8_decode (map (fun a => N_of_ascii a) (list_ascii_of_string s)).

(** [str.isspace] on one code point; the same set is [\s] of a Unicode
    pattern. *)
Definition isspace (c : char) : bool :=
  ((9 <=? c) && (c <=? 13)) || ((28 <=? c) && (c <=? 32))
  || (c =? 133) || (c =? 160) || (c =? 5760)
  || ((8192 <=? c) && (c <=? 8202))
  || (c =? 8232) || (c =? 8233) || (c =? 8239) || (c =? 8287) || (c =? 12288).

Fixpoint lstrip (s : str) : str :=
  match s with
  | c :: r => if isspace c then lstrip r else s
  | [] => []
  end.

Definition rstrip (s : str) : str := rev (lstrip (rev s)).

(** [s.strip()] *)
Definition strip (s : str) : str := rstrip (lstrip s).

(** [s.split(sep)] for a one-character separator: the pieces between the
    separators, empty pieces included; the empty string gives one empty
    piece. *)
Fixpoint split (sep : char) (s : str) : list str :=
  match s with
  | [] => [[]]
  | c :: r =>
      if c =? sep then [] :: split sep r
      else match split sep r with
           | p :: ps => (c :: p) :: ps
           | [] => [[c]]
           end
  end.

(** Lexicographic order on code points: [a <= b] on [str]. *)
Fixpoint str_leb (a b : str) : bool :=
  match a, b with
  | [], _ => true
  | _ :: _, [] => false
  | x :: a', y :: b' =>
      if x <? y then true else if y <? x then false else str_leb a' b'
  end.

End Text.

Import Text.

(** ** Regular expressions

    The fragment of Python's [re] that the patterns of the source use,
    with the matching order of its backtracking engine: alternatives are
    tried left to right, a greedy quantifier tries the longest repetition
    first, a lazy one the shortest.  Every quantifier of the source is
    applied to a one-character item. *)

Module Re.

Inductive regex : Type :=
| Eps
| Chr (p : char -> bool)                       (* one character of a set *)
| Seq (r1 r2 : regex)
| Alt (r1 r2 : regex)                          (* r1|r2 *)
| Rep (greedy : bool) (min : nat) (p : char -> bool)  (* x*, x+, x*?, x+? *)
| Opt (p : char -> bool)                       (* x? *)
| Grp (n : nat) (r : regex)                    (* capturing group n *)
| Eol (multiline : bool).                      (* $ *)

Definition only (c : char) : char -> bool := fun x => x =? c.
Definition dot : char -> bool := fun x => negb (x =? 10).
Definition one_of (s : str) : char -> bool := fun x => existsb (N.eqb x) s.
Definition range (lo hi : char) : char -> bool := fun x => (lo <=? x) && (x <=? hi).
Definition either (p q : char -> bool) : char -> bool := fun x => p x || q x.
Definition complement (p : char -> bool) : char -> bool := fun x => negb (p x).

Fixpoint lit (s : str) : regex :=
  match s with
  | [] => Eps
  | c :: r => Seq (Chr (only c)) (lit r)
  end.

Fixpoint cat (rs : list regex) : regex :=
  match rs with
  | [] => Eps
  | [r] => r
  | r :: rs' => Seq r (cat rs')
  end.

(** Captured groups: group number and captured text, latest first. *)
Definition caps := list (nat * str).

Fixpoint group (n : nat) (cs : caps) : option str :=
  match cs with
  | [] => None
  | (m, s) :: r => if Nat.eqb m n then Some s else group n r
  end.

Section Matcher.
Context {R : Type}.

(** Continuations receive the rest of the input, the number of
    characters consumed since the start of the match and the groups. *)
Definition cont := str -> nat -> caps -> option R.

Definition or_else (a : option R) (b : unit -> option R) : option R :=
  match a with Some x => Some x | None => b tt end.

Fixpoint rep_greedy (p : char -> bool) (s : str) (n : nat) (cs : caps) (k : cont)
  : option R :=
  match s with
  | c :: r =>
      if p c then or_else (rep_greedy p r (S n) cs k) (fun _ => k s n cs)
      else k s n cs
  | [] => k s n cs
  end.

Fixpoint rep_lazy (p : char -> bool) (s : str) (n : nat) (cs : caps) (k : cont)
  : option R :=
  or_else (k s n cs)
    (fun _ => match s with
              | c :: r => if p c then rep_lazy p r (S n) cs k else None
              | [] => None
              end).

(** The [min] mandatory repetitions, then the rest of the quantifier. *)
Fixpoint rep_min (min : nat) (p : char -> bool)
    (rest : str -> nat -> caps -> cont -> option R)
    (s : str) (n : nat) (cs : caps) (k : cont) : option R :=
  match min with
  | O => rest s n cs k
  | S m =>
      match s with
      | c :: r => if p c then rep_min m p rest r (S n) cs k else None
      | [] => None
      end
  end.

Definition at_eol (multiline : bool) (s : str) : bool :=
  match s with
  | [] => true
  | c :: r => (c =? 10) && (multiline || match r with [] => true | _ => false end)
  end.

Fixpoint run (r : regex) (s : str) (n : nat) (cs : caps) (k : cont) : option R :=
  match r with
  | Eps => k s n cs
  | Chr p =>
      match s with
      | c :: s' => if p c then k s' (S n) cs else None
      | [] => None
      end
  | Seq r1 r2 => run r1 s n cs (fun s' n' cs' => run r2 s' n' cs' k)
  | Alt r1 r2 => or_else (run r1 s n cs k) (fun _ => run r2 s n cs k)
  | Rep greedy min p =>
      rep_min min p (if greedy then rep_greedy p else rep_lazy p) s n cs k
  | Opt p =>
      match s with
      | c :: s' =>
          if p c then or_else (k s' (S n) cs) (fun _ => k s n cs) else k s n cs
      | [] => k s n cs
      end
  | Grp g r1 =>
      run r1 s n cs (fun s' n' cs' => k s' n' ((g, firstn (n' - n) s) :: cs'))
  | Eol ml => if at_eol ml s then k s n cs else None
  end.
End Matcher.

(** A match anchored at the head of [s]: its length and its groups.  With
    [must_advance] an empty match is refused (and the engine backtracks). *)
Definition match_here (must_advance : bool) (r : regex) (s : str)
  : option (nat * caps) :=
  run r s 0%nat []
      (fun _ n cs => if must_advance && Nat.eqb n 0 then None else Some (n, cs)).

(** [re.search(pattern, s)]: the first position, from the left, where the
    pattern matches; the text before it, the match and the groups. *)
Fixpoint search_from (r : regex) (before : nat) (s : str)
  : option (nat * nat * caps) :=
  match match_here false r s with
  | Some (n, cs) => Some (before, n, cs)
  | None =>
      match s with
      | _ :: s' => search_from r (S before) s'
      | [] => None
      end
  end.

Definition search (r : regex) (s : str) : option (nat * nat * caps) :=
  search_from r 0%nat s.

(** [re.sub(pattern, repl, s)] for a replacement without group references.
    [skip] counts the characters of the current match still to be dropped.
    After an empty match the engine looks again at the same position for a
    match that advances. *)
Fixpoint sub_loop (r : regex) (repl : str) (s : str) (skip : nat) : str :=
  match s with
  | [] =>
      match skip with
      | O => match match_here false r [] with Some _ => repl | None => [] end
      | S _ => []
      end
  | c :: s' =>
      match skip with
      | S k => sub_loop r repl s' k
      | O =>
          match match_here false r s with
          | Some (S n, _) => repl ++ sub_loop r repl s' n
          | Some (O, _) =>
              repl ++
              match match_here true r s with
              | Some (S n, _) => repl ++ sub_loop r repl s' n
              | _ => c :: sub_loop r repl s' 0%nat
              end
          | None => c :: sub_loop r repl s' 0%nat
          end
      end
  end.

Definition sub (r : regex) (repl : str) (s : str) : str := sub_loop r repl s 0%nat.

End Re.

(** ** The field extractor ([src/rss_parser.py]) *)

Module RSSParser.
Import Re.

Definition ws_star : regex := Rep true 0 isspace.

(** [[A-ZÀÁÂÃÄÅÆÇÈÉÊË]] *)
Definition capital : char -> bool :=
  either (range 65 90) (one_of (u "ÀÁÂÃÄÅÆÇÈÉÊË")).

(** [Budget\s*:\s*([^-]+)\s*-\s*Catégories\s*:\s*(.+?)(?:\s*[A-ZÀÁÂÃÄÅÆÇÈÉÊË]|\s*$)] *)
Definition budget_pattern : regex :=
  cat [ lit (u "Budget"); ws_star; lit (u ":"); ws_star;
        Grp 1 (Rep true 1 (complement (only 45)));
        ws_star; lit (u "-"); ws_star;
        lit (u "Catégories"); ws_star; lit (u ":"); ws_star;
        Grp 2 (Rep false 1 dot);
        Alt (Seq ws_star (Chr capital)) (Seq ws_star (Eol false)) ].

Definition fallback_budget : str := u "Non spécifié".

(** [_extract_budget_and_categories]: [re.search] cannot raise on a [str],
    so the [except] branch is never taken. *)
Definition _extract_budget_and_categories (description : str) : str * list str :=
  match search budget_pattern description with
  | Some (_, _, cs) =>
      let budget := strip (default [] (group 1 cs)) in
      let categories_str := strip (default [] (group 2 cs)) in
      (budget, map strip (split 44 categories_str))
  | None => (fallback_budget, [])
  end.

(** [Budget\s*:.*?Catégories\s*:.*?\n?] *)
Definition budget_line_pattern : regex :=
  cat [ lit (u "Budget"); ws_star; lit (u ":"); Rep false 0 dot;
        lit (u "Catégories"); ws_star; lit (u ":"); Rep false 0 dot;
        Opt (only 10) ].

(** [Voir ce projet sur Codeur.*$] with [re.MULTILINE] *)
Definition link_pattern : regex :=
  cat [ lit (u "Voir ce projet sur Codeur"); Rep true 0 dot; Eol true ].

(** [\s+] *)
Definition spaces_pattern : regex := Rep true 1 isspace.

(** [_extract_main_content] *)
Definition _extract_main_content (description : str) : str :=
  let content := sub budget_line_pattern [] description in
  let content := sub link_pattern [] content in
  strip (sub spaces_pattern (u " ") content).

End RSSParser.

(** ** Dates and times

    A [datetime] is its position on its own clock, in microseconds since
    0001-01-01T00:00:00, with its UTC offset when it is aware. *)

Module Datetime.
Local Open Scope Z_scope.

(** The exceptions of the modelled code, and a computation that returns
    or raises. *)
Inductive exn : Type := TypeError | ValueError | OverflowError | OSError.

Inductive result (A : Type) : Type :=
| Ok (a : A)
| Raise (e : exn).
Arguments Ok {A} a.
Arguments Raise {A} e.

#[export] Instance result_bind : MBind result :=
  fun A B k r => match r with
                 | Ok a => k a
                 | Raise e => Raise e
                 end.

Record datetime : Type := { instant : Z; utcoffset : option Z }.

Definition naive (t : Z) : datetime := {| instant := t; utcoffset := None |}.

Definition us_per_second : Z := 1000000.
Definition us_per_day : Z := 86400 * us_per_second.

(** [a < b]: two naive values compare on the clock, two aware values as
    instants of UTC, and a naive value with an aware one raises
    [TypeError]. *)
Definition lt (a b : datetime) : result bool :=
  match utcoffset a, utcoffset b with
  | None, None => Ok (instant a <? instant b)
  | Some oa, Some ob => Ok (instant a - oa <? instant b - ob)
  | _, _ => Raise TypeError
  end.

(** The first instant after [datetime.max]: the start of year 10000. *)
Definition max_instant : Z := 3652059 * us_per_day.

(** [a - timedelta(days=n)].  [timedelta] takes at most 999999999 days
    either way, and the difference has to lie between [datetime.min] and
    [datetime.max]; [OverflowError] otherwise. *)
Definition minus_days (a : datetime) (n : Z) : result datetime :=
  if (Z.abs n <=? 999999999)
     && (0 <=? instant a - n * us_per_day)
     && (instant a - n * us_per_day <? max_instant)
  then Ok {| instant := instant a - n * us_per_day; utcoffset := utcoffset a |}
  else Raise OverflowError.

Definition is_leap (y : Z) : bool :=
  (y mod 4 =? 0) && (negb (y mod 100 =? 0) || (y mod 400 =? 0)).

Definition days_in_month (y m : Z) : Z :=
  if m =? 2 then (if is_leap y then 29 else 28)
  else if (m =? 4) || (m =? 6) || (m =? 9) || (m =? 11) then 30 else 31.

Definition days_before_year (y : Z) : Z :=
  let p := y - 1 in p * 365 + p / 4 - p / 100 + p / 400.

Fixpoint days_before_month_aux (y : Z) (months : nat) : Z :=
  match months with
  | O => 0
  | S k => days_before_month_aux y k + days_in_month y (Z.of_nat (S k))
  end.

Definition days_before_month (y m : Z) : Z :=
  days_before_month_aux y (Z.to_nat (m - 1)).

(** The proleptic Gregorian ordinal, 0001-01-01 being day 1. *)
Definition ymd2ord (y m d : Z) : Z :=
  days_before_year y + days_before_month y m + d.

Definition make (y m d hh mm ss us : Z) (off : option Z) : option datetime :=
  if (1 <=? y) && (y <=? 9999) && (1 <=? m) && (m <=? 12)
     && (1 <=? d) && (d <=? days_in_month y m)
     && (hh <? 24) && (mm <? 60) && (ss <? 60)
  then Some {| instant := (ymd2ord y m d - 1) * us_per_day
                          + ((hh * 60 + mm) * 60 + ss) * us_per_second + us;
               utcoffset := off |}
  else None.

(** The interface of [datetime.fromisoformat] on a [str]: [None] stands
    for a string the parser refuses.  The date-only string of the epoch
    is accepted by every version of the library. *)
Class IsoFormat : Type := {
  fromisoformat : str -> option datetime;
  fromisoformat_epoch :
    fromisoformat (u "1970-01-01") = Some (naive (719162 * us_per_day))
}.

(** [datetime.fromisoformat(s)]: the value, or [ValueError]. *)
Definition datetime_fromisoformat `{IsoFormat} (s : str) : result datetime :=
  match fromisoformat s with
  | Some t => Ok t
  | None => Raise ValueError
  end.

(** *** The documented grammar (that of Python 3.7 to 3.10; later
    versions accept more strings)
    [YYYY-MM-DD[*HH[:MM[:SS[.fff[fff]]]][+HH:MM[:SS[.ffffff]]]]] *)

Definition digit (c : char) : option Z :=
  if ((48 <=? c) && (c <=? 57))%N then Some (Z.of_N c - 48) else None.

Fixpoint digits (n : nat) (acc : Z) (s : str) : option (Z * str) :=
  match n with
  | O => Some (acc, s)
  | S k =>
      match s with
      | c :: r => match digit c with
                  | Some d => digits k (acc * 10 + d) r
                  | None => None
                  end
      | [] => None
      end
  end.

Definition expect (c : char) (s : str) : option str :=
  match s with
  | x :: r => if (x =? c)%N then Some r else None
  | [] => None
  end.

(** [HH[:MM[:SS[.fff[fff]]]]], the whole of [s]: hours, minutes, seconds,
    microseconds. *)
Definition parse_hh_mm_ss_ff (s : str) : option (Z * Z * Z * Z) :=
  match digits 2 0 s with
  | None => None
  | Some (hh, []) => Some (hh, 0, 0, 0)
  | Some (hh, s1) =>
      match expect 58%N s1 with
      | None => None
      | Some s1 =>
          match digits 2 0 s1 with
          | None => None
          | Some (mm, []) => Some (hh, mm, 0, 0)
          | Some (mm, s2) =>
              match expect 58%N s2 with
              | None => None
              | Some s2 =>
                  match digits 2 0 s2 with
                  | None => None
                  | Some (ss, []) => Some (hh, mm, ss, 0)
                  | Some (ss, s3) =>
                      match expect 46%N s3 with
                      | None => None
                      | Some f =>
                          match digits 3 0 f with
                          | Some (ms, []) => Some (hh, mm, ss, ms * 1000)
                          | Some (ms, f') =>
                              match digits 3 ms f' with
                              | Some (us, []) => Some (hh, mm, ss, us)
                              | _ => None
                              end
                          | None => None
                          end
                      end
                  end
              end
          end
      end
  end.

(** The time string is cut at its first [-], or else its first [+]. *)
Fixpoint cut_at (c : char) (s : str) : option (str * str) :=
  match s with
  | [] => None
  | x :: r =>
      if (x =? c)%N then Some ([], r)
      else match cut_at c r with
           | Some (a, b) => Some (x :: a, b)
           | None => None
           end
  end.

Definition parse_time (s : str) : option (Z * Z * Z * Z * option Z) :=
  let with_offset (sign : Z) (t tz : str) :=
    if negb (bool_decide (length tz ∈ [5; 8; 15]%nat)) then None
    else match parse_hh_mm_ss_ff t, parse_hh_mm_ss_ff tz with
         | Some (hh, mm, ss, us), Some (oh, om, os, ous) =>
             if (oh <? 24) && (om <? 60) && (os <? 60)
             then Some (hh, mm, ss, us,
                        Some (sign * (((oh * 60 + om) * 60 + os) * us_per_second + ous)))
             else None
         | _, _ => None
         end in
  match cut_at 45%N s with
  | Some (t, tz) => with_offset (-1) t tz
  | None =>
      match cut_at 43%N s with
      | Some (t, tz) => with_offset 1 t tz
      | None =>
          match parse_hh_mm_ss_ff s with
          | Some (hh, mm, ss, us) => Some (hh, mm, ss, us, None)
          | None => None
          end
      end
  end.

Definition parse_isoformat (s : str) : option datetime :=
  match digits 4 0 s with
  | None => None
  | Some (y, s) =>
      match expect 45%N s with
      | None => None
      | Some s =>
          match digits 2 0 s with
          | None => None
          | Some (m, s) =>
              match expect 45%N s with
              | None => None
              | Some s =>
                  match digits 2 0 s with
                  | None => None
                  | Some (d, []) => make y m d 0 0 0 0 None
                  | Some (d, _ :: t) =>
                      match parse_time t with
                      | Some (hh, mm, ss, us, off) => make y m d hh mm ss us off
                      | None => None
                      end
                  end
              end
          end
      end
  end.

#[export] Program Instance documented_grammar : IsoFormat :=
  {| fromisoformat := parse_isoformat |}.
Next Obligation. reflexivity. Qed.

End Datetime.

(** ** Python dictionaries

    A [dict] keeps its keys in insertion order; [sorted] and the loops of
    the source see that order.  Keys are unique in every dictionary the
    operations below build. *)

Module Dict.

Abbreviation dict V := (list (str * V)).

Section Dict.
Context {V : Type}.

Definition keys (d : dict V) : list str := map fst d.
Definition values (d : dict V) : list V := map snd d.

(** [d.get(k)] *)
Fixpoint get (k : str) (d : dict V) : option V :=
  match d with
  | [] => None
  | (k', v) :: r => if bool_decide (k = k') then Some v else get k r
  end.

(** [d[k] = v]: an existing key keeps its place. *)
Fixpoint set (k : str) (v : V) (d : dict V) : dict V :=
  match d with
  | [] => [(k, v)]
  | (k', v') :: r =>
      if bool_decide (k = k') then (k, v) :: r else (k', v') :: set k v r
  end.

(** [d.pop(k, None)] *)
Definition pop (k : str) (d : dict V) : dict V :=
  filter (fun kv => k ≠ fst kv) d.

(** The dictionary [json.load] builds from the members of an object. *)
Definition of_pairs (l : list (str * V)) : dict V :=
  fold_left (fun d kv => set (fst kv) (snd kv) d) l [].
End Dict.
End Dict.

(** ** The seen-item store ([src/state_manager.py]) *)

(** A mission as [RSSParser._extract_mission_data] assembles it. *)
Module Mission.
Record t : Type := {
  id : str;
  title : str;
  link : str;
  pub_date : str;
  pub_date_parsed : option (list Z);
  description : str;
  budget : str;
  categories : list str;
  content : str;
  feed_name : str;
  feed_color : Z
}.
End Mission.

(** What [json.load] makes of a JSON text.  A number is kept as its
    literal; [JNull] is also the [None] of Python. *)
Module Json.
#[local] Unset Elimination Schemes.
Inductive json : Type :=
| JNull
| JBool (b : bool)
| JNumber (literal : str)
| JString (s : str)
| JArray (items : list json)
| JObject (members : list (str * json)).
#[local] Set Elimination Schemes.

Definition is_string (v : json) : bool :=
  match v with JString _ => true | _ => false end.

(** [hash(v)] raises [TypeError] for a list and for a dictionary. *)
Definition hashable (v : json) : bool :=
  match v with JArray _ | JObject _ => false | _ => true end.
End Json.

Module StateManager.
Import Datetime Json.

(** A value of [missions_data]: an object, of which the code reads four
    members.  The state file is read back as it is, so each member may be
    absent, and may be any value. *)
Record MissionData : Type := {
  title : option json;
  pub_date : option json;
  feed_name : option json;
  seen_at : option json
}.

Record t : Type := {
  seen_missions : gset str;
  missions_data : Dict.dict MissionData
}.

Definition empty : t := {| seen_missions := ∅; missions_data := [] |}.

(** *** The files: [data_file] and [data_file + ".tmp"] *)

(** What [json.load] finds in a file: an object, of which [load_state]
    reads two members (a list of strings and an object of records, each
    of which may be missing), or something [load_state] rejects. *)
Inductive content : Type :=
| Document (seen : option (list str))
           (data : option (list (str * MissionData)))
           (last_update : option str)
| Malformed.

Inductive path : Type := DataFile | TempFile.

Inductive op : Type :=
| Write (p : path) (c : content)
| Replace (src dst : path)
| Rename (src dst : path)
| Remove (p : path).

Definition same_path (p q : path) : bool :=
  match p, q with
  | DataFile, DataFile | TempFile, TempFile => true
  | _, _ => false
  end.

(** The operation creates, replaces, moves or deletes the file [p]. *)
Definition alters (p : path) (o : op) : bool :=
  match o with
  | Write q _ | Remove q => same_path p q
  | Replace src dst | Rename src dst => same_path p src || same_path p dst
  end.

Record FS : Type := {
  data_file : option content;
  temp_file : option content;
  journal : list op          (* the operations performed, oldest first *)
}.

Definition write_temp (c : content) (fs : FS) : FS :=
  {| data_file := data_file fs; temp_file := Some c;
     journal := journal fs ++ [Write TempFile c] |}.

(** [os.replace(temp, data)] when the data file exists, else
    [os.rename(temp, data)] *)
Definition rename_temp (fs : FS) : FS :=
  {| data_file := temp_file fs; temp_file := None;
     journal := journal fs ++
                [match data_file fs with
                 | Some _ => Replace TempFile DataFile
                 | None => Rename TempFile DataFile
                 end] |}.

Definition remove_temp (fs : FS) : FS :=
  {| data_file := data_file fs; temp_file := None;
     journal := journal fs ++ [Remove TempFile] |}.

Definition remove_data (fs : FS) : FS :=
  {| data_file := None; temp_file := temp_file fs;
     journal := journal fs ++ [Remove DataFile] |}.

(** The step of the body of [save_state] that the environment makes fail,
    if any: opening the temporary file, writing the document into it, or
    renaming it. *)
Inductive fault : Type := NoFault | OpenFails | WriteFails | RenameFails.

(** *** load_state *)
Definition load_state (fs : FS) : t :=
  match data_file fs with
  | Some (Document seen data _) =>
      {| seen_missions := list_to_set (default [] seen);
         missions_data := Dict.of_pairs (default [] data) |}
  | Some Malformed => empty            (* the [except] branch *)
  | None => empty
  end.

(** *** is_mission_seen *)
Definition is_mission_seen (self : t) (mission_id : str) : bool :=
  bool_decide (mission_id ∈ seen_missions self).

(** *** mark_mission_seen; [now_iso] is [datetime.now().isoformat()] *)
Definition mark_mission_seen (now_iso : str) (mission : Mission.t) (self : t) : t :=
  let mission_id := Mission.id mission in
  {| seen_missions := seen_missions self ∪ {[mission_id]};
     missions_data :=
       Dict.set mission_id
         {| title := Some (JString (Mission.title mission));
            pub_date := Some (JString (Mission.pub_date mission));
            feed_name := Some (JString (Mission.feed_name mission));
            seen_at := Some (JString now_iso) |}
         (missions_data self) |}.

(** *** get_new_missions: the result and the store after the call *)
Definition get_new_missions (missions : list Mission.t) (self : t)
  : list Mission.t * t :=
  (fold_left
     (fun new_missions mission =>
        if negb (is_mission_seen self (Mission.id mission))
        then new_missions ++ [mission] else new_missions)
     missions [],
   self).

(** *** _cleanup_old_missions *)
Definition epoch_default : str := u "1970-01-01".

Section Cleanup.
Context `{IsoFormat}.

(** [datetime.fromisoformat(v)] on a value of the state file:
    [TypeError] when [v] is no string, [ValueError] when it is a string
    the parser refuses. *)
Definition fromisoformat_value (v : json) : result datetime :=
  match v with
  | JString s => datetime_fromisoformat s
  | _ => Raise TypeError
  end.

(** [mission_data.get('seen_at', '1970-01-01')] *)
Definition seen_at_or_epoch (mission_data : MissionData) : json :=
  default (JString epoch_default) (seen_at mission_data).

(** The first loop.  The body of its [try] parses the timestamp and
    compares it with the cutoff; [except ValueError] goes on to the next
    record, and any other exception leaves the loop. *)
Fixpoint old_missions (cutoff_date : datetime)
    (items : list (str * MissionData)) (missions_to_remove : list str)
  : result (list str) :=
  match items with
  | [] => Ok missions_to_remove
  | (mission_id, mission_data) :: rest =>
      let attempt :=
        seen ← fromisoformat_value (seen_at_or_epoch mission_data);
        lt seen cutoff_date in
      match attempt with
      | Ok true => old_missions cutoff_date rest (missions_to_remove ++ [mission_id])
      | Ok false => old_missions cutoff_date rest missions_to_remove
      | Raise ValueError => old_missions cutoff_date rest missions_to_remove
      | Raise e => Raise e
      end
  end.

Definition discard (self : t) (mission_id : str) : t :=
  {| seen_missions := seen_missions self ∖ {[mission_id]};
     missions_data := Dict.pop mission_id (missions_data self) |}.

(** [now] is the naive [datetime.now()].  The cutoff is computed before
    the loops, outside every [try]. *)
Definition _cleanup_old_missions (now : Z) (days_to_keep : Z) (self : t)
  : result unit * t :=
  match minus_days (naive now) days_to_keep with
  | Raise e => (Raise e, self)
  | Ok cutoff_date =>
      match old_missions cutoff_date (missions_data self) [] with
      | Raise e => (Raise e, self)
      | Ok missions_to_remove => (Ok tt, fold_left discard missions_to_remove self)
      end
  end.

(** *** save_state; [now_iso] is the [isoformat()] of the clock at the
    time the document is assembled.  The handler removes the temporary
    file when there is one; that removal is not guarded, so when it fails
    ([remove_fails]) its error leaves [save_state]. *)
Definition save_state (now : Z) (now_iso : str) (f : fault) (remove_fails : bool)
    (self : t) (fs : FS) : result bool * t * FS :=
  let handler (self : t) (fs : FS) :=
    match temp_file fs with
    | Some _ =>
        if remove_fails then (Raise OSError, self, fs)
        else (Ok false, self, remove_temp fs)
    | None => (Ok false, self, fs)
    end in
  match _cleanup_old_missions now 30 self with
  | (Raise _, self) => handler self fs
  | (Ok _, self) =>
      let data := Document (Some (elements (seen_missions self)))
                           (Some (missions_data self)) (Some now_iso) in
      match f with
      | OpenFails => handler self fs
      | WriteFails => handler self (write_temp Malformed fs)
      | RenameFails => handler self (write_temp data fs)
      | NoFault => (Ok true, self, rename_temp (write_temp data fs))
      end
  end.
End Cleanup.

(** *** reset_state; the removal of the file may fail *)
Definition reset_state (remove_fails : bool) (self : t) (fs : FS) : bool * t * FS :=
  let self := empty in
  match data_file fs with
  | Some _ => if remove_fails then (false, self, fs) else (true, self, remove_data fs)
  | None => (true, self, fs)
  end.

(** *** get_statistics *)

(** [oldest_mission] and [newest_mission] are values of Python, [None]
    being [JNull]; the keys of [missions_by_feed] are the feed names as
    the records hold them. *)
Record Statistics : Type := {
  total_missions_seen : nat;
  missions_by_feed : list (json * nat);
  oldest_mission : json;
  newest_mission : json
}.

(** [sorted(l, key=key)]: a stable sort, [leb] being [<=] on the keys. *)
Section Sorted.
Context {A K : Type} (leb : K -> K -> bool) (key : A -> K).

Fixpoint insert_sorted (x : A) (l : list A) : list A :=
  match l with
  | [] => [x]
  | y :: r => if leb (key x) (key y) then x :: l else y :: insert_sorted x r
  end.

Definition sorted (l : list A) : list A := fold_right insert_sorted [] l.
End Sorted.

(** Two things the interpreter does with values that are no strings are
    left as parameters: whether two numbers (or booleans) are the same
    dictionary key, and what [sorted] answers for two records or more
    none of whose keys is a string. *)
Class Interpreter : Type := {
  same_number : json -> json -> bool;
  sorted_untyped : list MissionData -> result (list MissionData)
}.

Section Statistics.
Context `{Interpreter}.

(** Whether two hashable values are the same key of a dictionary. *)
Definition same_key (a b : json) : bool :=
  match a, b with
  | JString s, JString t => bool_decide (s = t)
  | JNull, JNull => true
  | (JBool _ | JNumber _), (JBool _ | JNumber _) => same_number a b
  | _, _ => false
  end.

(** [d.get(k)] and [d[k] = v] for a hashable key; an existing key keeps
    its place and its own spelling. *)
Fixpoint get_key (k : json) (d : list (json * nat)) : option nat :=
  match d with
  | [] => None
  | (k', v) :: r => if same_key k k' then Some v else get_key k r
  end.

Fixpoint set_key (k : json) (v : nat) (d : list (json * nat)) : list (json * nat) :=
  match d with
  | [] => [(k, v)]
  | (k', v') :: r => if same_key k k' then (k', v) :: r else (k', v') :: set_key k v r
  end.

(** The body of the first loop; a feed name that is a list or an object
    cannot be a key. *)
Definition count_feed (by_feed : list (json * nat)) (mission_data : MissionData)
  : result (list (json * nat)) :=
  let feed_name := default (JString (u "Unknown")) (feed_name mission_data) in
  if hashable feed_name
  then Ok (set_key feed_name (default 0%nat (get_key feed_name by_feed) + 1)%nat by_feed)
  else Raise TypeError.

Fixpoint count_feeds (values : list MissionData) (by_feed : list (json * nat))
  : result (list (json * nat)) :=
  match values with
  | [] => Ok by_feed
  | mission_data :: rest =>
      by_feed ← count_feed by_feed mission_data; count_feeds rest by_feed
  end.

(** The text of a key that is a string. *)
Definition seen_at_key (x : MissionData) : str :=
  match seen_at_or_epoch x with JString s => s | _ => [] end.

(** [sorted(values, key=lambda x: x.get('seen_at', '1970-01-01'))].  A
    list of one record is returned without any comparison; strings are
    ordered by code points; a string compared with a value that is no
    string raises [TypeError], and the sort cannot order the keys without
    such a comparison when both kinds are present. *)
Definition sorted_by_seen_at (values : list MissionData)
  : result (list MissionData) :=
  let keys := map seen_at_or_epoch values in
  match values with
  | [] | [_] => Ok values
  | _ :: _ :: _ =>
      if forallb is_string keys then Ok (sorted str_leb seen_at_key values)
      else if existsb is_string keys then Raise TypeError
      else sorted_untyped values
  end.

(** [x.get('title')], [x] being the first or the last record of the
    sorted list (there is one: the list is not empty). *)
Definition get_title (x : option MissionData) : json :=
  default JNull (x ≫= title).

Definition get_statistics (self : t) : result Statistics :=
  by_feed ← count_feeds (Dict.values (missions_data self)) [];
  match missions_data self with
  | [] =>
      Ok {| total_missions_seen := size (seen_missions self);
            missions_by_feed := by_feed;
            oldest_mission := JNull; newest_mission := JNull |}
  | _ :: _ =>
      sorted_missions ← sorted_by_seen_at (Dict.values (missions_data self));
      Ok {| total_missions_seen := size (seen_missions self);
            missions_by_feed := by_feed;
            oldest_mission := get_title (hd_error sorted_missions);
            newest_mission := get_title (last sorted_missions) |}
  end.
End Statistics.

(** A stand-in for the examples, whose feed names and timestamps are
    strings: on such records [get_statistics] asks neither question, and
    every interpreter gives the same statistics. *)
#[export] Instance strings_only : Interpreter :=
  {| same_number := fun _ _ => false;
     sorted_untyped := fun _ => Raise TypeError |}.

(** *** mark_missions_seen; [clock k] is the reading
    [datetime.now().isoformat()] of the k-th call of [mark_mission_seen] *)
Fixpoint mark_missions_seen (clock : nat -> str) (missions : list Mission.t)
    (self : t) : t :=
  match missions with
  | [] => self
  | mission :: rest =>
      mark_missions_seen (fun k => clock (S k)) rest
        (mark_mission_seen (clock 0%nat) mission self)
  end.

(** The record [mark_mission_seen] stores for a mission. *)
Definition record_of (now_iso : str) (mission : Mission.t) : MissionData :=
  {| title := Some (JString (Mission.title mission));
     pub_date := Some (JString (Mission.pub_date mission));
     feed_name := Some (JString (Mission.feed_name mission));
     seen_at := Some (JString now_iso) |}.

End StateManager.

(** ** Batch delivery ([src/discord_notifier.py]) *)

Module DiscordNotifier.

(** [range(start, stop, step)] for a positive step. *)
Fixpoint range_from (fuel start stop step : nat) : list nat :=
  match fuel with
  | O => []
  | S k =>
      if (start <? stop)%nat then start :: range_from k (start + step)%nat stop step
      else []
  end.

Definition py_range (start stop step : nat) : list nat :=
  range_from stop start stop step.

(** [l[i:j]] for [0 <= i <= j] *)
Definition slice {A : Type} (l : list A) (i j : nat) : list A :=
  firstn (j - i) (skipn i l).

Section Notifier.
(** The embeds are built from well-formed missions, which does not
    raise; the webhook answers each POST with success or failure. *)
Context {Embed Webhook : Type}.
Variable _create_mission_embed : Mission.t -> Embed.

Record payload : Type := {
  embeds : list Embed;
  username : option str;
  avatar_url : option str
}.

(** [self.username] and [self.avatar_url]; a member of the payload is
    set when the attribute is neither [None] nor empty. *)
Variables self_username self_avatar_url : option str.

Definition if_set (s : option str) : option str :=
  match s with
  | Some (_ :: _) => s
  | _ => None
  end.

Definition _create_webhook_payload (embeds : list Embed) : payload :=
  {| embeds := embeds;
     username := if_set self_username;
     avatar_url := if_set self_avatar_url |}.

(** [self.session.post(...)] followed by [raise_for_status()]: whether the
    call went through, and the webhook afterwards. *)
Variable post : Webhook -> payload -> bool * Webhook.

(** One delivery call and its outcome. *)
Record call : Type := {
  batch : list Mission.t;
  sent : payload;
  delivered : bool
}.

Record run : Type := {
  success_count : nat;
  webhook : Webhook;
  calls : list call
}.

(** The body of the loop, for the start index [i]. *)
Definition send_batch (missions : list Mission.t) (r : run) (i : nat) : run :=
  let batch := slice missions i (i + 10) in
  let embeds := map _create_mission_embed batch in
  let payload := _create_webhook_payload embeds in
  let (ok, w) := post (webhook r) payload in
  {| success_count :=
       if ok then (success_count r + length batch)%nat else success_count r;
     webhook := w;
     calls := calls r ++ [{| batch := batch; sent := payload; delivered := ok |}] |}.

(** The sizes of the calls that were delivered, added up. *)
Definition delivered_size (cs : list call) : nat :=
  list_sum (map (fun c => if delivered c then length (batch c) else 0%nat) cs).

(** What the loop keeps true of the run. *)
Definition well_logged (r : run) : Prop :=
  success_count r = delivered_size (calls r) /\
  Forall (fun c => sent c
                   = _create_webhook_payload (map _create_mission_embed (batch c)))
         (calls r).

Definition send_multiple_missions (missions : list Mission.t) (w : Webhook) : run :=
  match missions with
  | [] => {| success_count := 0; webhook := w; calls := [] |}
  | _ :: _ =>
      fold_left (send_batch missions) (py_range 0 (length missions) 10)
                {| success_count := 0; webhook := w; calls := [] |}
  end.
(** The slices [missions[i:i+10]] of the loop. *)
Definition batches (missions : list Mission.t) : list (list Mission.t) :=
  map (fun i => slice missions i (i + 10)) (py_range 0 (length missions) 10).

(** The answers of the webhook when the payloads of the given batches
    are posted to it one after the other, each call finding the webhook
    as the call before left it; and the webhook after the last call. *)
Fixpoint posts (w : Webhook) (bs : list (list Mission.t)) : list call * Webhook :=
  match bs with
  | [] => ([], w)
  | b :: rest =>
      let payload := _create_webhook_payload (map _create_mission_embed b) in
      let (ok, w') := post w payload in
      let (cs, w'') := posts w' rest in
      ({| batch := b; sent := payload; delivered := ok |} :: cs, w'')
  end.
End Notifier.

End DiscordNotifier.

(** ** Definitions that follow the words of the specification *)

Module Spec.
Import Datetime Json.

(** "Collapses all whitespace runs to single spaces": a character of a
    run is dropped when the run has already given its space. *)
Fixpoint collapse (in_run : bool) (s : str) : str :=
  match s with
  | [] => []
  | c :: r =>
      if isspace c then (if in_run then collapse true r else 32 :: collapse true r)
      else c :: collapse false r
  end.

(** "collapses all whitespace runs to single spaces and trims ends" *)
Definition collapse_and_trim (s : str) : str := strip (collapse false s).

(** The number of whitespace characters at the head of [s]. *)
Fixpoint leading_spaces (s : str) : nat :=
  match s with
  | c :: r => if isspace c then S (leading_spaces r) else O
  | [] => O
  end.

(** *** The store *)

Import StateManager.

(** The test of the loop of [get_new_missions]. *)
Definition unseen (self : StateManager.t) (m : Mission.t) : bool :=
  negb (is_mission_seen self (Mission.id m)).

(** "Every identifier in the set has exactly one record in the map, and
    every key of the map is a member of the set." *)
Definition lockstep (self : StateManager.t) : Prop :=
  NoDup (Dict.keys (missions_data self)) /\
  forall id : str, id ∈ seen_missions self <-> id ∈ Dict.keys (missions_data self).

(** The state file lists the same identifiers in its sequence and in its
    mapping (or there is no readable file). *)
Definition file_in_lockstep (fs : FS) : Prop :=
  match data_file fs with
  | Some (Document seen data _) =>
      forall id : str, id ∈ default [] seen <-> id ∈ map fst (default [] data)
  | _ => True
  end.

Section Prune.
Context `{IsoFormat}.

(** "Now minus the retention", and when the code can compute it. *)
Definition cutoff (now days : Z) : datetime := naive (now - days * us_per_day).

Definition cutoff_in_range (now days : Z) : Prop :=
  minus_days (naive now) days = Ok (cutoff now days).

(** "The record's observedAt parses successfully and is strictly older
    than now minus the retention." *)
Definition own_timestamp_expired (now days : Z) (r : MissionData) : Prop :=
  exists s t, seen_at r = Some (JString s) /\ fromisoformat s = Some t /\
              lt t (cutoff now days) = Ok true.

(** The same, on the timestamp the code reads: the record's own, or
    1970-01-01 when the record has none. *)
Definition read_timestamp_expired (now days : Z) (r : MissionData) : Prop :=
  exists s t, seen_at_or_epoch r = JString s /\ fromisoformat s = Some t /\
              lt t (cutoff now days) = Ok true.

Definition unparseable (r : MissionData) : Prop :=
  exists s, seen_at r = Some (JString s) /\ fromisoformat s = None.

Definition removed (id : str) (self' : StateManager.t) : Prop :=
  (id ∉ seen_missions self') /\ Dict.get id (missions_data self') = None.

Definition kept (id : str) (r : MissionData) (self self' : StateManager.t) : Prop :=
  Dict.get id (missions_data self') = Some r /\
  (id ∈ seen_missions self' <-> id ∈ seen_missions self).

(** "prune removes both the identifier and the record exactly when the
    record is expired; every record whose observedAt fails to parse is
    kept, with its identifier, unchanged." *)
Definition prunes_exactly (expired : MissionData -> Prop)
    (now days : Z) (self : StateManager.t) : Prop :=
  exists self',
    _cleanup_old_missions now days self = (Ok tt, self') /\
    forall id r, Dict.get id (missions_data self) = Some r ->
      (removed id self' <-> expired r) /\
      (~ expired r -> kept id r self self') /\
      (unparseable r -> kept id r self self').

(** The timestamp the code reads for the record is a string, and it
    carries no UTC offset. *)
Definition plain_timestamp (r : MissionData) : bool :=
  match seen_at_or_epoch r with
  | JString s =>
      match fromisoformat s with
      | Some t => match utcoffset t with None => true | Some _ => false end
      | None => true
      end
  | _ => false
  end.

(** Every timestamp of the store that is present is a string, and none
    carries a UTC offset. *)
Definition plain_timestamps (self : StateManager.t) : Prop :=
  forallb (fun kv => plain_timestamp (snd kv)) (missions_data self) = true.

(** "Sorting records by observedAt ascending, where a missing or
    unparseable observedAt sorts as the epoch start." *)
Definition observed_at (r : MissionData) : Z :=
  match seen_at r with
  | Some (JString s) =>
      match fromisoformat s with
      | Some t => instant t - default 0%Z (utcoffset t)
      | None => 719162 * us_per_day
      end
  | _ => 719162 * us_per_day
  end.

Definition oldest_by_observed_at (self : StateManager.t) : json :=
  get_title (hd_error (sorted Z.leb observed_at (Dict.values (missions_data self)))).

Definition newest_by_observed_at (self : StateManager.t) : json :=
  get_title (last (sorted Z.leb observed_at (Dict.values (missions_data self)))).
End Prune.

(** The feed names and the timestamps of the store that are present are
    strings. *)
Definition string_or_absent (v : option json) : bool :=
  match v with Some v => is_string v | None => true end.

Definition string_members (self : StateManager.t) : Prop :=
  forallb (fun kv => string_or_absent (feed_name (snd kv))
                     && string_or_absent (seen_at (snd kv)))
          (missions_data self) = true.

(** The number of records of a feed; a record without a feed name counts
    for the feed "Unknown". *)
Definition feed_of (r : MissionData) : json :=
  default (JString (u "Unknown")) (feed_name r).

Definition of_feed (name : str) (r : MissionData) : bool :=
  match feed_of r with JString s => bool_decide (s = name) | _ => false end.

Definition records_of_feed (name : str) (self : StateManager.t) : nat :=
  length (List.filter (of_feed name) (Dict.values (missions_data self))).

(** "If the pattern does not match, extract returns the fallback and
    stripMetadata the whitespace-collapsed text." *)
Definition degrades_to_fallback (t : str) : Prop :=
  Re.search RSSParser.budget_pattern t = None ->
  RSSParser._extract_budget_and_categories t = (RSSParser.fallback_budget, []) /\
  RSSParser._extract_main_content t = collapse_and_trim t.

End Spec.

(** ** Concrete inputs *)

Module Examples.
Import Datetime Json StateManager.
Local Open Scope string_scope.

Definition sample : str :=
  u "Budget : Moins de 500 € - Catégories : Développement spécifique, API Voir ce projet sur Codeur".

Definition with_link_only : str := u "Hello Voir ce projet sur Codeur".

Definition plain_text : str := u "  Refonte   d'un site
 vitrine ".

(** 2024-06-01T00:00:00 on the naive clock. *)
Definition now : Z := 63852796800000000.

Definition record (t : String.string) (s : option String.string) : MissionData :=
  {| title := Some (JString (u t));
     pub_date := Some (JString (u "Sat, 01 Jun 2024 08:00:00 +0000"));
     feed_name := Some (JString (u "Codeur"));
     seen_at := (fun s => JString (u s)) <$> s |}.

(** One record, written without [seen_at]. *)
Definition store_without_seen_at : StateManager.t :=
  {| seen_missions := {[ u "a" ]};
     missions_data := [(u "a", record "A" None)] |}.

(** A record without [seen_at] and one whose timestamp has an offset. *)
Definition store_with_offset : StateManager.t :=
  {| seen_missions := {[ u "a"; u "b" ]};
     missions_data := [(u "a", record "A" None);
                       (u "b", record "B" (Some "2020-01-01T00:00:00+00:00"))] |}.

(** An old record, a recent one, and one with an unreadable timestamp. *)
Definition store_mixed : StateManager.t :=
  {| seen_missions := {[ u "old"; u "new"; u "odd" ]};
     missions_data := [(u "old", record "O" (Some "2024-01-01T00:00:00"));
                       (u "new", record "N" (Some "2024-05-30T12:00:00"));
                       (u "odd", record "X" (Some "zzz"))] |}.

Definition store_odd_timestamp : StateManager.t :=
  {| seen_missions := {[ u "a"; u "b" ]};
     missions_data := [(u "a", record "A" (Some "zzz"));
                       (u "b", record "B" (Some "2024-01-01T00:00:00"))] |}.

(** An old record, and a record whose timestamp is [null]. *)
Definition store_null_timestamp : StateManager.t :=
  {| seen_missions := {[ u "a"; u "b" ]};
     missions_data := [(u "a", record "A" (Some "2020-01-01T00:00:00"));
                       (u "b", {| title := Some (JString (u "B"));
                                  pub_date := None;
                                  feed_name := Some (JString (u "Codeur"));
                                  seen_at := Some JNull |})] |}.

(** A committed state file, and a temporary file left behind. *)
Definition old_files : FS :=
  {| data_file := Some (Document (Some [u "old"])
                          (Some [(u "old", record "O" (Some "2024-01-01T00:00:00"))])
                          (Some (u "2024-01-01T00:00:00")));
     temp_file := Some Malformed; journal := [] |}.

Definition no_files : FS :=
  {| data_file := None; temp_file := None; journal := [] |}.

(** A state file whose sequence names an identifier its mapping lacks. *)
Definition uneven_file : FS :=
  {| data_file := Some (Document (Some [u "a"]) (Some []) None);
     temp_file := None; journal := [] |}.

Definition mission (n : nat) : Mission.t :=
  {| Mission.id := [N.of_nat n]; Mission.title := u "Mission";
     Mission.link := u "https://www.codeur.com/projects/1";
     Mission.pub_date := u "Sat, 01 Jun 2024 08:00:00 +0000";
     Mission.pub_date_parsed := Some [2024; 6; 1; 8; 0; 0; 5; 153; 0]%Z;
     Mission.description := []; Mission.budget := RSSParser.fallback_budget;
     Mission.categories := []; Mission.content := [];
     Mission.feed_name := u "Codeur"; Mission.feed_color := 3447003%Z |}.

Definition batch_of_23 : list Mission.t := map mission (seq 0 23).

(** A webhook that counts the calls and refuses the second one. *)
Definition flaky_post (n : nat) (p : DiscordNotifier.payload (Embed := str))
  : bool * nat :=
  (negb (Nat.eqb n 1), S n).

End Examples.

(** ** What a pattern can match

    The words of a pattern, whatever order the engine tries them in; the
    conditions an anchor puts on the text around the word are left out. *)

Module Language.
Import Re.

Fixpoint denotes (r : regex) (w : str) : Prop :=
  match r with
  | Eps => w = []
  | Chr p => exists c, w = [c] /\ p c = true
  | Seq r1 r2 => exists w1 w2, w = w1 ++ w2 /\ denotes r1 w1 /\ denotes r2 w2
  | Alt r1 r2 => denotes r1 w \/ denotes r2 w
  | Rep _ min p => (min <= length w)%nat /\ Forall (fun c => p c = true) w
  | Opt p => w = [] \/ exists c, w = [c] /\ p c = true
  | Grp _ r1 => denotes r1 w
  | Eol _ => w = []
  end.

(** [P g w] holds of every word [w] that group [g] of the pattern can
    capture. *)
Fixpoint groups_in (P : nat -> str -> Prop) (r : regex) : Prop :=
  match r with
  | Seq r1 r2 | Alt r1 r2 => groups_in P r1 /\ groups_in P r2
  | Grp g r1 => (forall w, denotes r1 w -> P g w) /\ groups_in P r1
  | _ => True
  end.

Definition captured (P : nat -> str -> Prop) (cs : caps) : Prop :=
  Forall (fun gw => P (fst gw) (snd gw)) cs.

(** What the groups of [budget_pattern] capture: group 1 has no hyphen,
    group 2 no line feed. *)
Definition budget_groups (g : nat) (w : str) : Prop :=
  match g with
  | 1%nat => Forall (fun c => c <> 45) w
  | 2%nat => Forall (fun c => c <> 10) w
  | _ => True
  end.

(** Every whitespace character of [s] is a single U+0020 that is not
    followed by whitespace. *)
Fixpoint single_spaces (s : str) : Prop :=
  match s with
  | [] => True
  | a :: t =>
      (isspace a = true ->
       a = 32 /\ match t with b :: _ => isspace b = false | [] => True end)
      /\ single_spaces t
  end.

(** [s] neither begins nor ends with whitespace. *)
Definition trimmed (s : str) : Prop :=
  match s with c :: _ => isspace c = false | [] => True end /\
  match last s with Some c => isspace c = false | None => True end.

Definition visible (s : str) : str := List.filter (fun c => negb (isspace c)) s.

End Language.

(** ** One pass over the feeds ([src/main.py]) *)

Module MissionBot.
Import Datetime StateManager DiscordNotifier.

(** An item of [config['rss_feeds']]. *)
Record FeedConfig : Type := { name : str; url : str; color : Z }.

(** [l[:n]] for an integer [n] of either sign *)
Definition up_to {A : Type} (l : list A) (n : Z) : list A :=
  if (n <? 0)%Z then firstn (length l - Z.to_nat (- n)) l
  else firstn (Z.to_nat n) l.

(** The variables of the loop over the feeds.  [clock_reads] counts the
    readings of [datetime.now()] that [mark_mission_seen] has made. *)
Record pass : Type := {
  state_manager : StateManager.t;
  all_new_missions : list Mission.t;
  feeds_processed : list str;
  clock_reads : nat
}.

(** The body of the loop.  A feed comes with the list that
    [self.rss_parser.parse_feed] returns for it in this pass ([parse_feed]
    itself catches every error and then returns the empty list).
    [max_items] is [config['surveillance']['max_items_per_check']], [None]
    when the key is missing or is no integer: the lookup, the slice or the
    comparison then raises, the handler of the loop logs the error, and
    the pass goes on with the next feed. *)
Definition process_feed (max_items : option Z) (clock : nat -> str)
    (p : pass) (feed : FeedConfig * list Mission.t) : pass :=
  let (feed_config, missions) := feed in
  let new_missions := fst (get_new_missions missions (state_manager p)) in
  match new_missions with
  | [] =>
      {| state_manager := state_manager p;
         all_new_missions := all_new_missions p;
         feeds_processed := feeds_processed p ++ [name feed_config];
         clock_reads := clock_reads p |}
  | _ :: _ =>
      match max_items with
      | None => p
      | Some max_items =>
          let limited_missions := up_to new_missions max_items in
          {| state_manager :=
               mark_missions_seen (fun k => clock (clock_reads p + k)%nat)
                 limited_missions (state_manager p);
             all_new_missions := all_new_missions p ++ limited_missions;
             feeds_processed := feeds_processed p ++ [name feed_config];
             clock_reads := (clock_reads p + length limited_missions)%nat |}
      end
  end.

Definition start (self : StateManager.t) : pass :=
  {| state_manager := self; all_new_missions := []; feeds_processed := [];
     clock_reads := 0 |}.

(** The loop of [check_for_new_missions]. *)
Definition check_feeds (max_items : option Z) (clock : nat -> str)
    (feeds : list (FeedConfig * list Mission.t)) (self : StateManager.t) : pass :=
  fold_left (process_feed max_items clock) feeds (start self).

Section Bot.
Context `{IsoFormat} {Embed Webhook : Type}.
Variable _create_mission_embed : Mission.t -> Embed.
Variables self_username self_avatar_url : option str.
Variable post : Webhook -> payload (Embed := Embed) -> bool * Webhook.

(** What a pass leaves: the variables of the loop, the delivery run
    ([None] when [send_multiple_missions] is not called), and the result
    of [save_state] with the store and the files after it. *)
Record outcome : Type := {
  found : pass;
  delivery : option (run (Embed := Embed) (Webhook := Webhook));
  saved : result bool;
  store : StateManager.t;
  files : FS
}.

(** *** check_for_new_missions; [now] and [now_iso] are the clock
    readings of [save_state], [f] and [remove_fails] its faults.  The call
    of [save_state] is outside every [try]: an error that leaves it
    leaves the pass too. *)
Definition check_for_new_missions (max_items : option Z) (clock : nat -> str)
    (feeds : list (FeedConfig * list Mission.t))
    (now : Z) (now_iso : str) (f : fault) (remove_fails : bool)
    (self : StateManager.t) (w : Webhook) (fs : FS) : outcome :=
  let p := check_feeds max_items clock feeds self in
  let delivery :=
    match all_new_missions p with
    | [] => None
    | _ :: _ =>
        Some (send_multiple_missions _create_mission_embed
                self_username self_avatar_url post (all_new_missions p) w)
    end in
  let '(ok, self', fs') :=
    save_state now now_iso f remove_fails (state_manager p) fs in
  {| found := p; delivery := delivery; saved := ok; store := self'; files := fs' |}.
End Bot.

(** Every reading of the clock is a timestamp without offset that is not
    older than the retention of [save_state]. *)
Definition clock_in_retention `{IsoFormat} (now : Z) (clock : nat -> str) : Prop :=
  forall k, exists t, fromisoformat (clock k) = Some t /\ utcoffset t = None
                      /\ (now - 30 * us_per_day <= instant t)%Z.

End MissionBot.

(** ** Dates in French ([format_date_fr] of [src/rss_parser.py]) *)

Module FormatDate.
Import Datetime.

Definition months : list str :=
  [u "janvier"; u "février"; u "mars"; u "avril"; u "mai"; u "juin";
   u "juillet"; u "août"; u "septembre"; u "octobre"; u "novembre"; u "décembre"].

Definition unknown_date : str := u "Date inconnue".

Fixpoint chars_of_uint (d : Decimal.uint) : str :=
  match d with
  | Decimal.Nil => []
  | Decimal.D0 d => 48 :: chars_of_uint d
  | Decimal.D1 d => 49 :: chars_of_uint d
  | Decimal.D2 d => 50 :: chars_of_uint d
  | Decimal.D3 d => 51 :: chars_of_uint d
  | Decimal.D4 d => 52 :: chars_of_uint d
  | Decimal.D5 d => 53 :: chars_of_uint d
  | Decimal.D6 d => 54 :: chars_of_uint d
  | Decimal.D7 d => 55 :: chars_of_uint d
  | Decimal.D8 d => 56 :: chars_of_uint d
  | Decimal.D9 d => 57 :: chars_of_uint d
  end.

Definition is_digit (c : char) : Prop := 48 <= c <= 57.

(** [str(n)] for [n >= 0] *)
Definition decimal (n : Z) : str := chars_of_uint (N.to_uint (Z.to_N n)).

(** [f"{n:02d}"] for [n >= 0] *)
Definition pad2 (n : Z) : str :=
  let s := decimal n in
  if (length s <? 2)%nat then 48 :: s else s.

(** [datetime(year, month, day, hour, minute, second)] raises
    [ValueError] outside these ranges. *)
Definition datetime_ok (y m d hh mm ss : Z) : bool :=
  (1 <=? y)%Z && (y <=? 9999)%Z && (1 <=? m)%Z && (m <=? 12)%Z
  && (1 <=? d)%Z && (d <=? days_in_month y m)%Z
  && (0 <=? hh)%Z && (hh <=? 23)%Z && (0 <=? mm)%Z && (mm <=? 59)%Z
  && (0 <=? ss)%Z && (ss <=? 59)%Z.

(** *** format_date_fr.  [date_tuple] is [None] or a tuple of integers;
    with fewer than three of them the constructor raises [TypeError],
    which the bare [except] turns into the same answer as [ValueError]. *)
Definition format_date_fr (date_tuple : option (list Z)) : str :=
  match date_tuple with
  | None | Some [] => unknown_date
  | Some date_tuple =>
      match firstn 6 date_tuple with
      | y :: m :: d :: time =>
          let hh := nth 0 time 0%Z in
          let mm := nth 1 time 0%Z in
          let ss := nth 2 time 0%Z in
          if datetime_ok y m d hh mm ss then
            decimal d ++ u " " ++ nth (Z.to_nat (m - 1)) months [] ++ u " "
            ++ decimal y ++ u " à " ++ pad2 hh ++ u "h" ++ pad2 mm
          else unknown_date
      | _ => unknown_date
      end
  end.

End FormatDate.

(** ** Concrete inputs for a pass *)

Module Scenarios.
Import Datetime StateManager MissionBot.
Local Open Scope string_scope.

(** A clock that reads noon of 2024-05-31 at every call. *)
Definition clock (k : nat) : str := u "2024-05-31T12:00:00".

Definition feed (n : String.string) : FeedConfig :=
  {| name := u n; url := u "https://www.codeur.com/projects.rss"; color := 3447003%Z |}.

(** Two feeds of three missions each, one mission being in both. *)
Definition two_feeds : list (FeedConfig * list Mission.t) :=
  [(feed "Web", map Examples.mission (seq 0 3));
   (feed "Mobile", map Examples.mission (seq 2 3))].

(** A store that saw mission 1 at the last reading of the clock. *)
Definition store_recent : StateManager.t :=
  mark_mission_seen (clock 0) (Examples.mission 1) StateManager.empty.

(** A [struct_time] and a tuple of the same minute. *)
Definition published : list Z := [2024; 6; 1; 8; 5; 0; 5; 153; 0]%Z.
Definition same_minute : list Z := [2024; 6; 1; 8; 5; 59]%Z.

End Scenarios.
(** ** Properties of the regular expression engine *)

Section EngineFacts.
Import Re.

Lemma search_from_none r b s :
  search_from r b s = None ->
  match_here false r s = None /\
  match s with _ :: s' => search_from r (S b) s' = None | [] => True end.
Proof.
  destruct s as [|c s']; simpl.
  - destruct (match_here false r []) as [[n cs]|]; [discriminate | auto].
  - destruct (match_here false r (c :: s')) as [[n cs]|]; [discriminate | auto].
Qed.

(** A pattern that matches nowhere leaves the text as it is. *)
Lemma sub_no_match r repl s : search r s = None -> sub r repl s = s.
Proof.
  unfold search, sub. generalize 0%nat at 1 as b.
  induction s as [|c s' IH]; intros b Hs.
  - apply search_from_none in Hs as [Hm _]. simpl. now rewrite Hm.
  - apply search_from_none in Hs as [Hm Hs']. cbn [sub_loop].
    rewrite Hm. f_equal. eauto.
Qed.

Lemma rep_greedy_spaces s n :
  rep_greedy isspace s n []
    (fun _ m cs => if false && Nat.eqb m 0 then None else Some (m, cs))
  = Some ((n + Spec.leading_spaces s)%nat, []).
Proof.
  revert n. induction s as [|c s' IH]; intros n; simpl.
  - f_equal. f_equal. lia.
  - destruct (isspace c); simpl.
    + rewrite IH. simpl. f_equal. f_equal. lia.
    + f_equal. f_equal. lia.
Qed.

Lemma match_here_spaces c s :
  match_here false RSSParser.spaces_pattern (c :: s)
  = if isspace c then Some (S (Spec.leading_spaces s), []) else None.
Proof.
  unfold match_here, RSSParser.spaces_pattern. cbn [run rep_min].
  destruct (isspace c); [|reflexivity].
  now rewrite rep_greedy_spaces.
Qed.

Lemma sub_loop_spaces s :
  sub_loop RSSParser.spaces_pattern [32] s 0 = Spec.collapse false s /\
  sub_loop RSSParser.spaces_pattern [32] s (Spec.leading_spaces s)
  = Spec.collapse true s.
Proof.
  induction s as [|c s' [IH0 IH1]].
  - split; reflexivity.
  - cbn [Spec.leading_spaces Spec.collapse].
    destruct (isspace c) eqn:Hc; cbn [sub_loop];
      rewrite match_here_spaces, Hc.
    + rewrite IH1. split; reflexivity.
    + rewrite IH0. split; reflexivity.
Qed.

(** [re.sub(r'\s+', ' ', s)] collapses the runs of whitespace. *)
Lemma sub_spaces_collapse s :
  sub RSSParser.spaces_pattern (u " ") s = Spec.collapse false s.
Proof. apply sub_loop_spaces. Qed.

End EngineFacts.

(** ** The field extractor *)

Section Extractor.
Import Re RSSParser Examples.

(** C2. On the sample input the budget is "Moins de 500 €", but the
    category text stops before the capital letter of "API": the category
    sequence is "Développement spécifique" followed by an empty label. *)
Theorem extract_sample :
  _extract_budget_and_categories sample
  = (u "Moins de 500 €", [u "Développement spécifique"; []]).
Proof. vm_compute. reflexivity. Qed.

(** C3. On the sample input, in which the budget and categories pattern
    matches, the cleaned content still holds the category list: only the
    text up to "Catégories :" and the trailing link line are removed. *)
Theorem main_content_sample_keeps_categories :
  search budget_pattern sample <> None /\
  _extract_main_content sample = u "Développement spécifique, API".
Proof. split; [vm_compute; discriminate | vm_compute; reflexivity]. Qed.

(** C4, as stated, fails on a text that has the link marker and no budget
    pattern: the marker line is removed all the same. *)
Lemma degrades_to_fallback_fails_with_link :
  ~ Spec.degrades_to_fallback with_link_only.
Proof.
  intros Hclaim. destruct Hclaim as [_ Hcontent]; [vm_compute; reflexivity|].
  vm_compute in Hcontent. discriminate.
Qed.

(** C4, amended. When the budget and categories pattern does not match,
    extraction returns the fallback budget and no category; when in
    addition neither the span pattern of [_extract_main_content] nor the
    link marker occurs in the text, the cleaned content is the text with
    its whitespace runs collapsed to single spaces and its ends trimmed. *)
Theorem extract_without_pattern (t : str) :
  search budget_pattern t = None ->
  _extract_budget_and_categories t = (fallback_budget, []) /\
  (search budget_line_pattern t = None ->
   search link_pattern t = None ->
   _extract_main_content t = Spec.collapse_and_trim t).
Proof.
  intros Hno. split.
  - unfold _extract_budget_and_categories. now rewrite Hno.
  - intros Hline Hlink. unfold _extract_main_content, Spec.collapse_and_trim.
    rewrite (sub_no_match _ _ _ Hline), (sub_no_match _ _ _ Hlink).
    now rewrite sub_spaces_collapse.
Qed.

Lemma extract_without_pattern_witness :
  _extract_budget_and_categories plain_text = (fallback_budget, []) /\
  _extract_main_content plain_text = u "Refonte d'un site vitrine".
Proof.
  destruct (extract_without_pattern plain_text) as [Hbudget Hcontent].
  - vm_compute. reflexivity.
  - split; [exact Hbudget|].
    rewrite Hcontent; vm_compute; reflexivity.
Defined.

End Extractor.

(** ** The seen-item store: filtering *)

Section FilterNew.
Import StateManager Spec.

Lemma new_missions_loop self missions acc :
  fold_left
    (fun new_missions mission =>
       if negb (is_mission_seen self (Mission.id mission))
       then new_missions ++ [mission] else new_missions)
    missions acc
  = acc ++ List.filter (unseen self) missions.
Proof.
  revert acc. induction missions as [|m ms IH]; intros acc; simpl.
  - now rewrite app_nil_r.
  - rewrite IH. unfold unseen at 2.
    destruct (negb (is_mission_seen self (Mission.id m))); simpl.
    + now rewrite <- app_assoc.
    + reflexivity.
Qed.

Lemma filter_unseen_twice self missions :
  List.filter (unseen self) (List.filter (unseen self) missions)
  = List.filter (unseen self) missions.
Proof.
  induction missions as [|m ms IH]; simpl; [reflexivity|].
  destruct (unseen self m) eqn:Hm; simpl; [rewrite Hm|]; congruence.
Qed.

(** C5. [get_new_missions] returns exactly the missions of its input
    whose id is not in the seen set, in the order of the input; it leaves
    the store as it was; and applied to its own result it returns that
    result again. *)
Theorem get_new_missions_filters (missions : list Mission.t) (self : StateManager.t) :
  let new_missions := fst (get_new_missions missions self) in
  new_missions
    = List.filter (fun m => bool_decide (Mission.id m ∉ seen_missions self)) missions
  /\ snd (get_new_missions missions self) = self
  /\ fst (get_new_missions new_missions (snd (get_new_missions missions self)))
     = new_missions.
Proof.
  assert (Hsame : forall l,
    List.filter (unseen self) l
    = List.filter (fun m => bool_decide (Mission.id m ∉ seen_missions self)) l).
  { intros l. apply filter_ext. intros m. unfold unseen, is_mission_seen.
    destruct (decide (Mission.id m ∈ seen_missions self)) as [Hin|Hout].
    - rewrite (bool_decide_eq_true_2 _ Hin). simpl.
      symmetry. apply bool_decide_eq_false_2. tauto.
    - rewrite (bool_decide_eq_false_2 _ Hout). simpl.
      symmetry. now apply bool_decide_eq_true_2. }
  cbn [get_new_missions fst snd]. rewrite !new_missions_loop. cbn [app].
  rewrite filter_unseen_twice. rewrite Hsame. auto.
Qed.

End FilterNew.

(** ** Batch delivery *)

Section BatchDelivery.
Import DiscordNotifier.
Context {Embed Webhook : Type}.
Variable create_embed : Mission.t -> Embed.
Variables username avatar_url : option str.
Variable post : Webhook -> payload (Embed := Embed) -> bool * Webhook.

Local Abbreviation payload_of := (_create_webhook_payload username avatar_url).
Local Abbreviation send_batch := (send_batch create_embed username avatar_url post).
Local Abbreviation well_logged := (well_logged create_embed username avatar_url).
Local Abbreviation send_multiple_missions :=
  (send_multiple_missions create_embed username avatar_url post).
Local Abbreviation posts := (posts create_embed username avatar_url post).
Local Abbreviation call := (call (Embed := Embed)).
Local Abbreviation run := (run (Embed := Embed) (Webhook := Webhook)).

Lemma range_from_length fuel start stop :
  (stop - start <= fuel)%nat ->
  length (range_from fuel start stop 10) = ((stop - start + 9) / 10)%nat.
Proof.
  revert start. induction fuel as [|k IH]; intros start Hfuel; cbn [range_from length].
  - replace (stop - start)%nat with 0%nat by lia. reflexivity.
  - destruct (Nat.ltb_spec start stop) as [Hlt|Hge].
    + cbn [length]. rewrite IH by lia.
      destruct (Nat.le_gt_cases 10 (stop - start)) as [Hbig|Hsmall].
      * replace (stop - start + 9)%nat with (stop - (start + 10) + 9 + 1 * 10)%nat by lia.
        rewrite Nat.div_add by lia. lia.
      * replace (stop - (start + 10))%nat with 0%nat by lia.
        change ((0 + 9) / 10)%nat with 0%nat.
        apply (Nat.div_unique _ _ 1 (stop - start - 1))%nat; lia.
    + replace (stop - start)%nat with 0%nat by lia. reflexivity.
Qed.

Lemma range_from_slices {A} (l : list A) fuel start :
  (length l - start <= fuel)%nat ->
  concat (map (fun i => slice l i (i + 10)) (range_from fuel start (length l) 10))
  = skipn start l.
Proof.
  revert start. induction fuel as [|k IH]; intros start Hfuel; simpl.
  - symmetry. apply skipn_all2. lia.
  - destruct (Nat.ltb_spec start (length l)) as [Hlt|Hge].
    + simpl. rewrite IH by lia. unfold slice.
      replace (start + 10 - start)%nat with 10%nat by lia.
      rewrite (Nat.add_comm start 10), <- skipn_skipn.
      apply firstn_skipn.
    + symmetry. apply skipn_all2. lia.
Qed.

Lemma slice_length {A} (l : list A) i :
  length (slice l i (i + 10)) = Nat.min 10 (length l - i).
Proof.
  unfold slice. rewrite length_firstn, length_skipn. lia.
Qed.

Lemma delivered_size_app (cs ds : list call) :
  delivered_size (cs ++ ds) = (delivered_size cs + delivered_size ds)%nat.
Proof. unfold delivered_size. now rewrite map_app, list_sum_app. Qed.

Lemma send_batch_logged missions r i :
  well_logged r ->
  well_logged (send_batch missions r i) /\
  map batch (calls (send_batch missions r i))
  = map batch (calls r) ++ [slice missions i (i + 10)].
Proof.
  intros [Hcount Hembeds].
  unfold DiscordNotifier.well_logged, DiscordNotifier.send_batch.
  destruct (post _ _) as [ok w]. cbn [calls success_count]. repeat split.
  - rewrite delivered_size_app, Hcount.
    destruct ok; unfold delivered_size; cbn [map list_sum fold_right delivered batch]; lia.
  - apply Forall_app. split; [assumption|]. constructor; [reflexivity|constructor].
  - now rewrite map_app.
Qed.

Lemma send_loop_logged missions starts r :
  well_logged r ->
  well_logged (fold_left (send_batch missions) starts r) /\
  map batch (calls (fold_left (send_batch missions) starts r))
  = map batch (calls r) ++ map (fun i => slice missions i (i + 10)) starts.
Proof.
  revert r. induction starts as [|i starts IH]; intros r Hr; simpl.
  - now rewrite app_nil_r.
  - destruct (send_batch_logged missions r i Hr) as [Hr' Hcalls].
    destruct (IH _ Hr') as [Hlog Hmap]. split; [assumption|].
    rewrite Hmap, Hcalls, <- app_assoc. reflexivity.
Qed.

Lemma delivered_size_cons (c : call) (cs : list call) :
  delivered_size (c :: cs)
  = ((if delivered c then length (batch c) else 0) + delivered_size cs)%nat.
Proof. reflexivity. Qed.

(** The loop performs the calls of [posts], in their order: it hands
    each payload to the webhook as the call before left it, records the
    answer, and counts the batch when the answer is a success. *)
Lemma send_loop_posts missions starts r :
  let bs := map (fun i => slice missions i (i + 10)) starts in
  let r' := fold_left (send_batch missions) starts r in
  calls r' = calls r ++ fst (posts (webhook r) bs)
  /\ webhook r' = snd (posts (webhook r) bs)
  /\ success_count r'
     = (success_count r + delivered_size (fst (posts (webhook r) bs)))%nat.
Proof.
  cbn zeta. revert r. induction starts as [|i starts IH]; intros r;
    cbn [fold_left map DiscordNotifier.posts fst snd].
  - rewrite app_nil_r. unfold delivered_size. cbn. split; [reflexivity|].
    split; [reflexivity | lia].
  - destruct (IH (send_batch missions r i)) as (Hcalls & Hweb & Hcount).
    rewrite Hcalls, Hweb, Hcount. unfold DiscordNotifier.send_batch.
    destruct (post (webhook r) _) as [ok w'] eqn:Hpost.
    cbn [calls webhook success_count].
    destruct (posts w' _) as [cs w''] eqn:Hrest. cbn [fst snd].
    rewrite <- app_assoc. cbn [app]. split; [reflexivity|]. split; [reflexivity|].
    rewrite delivered_size_cons. cbn [delivered batch]. destruct ok; lia.
Qed.

(** The early return on an empty list agrees with the loop, which then
    has no start index. *)
Lemma send_multiple_missions_loop missions w :
  send_multiple_missions missions w
  = fold_left (send_batch missions) (py_range 0 (length missions) 10)
      {| success_count := 0%nat; webhook := w; calls := [] |}.
Proof. destruct missions; reflexivity. Qed.


End BatchDelivery.


(** ** Dictionaries *)

(** An element of the empty list closes the goal. *)
Ltac nil_elem :=
  match goal with
  | H : _ ∈ _ |- _ => solve [exfalso; exact (not_elem_of_nil _ H)]
  end.

Section DictFacts.
Context {V : Type}.
Implicit Types (d : list (str * V)) (k : str) (v : V).

Lemma get_none_keys k d : Dict.get k d = None <-> k ∉ Dict.keys d.
Proof.
  induction d as [|[k' v'] d IH]; simpl.
  - split; [intros _; apply not_elem_of_nil | reflexivity].
  - rewrite not_elem_of_cons. case_bool_decide as Hk.
    + split; [discriminate | tauto].
    + rewrite IH. tauto.
Qed.

Lemma keys_get k d : k ∈ Dict.keys d -> exists r, Dict.get k d = Some r.
Proof.
  intros Hin. destruct (Dict.get k d) as [r|] eqn:Hget; [eauto|].
  now apply get_none_keys in Hget.
Qed.

Lemma get_elem k d r : Dict.get k d = Some r -> (k, r) ∈ d.
Proof.
  induction d as [|[k' v'] d IH]; simpl; [discriminate|].
  case_bool_decide as Hk.
  - intros [= ->]. subst. apply list_elem_of_here.
  - intros Hget. apply list_elem_of_further. auto.
Qed.

Lemma get_set_eq k v d : Dict.get k (Dict.set k v d) = Some v.
Proof.
  induction d as [|[k' v'] d IH]; simpl.
  - now rewrite bool_decide_eq_true_2.
  - case_bool_decide as Hk; simpl.
    + now rewrite bool_decide_eq_true_2.
    + now rewrite bool_decide_eq_false_2.
Qed.

Lemma get_set_ne k k' v d : k <> k' -> Dict.get k (Dict.set k' v d) = Dict.get k d.
Proof.
  intros Hne. induction d as [|[k0 v0] d IH]; simpl.
  - now rewrite bool_decide_eq_false_2.
  - case_bool_decide as H0; simpl.
    + subst k0. now rewrite !bool_decide_eq_false_2.
    + now rewrite IH.
Qed.

Lemma keys_set k v d x :
  x ∈ Dict.keys (Dict.set k v d) <-> x = k \/ x ∈ Dict.keys d.
Proof.
  induction d as [|[k0 v0] d IH]; simpl.
  - rewrite list_elem_of_singleton. split; [tauto|].
    intros [?|?]; [assumption | nil_elem].
  - case_bool_decide as H0; simpl; rewrite !elem_of_cons.
    + subst k0. tauto.
    + rewrite IH. tauto.
Qed.

Lemma keys_set_nodup k v d :
  NoDup (Dict.keys d) -> NoDup (Dict.keys (Dict.set k v d)).
Proof.
  induction d as [|[k0 v0] d IH]; simpl; intros Hnd.
  - apply NoDup_singleton.
  - apply NoDup_cons in Hnd as [Hout Hnd].
    case_bool_decide as H0; simpl.
    + subst k0. now apply NoDup_cons.
    + apply NoDup_cons. split; [|auto].
      rewrite keys_set. intros [?|?]; congruence.
Qed.

(** Dropping every key of [ks], as the second loop of the cleanup does. *)
Lemma pop_all_elem (ks : list str) d kv :
  kv ∈ fold_left (fun d k => Dict.pop k d) ks d <-> kv ∈ d /\ fst kv ∉ ks.
Proof.
  revert d. induction ks as [|k ks IH]; intros d; simpl.
  - split; [intros ?; split; [assumption | apply not_elem_of_nil] | tauto].
  - rewrite IH. unfold Dict.pop. rewrite list_elem_of_filter, not_elem_of_cons.
    split; [intros [[? ?] ?] | intros [? [? ?]]]; repeat split; auto.
Qed.

Lemma pop_cons k k0 v0 d :
  Dict.pop k ((k0, v0) :: d)
  = if decide (k <> k0) then (k0, v0) :: Dict.pop k d else Dict.pop k d.
Proof. unfold Dict.pop. now rewrite filter_cons. Qed.

Lemma pop_keys k d x : x ∈ Dict.keys (Dict.pop k d) -> x ∈ Dict.keys d.
Proof.
  induction d as [|[k0 v0] d IH]; [trivial|].
  rewrite pop_cons. case_decide; cbn [Dict.keys map fst]; rewrite ?elem_of_cons.
  - intros [->|Hin]; auto.
  - auto.
Qed.

Lemma pop_keys_nodup k d : NoDup (Dict.keys d) -> NoDup (Dict.keys (Dict.pop k d)).
Proof.
  induction d as [|[k0 v0] d IH]; [trivial|].
  cbn [Dict.keys map fst]. intros Hnd. apply NoDup_cons in Hnd as [Hout Hnd].
  rewrite pop_cons. case_decide; [|auto].
  cbn [Dict.keys map fst]. apply NoDup_cons. split; [|auto].
  intros Hin. apply Hout. eapply pop_keys; eauto.
Qed.

Lemma elem_keys k r d : (k, r) ∈ d -> k ∈ Dict.keys d.
Proof.
  induction d as [|[k0 v0] d IH]; simpl; intros Hin.
  - nil_elem.
  - apply elem_of_cons in Hin as [[= -> ->]|Hin].
    + apply list_elem_of_here.
    + apply list_elem_of_further. auto.
Qed.

Lemma keys_elem k d : k ∈ Dict.keys d -> exists r, (k, r) ∈ d.
Proof.
  intros Hin. apply keys_get in Hin as [r Hr]. exists r. now apply get_elem.
Qed.

(** With unique keys, [get] finds the one entry of its key. *)
Lemma elem_get k r d : NoDup (Dict.keys d) -> (k, r) ∈ d -> Dict.get k d = Some r.
Proof.
  induction d as [|[k0 v0] d IH]; simpl; intros Hnd Hin.
  - nil_elem.
  - apply NoDup_cons in Hnd as [Hout Hnd].
    apply elem_of_cons in Hin as [[= -> ->]|Hin].
    + now rewrite bool_decide_eq_true_2.
    + rewrite bool_decide_eq_false_2; [auto|].
      intros ->. apply Hout. eapply elem_keys; eauto.
Qed.

Lemma of_pairs_keys (l : list (str * V)) :
  NoDup (Dict.keys (Dict.of_pairs l)) /\
  forall x, x ∈ Dict.keys (Dict.of_pairs l) <-> x ∈ map fst l.
Proof.
  unfold Dict.of_pairs.
  assert (Hgen : forall d : list (str * V), NoDup (Dict.keys d) ->
    NoDup (Dict.keys (fold_left (fun d kv => Dict.set (fst kv) (snd kv) d) l d)) /\
    forall x, x ∈ Dict.keys (fold_left (fun d kv => Dict.set (fst kv) (snd kv) d) l d)
              <-> x ∈ Dict.keys d \/ x ∈ map fst l).
  { induction l as [|[k v] l IH]; intros d Hnd; simpl.
    - split; [assumption|]. intros x. split; [tauto|].
      intros [?|?]; [assumption | nil_elem].
    - destruct (IH (Dict.set k v d) (keys_set_nodup k v d Hnd)) as [Hnd' Hkeys].
      split; [assumption|]. intros x. rewrite Hkeys, keys_set, elem_of_cons. tauto. }
  destruct (Hgen [] (NoDup_nil_2)) as [Hnd Hkeys]. split; [assumption|].
  intros x. rewrite Hkeys. split; [|tauto].
  intros [?|?]; [nil_elem | assumption].
Qed.

End DictFacts.

(** ** The seen-item store: retention cleanup *)

Section CleanupFacts.
Import Datetime StateManager Spec.
Context `{IsoFormat}.

(** The first loop, when every timestamp read is a string without
    offset: it ends, and appends the identifiers of the expired records. *)
Lemma old_missions_plain now days items acc :
  forallb (fun kv => plain_timestamp (snd kv)) items = true ->
  exists ids,
    old_missions (cutoff now days) items acc = Ok (acc ++ ids) /\
    forall k, k ∈ ids <->
      exists r, (k, r) ∈ items /\ read_timestamp_expired now days r.
Proof.
  revert acc. induction items as [|[k0 r0] items IH]; intros acc Hfree.
  - exists []. split; [now rewrite app_nil_r|].
    intros k. split.
    + intros Hin. nil_elem.
    + intros (r & Hin & _). nil_elem.
  - cbn [forallb snd] in Hfree. apply andb_true_iff in Hfree as [Hfree0 Hfree].
    cbn [old_missions]. unfold plain_timestamp in Hfree0.
    destruct (seen_at_or_epoch r0) as [| | |s| |] eqn:Hread; try discriminate.
    assert (Hskip : ~ read_timestamp_expired now days r0 ->
      forall acc', (exists ids,
        old_missions (cutoff now days) items acc' = Ok (acc' ++ ids) /\
        forall k, k ∈ ids <->
          exists r, (k, r) ∈ items /\ read_timestamp_expired now days r) ->
      exists ids,
        old_missions (cutoff now days) items acc' = Ok (acc' ++ ids) /\
        forall k, k ∈ ids <->
          exists r, (k, r) ∈ (k0, r0) :: items /\ read_timestamp_expired now days r).
    { intros Hnot acc' (ids & Hrun & Hids). exists ids. split; [assumption|].
      intros k. rewrite Hids. split.
      - intros (r & Hin & Hexp). exists r. split; [now apply list_elem_of_further | assumption].
      - intros (r & Hin & Hexp). apply elem_of_cons in Hin as [[= -> ->]|Hin]; [tauto | eauto]. }
    unfold fromisoformat_value, datetime_fromisoformat.
    destruct (fromisoformat s) as [t|] eqn:Hparse; cbn [mbind result_bind].
    + destruct (utcoffset t) as [off|] eqn:Hoff; [discriminate|].
      assert (Hlt : lt t (cutoff now days) = Ok (instant t <? instant (cutoff now days))%Z).
      { unfold lt. now rewrite Hoff. }
      rewrite Hlt. destruct (instant t <? instant (cutoff now days))%Z eqn:Hcmp.
      * destruct (IH (acc ++ [k0]) Hfree) as (ids & Hrun & Hids).
        exists (k0 :: ids). split.
        { rewrite Hrun. now rewrite <- app_assoc. }
        intros k. rewrite elem_of_cons, Hids. split.
        -- intros [->|(r & Hin & Hexp)].
           ++ exists r0. split; [apply list_elem_of_here|].
              exists s, t. now rewrite Hlt.
           ++ exists r. split; [now apply list_elem_of_further | assumption].
        -- intros (r & Hin & Hexp).
           apply elem_of_cons in Hin as [[= -> ->]|Hin]; [now left | eauto].
      * apply Hskip; [|now apply IH].
        intros (s' & t' & Hs' & Ht' & Hlt'). rewrite Hread in Hs'.
        injection Hs' as <-. rewrite Hparse in Ht'. injection Ht' as <-.
        rewrite Hlt in Hlt'. discriminate.
    + apply Hskip; [|now apply IH].
      intros (s' & t' & Hs' & Ht' & _). rewrite Hread in Hs'. congruence.
Qed.

Lemma discard_all_seen ids self x :
  x ∈ seen_missions (fold_left discard ids self) <->
  x ∈ seen_missions self /\ x ∉ ids.
Proof.
  revert self. induction ids as [|k ids IH]; intros self; cbn [fold_left].
  - split; [intros ?; split; [assumption | apply not_elem_of_nil] | tauto].
  - rewrite IH. cbn [discard seen_missions]. rewrite not_elem_of_cons.
    rewrite elem_of_difference, elem_of_singleton. tauto.
Qed.

Lemma discard_all_data ids self :
  missions_data (fold_left discard ids self)
  = fold_left (fun d k => Dict.pop k d) ids (missions_data self).
Proof.
  revert self. induction ids as [|k ids IH]; intros self; cbn [fold_left];
    [reflexivity | now rewrite IH].
Qed.

Lemma pop_all_nodup {V} (ids : list str) (d : list (str * V)) :
  NoDup (Dict.keys d) ->
  NoDup (Dict.keys (fold_left (fun d k => Dict.pop k d) ids d)).
Proof.
  revert d. induction ids as [|k ids IH]; intros d Hnd; cbn [fold_left];
    [assumption | auto using pop_keys_nodup].
Qed.

(** The cleanup on a store whose timestamps are strings without offset,
    when the cutoff is a date. *)
Lemma cleanup_plain now days self :
  NoDup (Dict.keys (missions_data self)) ->
  plain_timestamps self ->
  cutoff_in_range now days ->
  prunes_exactly (read_timestamp_expired now days) now days self.
Proof.
  intros Hnd Hfree Hrange. unfold prunes_exactly, _cleanup_old_missions.
  destruct (old_missions_plain now days (missions_data self) [] Hfree)
    as (ids & Hrun & Hids).
  rewrite Hrange, Hrun. cbn [app].
  eexists. split; [reflexivity|].
  intros id r Hget.
  assert (Hin : (id, r) ∈ missions_data self) by now apply get_elem.
  assert (Hmarked : id ∈ ids <-> read_timestamp_expired now days r).
  { rewrite Hids. split; [|eauto].
    intros (r' & Hin' & Hexp). apply (elem_get _ _ _ Hnd) in Hin'. congruence. }
  assert (Hnd' : NoDup (Dict.keys (missions_data (fold_left discard ids self)))).
  { rewrite discard_all_data. now apply pop_all_nodup. }
  assert (Hstays : id ∉ ids ->
            Dict.get id (missions_data (fold_left discard ids self)) = Some r).
  { intros Hout. apply (elem_get _ _ _ Hnd').
    rewrite discard_all_data. apply pop_all_elem. now split. }
  assert (Hkept : id ∉ ids -> kept id r self (fold_left discard ids self)).
  { intros Hout. split; [now apply Hstays|]. rewrite discard_all_seen. tauto. }
  split; [|split].
  - unfold removed. rewrite <- Hmarked, discard_all_seen. split.
    + intros [_ Hnone]. destruct (decide (id ∈ ids)) as [|Hout]; [assumption|].
      rewrite (Hstays Hout) in Hnone. discriminate.
    + intros Hmark. split; [tauto|].
      apply get_none_keys. intros Hkey. apply keys_elem in Hkey as [r' Hr'].
      rewrite discard_all_data in Hr'. apply pop_all_elem in Hr' as [_ Hout].
      now apply Hout.
  - intros Hfresh. apply Hkept. now rewrite Hmarked.
  - intros (s & Hs & Hparse). apply Hkept.
    rewrite Hmarked. intros (s' & t & Hs' & Ht & _).
    unfold seen_at_or_epoch in Hs'. rewrite Hs in Hs'. cbn in Hs'. congruence.
Qed.

(** When the cutoff is no date the cleanup raises [OverflowError]
    before it reads the store; otherwise it is the two loops. *)
Lemma cleanup_unfold now days self :
  _cleanup_old_missions now days self
  = match minus_days (naive now) days with
    | Raise e => (Raise e, self)
    | Ok _ =>
        match old_missions (cutoff now days) (missions_data self) [] with
        | Raise e => (Raise e, self)
        | Ok ids => (Ok tt, fold_left discard ids self)
        end
    end.
Proof.
  unfold _cleanup_old_missions, minus_days, cutoff, naive. cbn [instant utcoffset].
  now destruct (_ && _).
Qed.

(** The cleanup either raises and leaves the store, or removes the
    identifiers its first loop collected. *)
Lemma cleanup_outcome now days self :
  (exists e, _cleanup_old_missions now days self = (Raise e, self))
  \/ (exists ids,
        cutoff_in_range now days /\
        old_missions (cutoff now days) (missions_data self) [] = Ok ids /\
        _cleanup_old_missions now days self = (Ok tt, fold_left discard ids self)).
Proof.
  rewrite cleanup_unfold. unfold cutoff_in_range.
  destruct (minus_days (naive now) days) as [c|e] eqn:Hcut; [|eauto].
  assert (Hc : c = cutoff now days).
  { unfold minus_days in Hcut. destruct (_ && _); [|discriminate].
    now injection Hcut as <-. }
  subst c.
  destruct (old_missions _ _ _) as [ids|e]; [right | left]; eauto.
Qed.

End CleanupFacts.

Section PruneClaims.
Import Datetime StateManager Spec Examples.

(** C1, as stated, fails on a record written without a timestamp: the
    record has no observedAt to parse, and the cleanup removes it, reading
    1970-01-01 in its place. *)
Lemma cleanup_drops_record_without_timestamp :
  ~ prunes_exactly (own_timestamp_expired now 30) now 30 store_without_seen_at.
Proof.
  intros (self' & Hrun & Hall).
  assert (Hc : _cleanup_old_missions now 30 store_without_seen_at
               = (Ok tt, StateManager.empty)) by (vm_compute; reflexivity).
  rewrite Hc in Hrun. injection Hrun as <-.
  destruct (Hall (u "a") (record "A" None)) as [[Hthen _] _];
    [vm_compute; reflexivity|].
  destruct Hthen as (s & t & Hs & _).
  - split; [apply not_elem_of_empty | reflexivity].
  - discriminate.
Qed.

(** C1, amended. In a store in which every timestamp that is present is
    a string and none carries a UTC offset, and with a clock at least 30
    days after the first date of the calendar, the cleanup with the
    retention of 30 days removes the identifier and the record of exactly
    the records whose timestamp, the record's own or 1970-01-01 when the
    record has none, parses and is strictly older than now minus 30 days;
    every other record, and so every record whose own timestamp fails to
    parse, is kept unchanged, as is the membership of its identifier. *)
Theorem cleanup_removes_expired `{IsoFormat} (now : Z) (self : StateManager.t) :
  NoDup (Dict.keys (missions_data self)) ->
  plain_timestamps self ->
  cutoff_in_range now 30 ->
  prunes_exactly (read_timestamp_expired now 30) now 30 self.
Proof. apply cleanup_plain. Qed.

Lemma cleanup_removes_expired_witness :
  prunes_exactly (read_timestamp_expired now 30) now 30 store_mixed.
Proof.
  apply cleanup_removes_expired.
  - apply (bool_decide_unpack _). vm_compute. exact I.
  - vm_compute. reflexivity.
  - vm_compute. reflexivity.
Defined.

(** A record without a timestamp is expired for every cutoff after the
    epoch. *)
Lemma undated_record_expired `{IsoFormat} (now days : Z) (r : MissionData) :
  seen_at r = None ->
  (719162 * us_per_day < now - days * us_per_day)%Z ->
  read_timestamp_expired now days r.
Proof.
  intros Hnone Hafter. exists epoch_default, (naive (719162 * us_per_day)).
  split; [|split].
  - unfold seen_at_or_epoch. now rewrite Hnone.
  - apply fromisoformat_epoch.
  - unfold lt, cutoff, naive. cbn [utcoffset instant].
    f_equal. now apply Z.ltb_lt.
Qed.

(** Where the timestamps are strings without offset, a record without
    timestamp and its identifier are removed for every cutoff after the
    epoch. *)
Lemma cleanup_removes_undated `{IsoFormat} (now days : Z) (self : StateManager.t)
    (id : str) (r : MissionData) :
  NoDup (Dict.keys (missions_data self)) ->
  plain_timestamps self ->
  cutoff_in_range now days ->
  Dict.get id (missions_data self) = Some r ->
  seen_at r = None ->
  (719162 * us_per_day < now - days * us_per_day)%Z ->
  removed id (snd (_cleanup_old_missions now days self)).
Proof.
  intros Hnd Hfree Hrange Hget Hnone Hafter.
  destruct (cleanup_plain now days self Hnd Hfree Hrange) as (self' & Hrun & Hall).
  rewrite Hrun. apply (Hall id r Hget). now apply undated_record_expired.
Qed.

(** C10. The store holds a record without a timestamp and a record whose
    timestamp carries a UTC offset; the cutoff is after the epoch.  The
    comparison of the second record raises [TypeError], which the loop
    does not catch: the cleanup stops and the first record stays. *)
Theorem cleanup_stops_on_offset :
  (719162 * us_per_day < now - 30 * us_per_day)%Z /\
  Dict.get (u "a") (missions_data store_with_offset) = Some (record "A" None) /\
  _cleanup_old_missions now 30 store_with_offset = (Raise TypeError, store_with_offset).
Proof. split; [reflexivity|]. split; vm_compute; reflexivity. Qed.

End PruneClaims.

(** ** The seen-item store: the two collections in lockstep *)

Section Lockstep.
Import Datetime StateManager Spec.

Lemma lockstep_empty : lockstep StateManager.empty.
Proof.
  split; [constructor|]. intros id. cbn. split; intros Hin.
  - now apply not_elem_of_empty in Hin.
  - nil_elem.
Qed.

Lemma lockstep_mark now mission self :
  lockstep self -> lockstep (mark_mission_seen now mission self).
Proof.
  intros [Hnd Hsame]. split; cbn [mark_mission_seen missions_data seen_missions].
  - now apply keys_set_nodup.
  - intros id. rewrite keys_set, elem_of_union, elem_of_singleton, Hsame. tauto.
Qed.

Lemma pop_keys_iff {V} k (d : list (str * V)) x :
  x ∈ Dict.keys (Dict.pop k d) <-> x <> k /\ x ∈ Dict.keys d.
Proof.
  induction d as [|[k0 v0] d IH].
  - cbn. split; [intros Hin; nil_elem | tauto].
  - rewrite pop_cons. case_decide as Hk; cbn [Dict.keys map fst] in *;
      rewrite ?elem_of_cons, IH.
    + split; [intros [->|[? ?]]; auto | tauto].
    + subst k0. split; [tauto|].
      intros [? [?|?]]; [congruence | tauto].
Qed.

Lemma lockstep_discard self k : lockstep self -> lockstep (discard self k).
Proof.
  intros [Hnd Hsame]. split; cbn [discard missions_data seen_missions].
  - now apply pop_keys_nodup.
  - intros id. rewrite pop_keys_iff, elem_of_difference, elem_of_singleton, Hsame.
    tauto.
Qed.

Lemma lockstep_discard_all ids self :
  lockstep self -> lockstep (fold_left discard ids self).
Proof.
  revert self. induction ids as [|k ids IH]; intros self Hl; cbn [fold_left];
    [assumption | auto using lockstep_discard].
Qed.

Lemma lockstep_cleanup `{IsoFormat} now days self :
  lockstep self -> lockstep (snd (_cleanup_old_missions now days self)).
Proof.
  intros Hl.
  destruct (cleanup_outcome now days self) as [[e ->]|(ids & _ & _ & ->)]; cbn [snd];
    [assumption | now apply lockstep_discard_all].
Qed.

Lemma set_fresh {V} k (v : V) (d : list (str * V)) :
  k ∉ Dict.keys d -> Dict.set k v d = d ++ [(k, v)].
Proof.
  induction d as [|[k0 v0] d IH]; cbn [Dict.set Dict.keys map fst app]; [reflexivity|].
  rewrite not_elem_of_cons. intros [Hne Hout].
  rewrite bool_decide_eq_false_2 by assumption. now rewrite IH.
Qed.

(** A dictionary comes back from its own members as it was. *)
Lemma of_pairs_id {V} (l : list (str * V)) :
  NoDup (Dict.keys l) -> Dict.of_pairs l = l.
Proof.
  unfold Dict.of_pairs.
  assert (Hgen : forall d : list (str * V), NoDup (Dict.keys (d ++ l)) ->
            fold_left (fun d kv => Dict.set (fst kv) (snd kv) d) l d = d ++ l).
  { induction l as [|[k v] l IH]; intros d Hnd; cbn [fold_left fst snd].
    - now rewrite app_nil_r.
    - assert (Hfresh : k ∉ Dict.keys d).
      { unfold Dict.keys in Hnd. rewrite map_app in Hnd.
        apply NoDup_app in Hnd as (_ & Hdisj & _). intros Hin.
        apply (Hdisj k Hin). apply list_elem_of_here. }
      rewrite (set_fresh _ _ _ Hfresh), IH; rewrite <- app_assoc; [reflexivity|].
      exact Hnd. }
  intros Hnd. now rewrite (Hgen [] Hnd).
Qed.

Lemma lockstep_load fs : lockstep (load_state fs) <-> file_in_lockstep fs.
Proof.
  unfold load_state, file_in_lockstep.
  destruct (data_file fs) as [[seen data lu|]|].
  - destruct (of_pairs_keys (default [] data)) as [Hnd Hkeys]. split.
    + intros [_ Hsame] id. cbn in Hsame.
      now rewrite <- Hkeys, <- Hsame, elem_of_list_to_set.
    + intros Hfile. split; [exact Hnd|]. intros id. cbn.
      now rewrite elem_of_list_to_set, Hkeys.
  - split; [trivial | intros _; apply lockstep_empty].
  - split; [trivial | intros _; apply lockstep_empty].
Qed.

(** A successful save, read back, gives the store as the save left it. *)
Lemma load_saved `{IsoFormat} now now_iso f remove_fails self fs :
  NoDup (Dict.keys (missions_data self)) ->
  fst (fst (save_state now now_iso f remove_fails self fs)) = Ok true ->
  load_state (snd (save_state now now_iso f remove_fails self fs))
  = snd (fst (save_state now now_iso f remove_fails self fs)).
Proof.
  intros Hnd. unfold save_state.
  assert (Hnd' : NoDup (Dict.keys (missions_data
                   (snd (_cleanup_old_missions now 30 self))))).
  { destruct (cleanup_outcome now 30 self) as [[e ->]|(ids & _ & _ & ->)]; cbn [snd].
    - assumption.
    - rewrite discard_all_data. now apply pop_all_nodup. }
  assert (Hhandler : forall (s : StateManager.t) (fs0 : FS),
            fst (fst (match temp_file fs0 with
                      | Some _ => if remove_fails then (Raise OSError, s, fs0)
                                  else (Ok false, s, remove_temp fs0)
                      | None => (Ok false, s, fs0)
                      end)) <> Ok true).
  { intros s fs0. destruct (temp_file fs0); [destruct remove_fails|];
      cbn [fst]; discriminate. }
  destruct (_cleanup_old_missions now 30 self) as [[[]|e] self'];
    [|intros Hok; now apply Hhandler in Hok].
  destruct f; try (intros Hok; now apply Hhandler in Hok). intros _.
  cbn [fst snd]. unfold load_state.
  cbn [rename_temp write_temp data_file temp_file default from_option id].
  cbn [snd] in Hnd'. rewrite (of_pairs_id _ Hnd').
  rewrite list_to_set_elements_L. now destruct self'.
Qed.

End Lockstep.

Section LockstepClaim.
Import Datetime StateManager Spec Examples.

Lemma save_state_store `{IsoFormat} now now_iso f remove_fails self fs :
  snd (fst (save_state now now_iso f remove_fails self fs))
  = snd (_cleanup_old_missions now 30 self).
Proof.
  unfold save_state.
  assert (Hhandler : forall (s : StateManager.t) (fs0 : FS),
            snd (fst (match temp_file fs0 with
                      | Some _ => if remove_fails then (Raise OSError, s, fs0)
                                  else (Ok false, s, remove_temp fs0)
                      | None => (Ok false, s, fs0)
                      end)) = s).
  { intros s fs0. destruct (temp_file fs0); [destruct remove_fails|]; reflexivity. }
  destruct (_cleanup_old_missions now 30 self) as [[[]|e] self']; cbn [snd];
    [|apply Hhandler].
  destruct f; [reflexivity | apply Hhandler..].
Qed.

Lemma lockstep_from_sets self :
  NoDup (Dict.keys (missions_data self)) ->
  seen_missions self = list_to_set (Dict.keys (missions_data self)) ->
  lockstep self.
Proof.
  intros Hnd Hset. split; [assumption|]. intros id.
  now rewrite Hset, elem_of_list_to_set.
Qed.

(** C7, as stated, fails for [load_state]: a state file whose sequence
    names an identifier that its mapping lacks is loaded as it is. *)
Lemma load_state_uneven_file : ~ lockstep (load_state uneven_file).
Proof.
  intros [_ Hsame].
  assert (Hin : u "a" ∈ seen_missions (load_state uneven_file)).
  { change (u "a" ∈ (list_to_set [u "a"] : gset str)).
    apply elem_of_list_to_set, list_elem_of_here. }
  apply Hsame in Hin. exact (not_elem_of_nil _ Hin).
Qed.

(** C7, amended. [mark_mission_seen], the cleanup (whether it completes
    or raises) and [reset_state] keep the seen set and the record mapping
    in lockstep, and a successful save read back gives a store in
    lockstep; [load_state] yields a store in lockstep exactly when there
    is no readable state file or the file lists the same identifiers in
    its sequence and in its mapping. *)
Theorem lockstep_kept `{IsoFormat} (self : StateManager.t) (now_iso : str)
    (mission : Mission.t) (now days : Z) (remove_fails : bool) (f : fault) (fs : FS) :
  (lockstep self ->
     lockstep (mark_mission_seen now_iso mission self) /\
     lockstep (snd (_cleanup_old_missions now days self)) /\
     (forall handler_fails : bool,
      fst (fst (save_state now now_iso f handler_fails self fs)) = Ok true ->
      lockstep (load_state (snd (save_state now now_iso f handler_fails self fs)))))
  /\ lockstep (snd (fst (reset_state remove_fails self fs)))
  /\ (lockstep (load_state fs) <-> file_in_lockstep fs).
Proof.
  split; [|split].
  - intros Hl. split; [now apply lockstep_mark|].
    split; [now apply lockstep_cleanup|].
    intros handler_fails Hok. rewrite load_saved by (assumption || apply Hl).
    rewrite save_state_store. now apply lockstep_cleanup.
  - unfold reset_state. destruct (data_file fs); [destruct remove_fails|];
      apply lockstep_empty.
  - apply lockstep_load.
Qed.

Lemma lockstep_kept_witness :
  lockstep (mark_mission_seen (u "2024-06-01T08:00:00") (mission 7) store_mixed) /\
  lockstep (snd (_cleanup_old_missions now 30 store_mixed)) /\
  lockstep (load_state
              (snd (save_state now (u "2024-06-01T08:00:00") NoFault false
                      store_mixed no_files))).
Proof.
  destruct (lockstep_kept store_mixed (u "2024-06-01T08:00:00") (mission 7)
              now 30 false NoFault no_files) as [Hkeep _].
  destruct Hkeep as (Hmark & Hclean & Hsave).
  - apply lockstep_from_sets.
    + apply (bool_decide_unpack _). vm_compute. exact I.
    + vm_compute. reflexivity.
  - split; [exact Hmark|]. split; [exact Hclean|].
    apply (Hsave false). vm_compute. reflexivity.
Defined.

End LockstepClaim.

(** ** The seen-item store: saving *)

Section Save.
Import Datetime StateManager Spec Examples.

(** What the handler of [save_state] leaves: the data file as it was and
    a journal without an operation on the data file; no temporary file
    and the answer [False] when its removal works or there is none to
    remove; the temporary file and [OSError] when the removal fails. *)
Lemma handler_leaves_data (remove_fails : bool) (self : StateManager.t) fs0 fs :
  data_file fs = data_file fs0 ->
  (exists ops, journal fs = journal fs0 ++ ops /\
               Forall (fun o => alters DataFile o = false) ops) ->
  let out := match temp_file fs with
             | Some _ => if remove_fails then (Raise OSError, self, fs)
                         else (Ok false, self, remove_temp fs)
             | None => (Ok false, self, fs)
             end in
  fst (fst out) <> Ok true
  /\ data_file (snd out) = data_file fs0
  /\ (exists ops, journal (snd out) = journal fs0 ++ ops /\
                  Forall (fun o => alters DataFile o = false) ops)
  /\ (remove_fails = false -> fst (fst out) = Ok false)
  /\ (fst (fst out) = Ok false -> temp_file (snd out) = None)
  /\ (fst (fst out) <> Ok false ->
      fst (fst out) = Raise OSError /\ remove_fails = true /\
      temp_file (snd out) = temp_file fs /\ temp_file fs <> None).
Proof.
  intros Hdata (ops & Hj & Hops). cbn zeta.
  destruct (temp_file fs) as [c|] eqn:Htemp; [destruct remove_fails|];
    cbn [fst snd remove_temp temp_file data_file journal].
  - split; [discriminate|]. split; [assumption|]. split; [eauto|].
    split; [discriminate|]. split; [discriminate|].
    intros _. rewrite Htemp. repeat split. discriminate.
  - split; [discriminate|]. split; [assumption|]. split.
    { exists (ops ++ [Remove TempFile]). rewrite Hj, <- app_assoc.
      split; [reflexivity|]. apply Forall_app. split; [assumption|].
      repeat constructor. }
    split; [reflexivity|]. split; [reflexivity|]. congruence.
  - split; [discriminate|]. split; [assumption|]. split; [eauto|].
    split; [reflexivity|]. split; [intros _; assumption|]. congruence.
Qed.

(** C6. The temporary file is written, the rename over the data file
    fails, and the handler cannot remove the temporary file.  The error of
    the removal leaves [save_state]: it returns neither [True] nor
    [False], and the temporary file stays.  With a removal that works,
    the same failure of the rename gives [False]. *)
Theorem save_state_raises_from_handler :
  fst (fst (save_state now (u "2024-06-01T00:00:00") RenameFails true
              store_mixed old_files))
  = Raise OSError
  /\ temp_file (snd (save_state now (u "2024-06-01T00:00:00") RenameFails true
                       store_mixed old_files))
     <> None
  /\ fst (fst (save_state now (u "2024-06-01T00:00:00") RenameFails false
                 store_mixed old_files))
     = Ok false.
Proof. split; [|split]; vm_compute; [reflexivity | discriminate | reflexivity]. Qed.

End Save.

(** ** Sorting *)

Section StrOrder.

Lemma str_leb_total (a b : str) : str_leb a b = true \/ str_leb b a = true.
Proof.
  revert b. induction a as [|x a IH]; intros [|y b]; cbn; auto.
  destruct (N.ltb_spec x y), (N.ltb_spec y x); auto; lia.
Qed.

Lemma str_leb_trans (a b c : str) :
  str_leb a b = true -> str_leb b c = true -> str_leb a c = true.
Proof.
  revert b c. induction a as [|x a IH]; intros [|y b] [|z c]; cbn; auto;
    try discriminate.
  destruct (N.ltb_spec x y), (N.ltb_spec y x), (N.ltb_spec y z), (N.ltb_spec z y),
    (N.ltb_spec x z), (N.ltb_spec z x);
    try discriminate; try lia; eauto.
Qed.

End StrOrder.

Section SortedFacts.
Import StateManager.
Context {A K : Type} (leb : K -> K -> bool) (key : A -> K).
Hypothesis leb_total : forall x y, leb x y = true \/ leb y x = true.
Hypothesis leb_trans :
  forall x y z, leb x y = true -> leb y z = true -> leb x z = true.

Local Abbreviation insert_sorted := (insert_sorted leb key).
Local Abbreviation sorted := (sorted leb key).

Lemma insert_sorted_elem x l y : y ∈ insert_sorted x l <-> y = x \/ y ∈ l.
Proof.
  induction l as [|z l IH]; cbn [StateManager.insert_sorted].
  - rewrite list_elem_of_singleton. split; [tauto|].
    intros [?|?]; [assumption | nil_elem].
  - destruct (leb (key x) (key z)); rewrite !elem_of_cons; [tauto|].
    rewrite IH. tauto.
Qed.

Lemma sorted_elem l y : y ∈ sorted l <-> y ∈ l.
Proof.
  induction l as [|x l IH]; cbn [StateManager.sorted fold_right]; [tauto|].
  fold (sorted l). rewrite insert_sorted_elem, elem_of_cons, IH. tauto.
Qed.

(** The head of the sorted list is the first of the elements with the
    least key. *)
Lemma sorted_head l :
  l <> [] ->
  exists before m after,
    l = before ++ m :: after /\ hd_error (sorted l) = Some m /\
    Forall (fun r => leb (key r) (key m) = false) before /\
    Forall (fun r => leb (key m) (key r) = true) after.
Proof.
  induction l as [|x l IH]; [congruence|]. intros _.
  cbn [StateManager.sorted fold_right]. fold (sorted l).
  destruct l as [|x' l'].
  - exists [], x, []. cbn. repeat split; constructor.
  - destruct IH as (before & m & after & Hl & Hhd & Hbefore & Hafter); [congruence|].
    destruct (sorted (x' :: l')) as [|s ss] eqn:Hs; [discriminate|].
    cbn in Hhd. injection Hhd as ->.
    cbn [StateManager.insert_sorted].
    destruct (leb (key x) (key m)) eqn:Hxm.
    + exists [], x, (x' :: l'). cbn [app hd_error]. repeat split; [constructor|].
      rewrite Hl. apply Forall_app. split; [|constructor].
      * eapply Forall_impl; [exact Hbefore|]. cbn. intros r Hr.
        eapply leb_trans; [exact Hxm|].
        destruct (leb_total (key m) (key r)); [assumption|congruence].
      * assumption.
      * eapply Forall_impl; [exact Hafter|]. cbn. eauto.
    + exists (x :: before), m, after. cbn [app hd_error]. rewrite Hl.
      repeat split; [|assumption]. constructor; [|assumption].
      destruct (leb_total (key x) (key m)) as [|Hmx]; [congruence|].
      destruct (leb (key x) (key m)) eqn:?; congruence.
Qed.

Lemma insert_sorted_end x l :
  Forall (fun y => leb (key x) (key y) = false) l -> insert_sorted x l = l ++ [x].
Proof.
  induction 1 as [|y l Hy _ IH]; cbn [StateManager.insert_sorted app]; [reflexivity|].
  now rewrite Hy, IH.
Qed.

Lemma insert_sorted_last x l m :
  last l = Some m -> leb (key x) (key m) = true -> last (insert_sorted x l) = Some m.
Proof.
  induction l as [|y l IH]; [discriminate|]. intros Hlast Hxm.
  cbn [StateManager.insert_sorted]. destruct (leb (key x) (key y)) eqn:Hxy.
  - now rewrite last_cons, Hlast.
  - rewrite last_cons. rewrite last_cons in Hlast.
    destruct (last l) as [z|] eqn:Hz.
    + injection Hlast as ->. now rewrite (IH eq_refl Hxm).
    + injection Hlast as ->. congruence.
Qed.

(** The last element of the sorted list is the last of the elements with
    the greatest key. *)
Lemma sorted_last l :
  l <> [] ->
  exists before m after,
    l = before ++ m :: after /\ last (sorted l) = Some m /\
    Forall (fun r => leb (key r) (key m) = true) before /\
    Forall (fun r => leb (key m) (key r) = false) after.
Proof.
  induction l as [|x l IH]; [congruence|]. intros _.
  cbn [StateManager.sorted fold_right]. fold (sorted l).
  destruct l as [|x' l'].
  - exists [], x, []. cbn. repeat split; constructor.
  - destruct IH as (before & m & after & Hl & Hlast & Hbefore & Hafter); [congruence|].
    assert (Hmax : forall r, r ∈ x' :: l' -> leb (key r) (key m) = true).
    { intros r. rewrite Hl, elem_of_app, elem_of_cons.
      rewrite Forall_forall in Hbefore, Hafter.
      intros [Hr|[->|Hr]].
      - now apply Hbefore.
      - destruct (leb_total (key m) (key m)); assumption.
      - destruct (leb_total (key r) (key m)) as [|Hmr]; [assumption|].
        rewrite (Hafter _ Hr) in Hmr. discriminate. }
    destruct (leb (key x) (key m)) eqn:Hxm.
    + exists (x :: before), m, after. rewrite Hl. cbn [app].
      repeat split; [|now constructor|assumption].
      rewrite <- Hl. now apply insert_sorted_last.
    + exists [], x, (x' :: l'). cbn [app]. repeat split; [|constructor|].
      * rewrite insert_sorted_end; [apply last_snoc|].
        apply Forall_forall. intros y Hy. apply (proj1 (sorted_elem _ _)) in Hy.
        destruct (leb (key x) (key y)) eqn:Hxy; [|reflexivity].
        rewrite (leb_trans _ _ _ Hxy (Hmax _ Hy)) in Hxm. discriminate.
      * apply Forall_forall. intros y Hy.
        destruct (leb (key x) (key y)) eqn:Hxy; [|reflexivity].
        rewrite (leb_trans _ _ _ Hxy (Hmax _ Hy)) in Hxm. discriminate.
Qed.

End SortedFacts.

(** ** The seen-item store: statistics *)

Section Statistics.
Import Datetime Json StateManager Spec Examples.
Context `{Interpreter}.

(** A key that is a string is found under its own text only. *)
Lemma get_set_key_string a b v (d : list (json * nat)) :
  get_key (JString a) (set_key (JString b) v d)
  = if bool_decide (a = b) then Some v else get_key (JString a) d.
Proof.
  induction d as [|[k' v'] d IH]; cbn [set_key get_key same_key].
  - now destruct (bool_decide (a = b)).
  - destruct k' as [| | |t| |]; cbn [get_key same_key]; try exact IH.
    destruct (decide (b = t)) as [->|Hbt].
    + rewrite (bool_decide_eq_true_2 (t = t)) by reflexivity.
      cbn [get_key same_key]. now destruct (bool_decide (a = t)).
    + rewrite (bool_decide_eq_false_2 (b = t)) by assumption.
      cbn [get_key same_key]. rewrite IH.
      destruct (decide (a = t)) as [->|Hat].
      * rewrite (bool_decide_eq_true_2 (t = t)) by reflexivity.
        now rewrite (bool_decide_eq_false_2 (t = b)) by congruence.
      * now rewrite (bool_decide_eq_false_2 (a = t)) by assumption.
Qed.

Lemma count_feed_string acc r :
  string_or_absent (feed_name r) = true ->
  exists name, feed_of r = JString name /\
    count_feed acc r
    = Ok (set_key (JString name)
            (default 0%nat (get_key (JString name) acc) + 1)%nat acc).
Proof.
  unfold count_feed, feed_of. destruct (feed_name r) as [[| | |s| |]|];
    cbn [string_or_absent is_string default from_option id hashable];
    try discriminate; eauto.
Qed.

(** The first loop, on records whose feed names are strings. *)
Lemma count_feeds_loop rs (acc : list (json * nat)) :
  forallb (fun r => string_or_absent (feed_name r)) rs = true ->
  exists by_feed,
    count_feeds rs acc = Ok by_feed /\
    forall name,
      get_key (JString name) by_feed
      = match length (List.filter (of_feed name) rs) with
        | O => get_key (JString name) acc
        | S n => Some (default 0%nat (get_key (JString name) acc) + S n)%nat
        end.
Proof.
  revert acc. induction rs as [|r rs IH]; intros acc Hall; cbn [count_feeds].
  - exists acc. auto.
  - cbn [forallb] in Hall. apply andb_true_iff in Hall as [Hr Hall].
    destruct (count_feed_string acc r Hr) as (feed & Hfeed & ->).
    cbn [mbind result_bind].
    destruct (IH (set_key (JString feed)
                    (default 0%nat (get_key (JString feed) acc) + 1)%nat acc) Hall)
      as (by_feed & -> & Hget).
    exists by_feed. split; [reflexivity|]. intros name.
    rewrite Hget, get_set_key_string. cbn [List.filter].
    unfold of_feed at 2. rewrite Hfeed.
    destruct (decide (name = feed)) as [->|Hne].
    + rewrite !(bool_decide_eq_true_2 (feed = feed)) by reflexivity.
      cbn [length default from_option id].
      destruct (length _); f_equal; unfold default; lia.
    + rewrite (bool_decide_eq_false_2 (name = feed)) by assumption.
      now rewrite (bool_decide_eq_false_2 (feed = name)) by congruence.
Qed.

(** The sort, on records whose timestamps are strings. *)
Lemma sorted_by_seen_at_strings rs :
  forallb (fun r => string_or_absent (seen_at r)) rs = true ->
  sorted_by_seen_at rs = Ok (sorted str_leb seen_at_key rs).
Proof.
  intros Hall.
  assert (Hkeys : forallb is_string (map seen_at_or_epoch rs) = true).
  { induction rs as [|r rs IH]; [reflexivity|].
    cbn [forallb map] in *. apply andb_true_iff in Hall as [Hr Hall].
    rewrite (IH Hall), andb_true_r. unfold seen_at_or_epoch.
    now destruct (seen_at r). }
  unfold sorted_by_seen_at. destruct rs as [|r [|r' rs]]; [reflexivity..|].
  now rewrite Hkeys.
Qed.

Lemma string_members_split (d : list (str * MissionData)) :
  forallb (fun kv => string_or_absent (feed_name (snd kv))
                     && string_or_absent (seen_at (snd kv))) d = true ->
  forallb (fun r => string_or_absent (feed_name r)) (Dict.values d) = true
  /\ forallb (fun r => string_or_absent (seen_at r)) (Dict.values d) = true.
Proof.
  induction d as [|[k r] d IH]; [auto|]. cbn [forallb snd].
  intros Hall. apply andb_true_iff in Hall as [Hr Hall].
  apply andb_true_iff in Hr as [Hfeed Hstamp]. destruct (IH Hall) as [Hfeeds Hstamps].
  change (Dict.values ((k, r) :: d)) with (r :: Dict.values d). cbn [forallb].
  now rewrite Hfeed, Hstamp, Hfeeds, Hstamps.
Qed.

(** C8, as stated, fails on a record whose timestamp does not parse: the
    code orders the records by the timestamp strings themselves. *)
Lemma statistics_order_by_string :
  exists stats,
    get_statistics (H := strings_only) store_odd_timestamp = Ok stats /\
    ~ (oldest_mission stats = oldest_by_observed_at store_odd_timestamp /\
       newest_mission stats = newest_by_observed_at store_odd_timestamp).
Proof.
  eexists. split; [vm_compute; reflexivity|].
  vm_compute. intros [Hold _]. discriminate.
Qed.

(** A timestamp that is no string, beside one that is: [sorted] raises
    and no statistics are returned. *)
Lemma statistics_stop_on_null_timestamp :
  get_statistics store_null_timestamp = Raise TypeError.
Proof. reflexivity. Qed.

(** C8, amended. On the empty store the total is 0, the per-feed mapping
    is empty and both titles are absent.  Whenever statistics are
    returned, the total is the size of the seen set.  On every store
    whose feed names and timestamps are strings where they are present,
    statistics are returned; the per-feed mapping gives each feed name
    the number of its records (a record without feed name counting for
    "Unknown"); and when there are records, the oldest title is that of
    the first record, in insertion order, among those whose timestamp
    string is least in the order of the code points, and the newest title
    that of the last record among those whose timestamp string is
    greatest; a record without timestamp takes the string "1970-01-01",
    and a timestamp that does not parse is ordered as the string it is. *)
Theorem get_statistics_summary (self : StateManager.t) :
  get_statistics StateManager.empty
  = Ok {| total_missions_seen := 0; missions_by_feed := [];
          oldest_mission := JNull; newest_mission := JNull |}
  /\ (forall stats, get_statistics self = Ok stats ->
        total_missions_seen stats = size (seen_missions self))
  /\ (string_members self ->
      exists stats,
        get_statistics self = Ok stats
        /\ (forall name,
              get_key (JString name) (missions_by_feed stats)
              = match records_of_feed name self with O => None | n => Some n end)
        /\ (missions_data self <> [] ->
            (exists before oldest after,
                Dict.values (missions_data self) = before ++ oldest :: after /\
                oldest_mission stats = get_title (Some oldest) /\
                Forall (fun r => str_leb (seen_at_key r) (seen_at_key oldest) = false)
                       before /\
                Forall (fun r => str_leb (seen_at_key oldest) (seen_at_key r) = true)
                       after)
            /\
            (exists before newest after,
                Dict.values (missions_data self) = before ++ newest :: after /\
                newest_mission stats = get_title (Some newest) /\
                Forall (fun r => str_leb (seen_at_key r) (seen_at_key newest) = true)
                       before /\
                Forall (fun r => str_leb (seen_at_key newest) (seen_at_key r) = false)
                       after))).
Proof.
  split; [reflexivity|]. split.
  - unfold get_statistics. intros stats.
    destruct (count_feeds _ _) as [by_feed|e]; cbn [mbind result_bind]; [|discriminate].
    destruct (missions_data self) as [|kv d]; [now intros [= <-]|].
    destruct (sorted_by_seen_at _) as [sorted_missions|e]; cbn [mbind result_bind];
      [now intros [= <-] | discriminate].
  - intros Htyped. destruct (string_members_split _ Htyped) as [Hfeeds Hstamps].
    destruct (count_feeds_loop _ [] Hfeeds) as (by_feed & Hcount & Hget).
    pose proof (sorted_by_seen_at_strings _ Hstamps) as Hsort.
    unfold get_statistics. rewrite Hcount. cbn [mbind result_bind].
    assert (Hnames : forall name,
              get_key (JString name) by_feed
              = match records_of_feed name self with O => None | n => Some n end).
    { intros name. rewrite Hget. unfold records_of_feed. now destruct (length _). }
    destruct (missions_data self) as [|kv d] eqn:Hdata.
    + eexists. split; [reflexivity|]. split; [exact Hnames | congruence].
    + rewrite Hsort. cbn [mbind result_bind]. eexists. split; [reflexivity|].
      split; [exact Hnames|]. intros _. cbn [oldest_mission newest_mission].
      assert (Hvalues : Dict.values (kv :: d) <> []) by discriminate.
      split.
      * destruct (sorted_head str_leb seen_at_key str_leb_total str_leb_trans _ Hvalues)
          as (before & m & after & Hl & Hhd & Hbefore & Hafter).
        exists before, m, after. rewrite Hhd. auto.
      * destruct (sorted_last str_leb seen_at_key str_leb_total str_leb_trans _ Hvalues)
          as (before & m & after & Hl & Hlast & Hbefore & Hafter).
        exists before, m, after. rewrite Hlast. auto.
Qed.

End Statistics.

(** On a store whose feed names and timestamps are strings,
    [get_statistics] asks nothing of the interpreter: every interpreter
    gives the same statistics. *)
Section AnyInterpreter.
Import Datetime Json StateManager Spec.
Variables I1 I2 : Interpreter.

Lemma get_key_string_any name (d : list (json * nat)) :
  get_key (H := I1) (JString name) d = get_key (H := I2) (JString name) d.
Proof.
  induction d as [|[k v] d IH]; [reflexivity|]. cbn [get_key].
  destruct k; cbn [same_key]; try exact IH. now rewrite IH.
Qed.

Lemma set_key_string_any name (n : nat) (d : list (json * nat)) :
  set_key (H := I1) (JString name) n d = set_key (H := I2) (JString name) n d.
Proof.
  induction d as [|[k v] d IH]; [reflexivity|]. cbn [set_key].
  destruct k; cbn [same_key]; now rewrite IH.
Qed.

Lemma count_feeds_any rs (acc : list (json * nat)) :
  forallb (fun r => string_or_absent (feed_name r)) rs = true ->
  count_feeds (H := I1) rs acc = count_feeds (H := I2) rs acc.
Proof.
  revert acc. induction rs as [|r rs IH]; intros acc Hall; [reflexivity|].
  cbn [forallb] in Hall. apply andb_true_iff in Hall as [Hr Hall].
  cbn [count_feeds]. unfold count_feed.
  destruct (feed_name r) as [[| | |s| |]|];
    cbn [string_or_absent is_string] in Hr; try discriminate;
    cbn [default from_option id hashable mbind result_bind];
    rewrite get_key_string_any, set_key_string_any; now apply IH.
Qed.

Lemma get_statistics_of_strings (self : StateManager.t) :
  string_members self ->
  get_statistics (H := I1) self = get_statistics (H := I2) self.
Proof.
  intros Htyped. destruct (string_members_split _ Htyped) as [Hfeeds Hstamps].
  unfold get_statistics. rewrite (count_feeds_any _ [] Hfeeds).
  destruct (count_feeds _ _) as [by_feed|e]; cbn [mbind result_bind]; [|reflexivity].
  destruct (missions_data self) as [|kv d]; [reflexivity|].
  now rewrite !(sorted_by_seen_at_strings _ Hstamps).
Qed.

End AnyInterpreter.

Section StatisticsInstance.
Import Datetime Json StateManager Spec Examples.

Lemma get_statistics_summary_witness :
  exists stats,
    get_statistics store_odd_timestamp = Ok stats
    /\ get_key (JString (u "Codeur")) (missions_by_feed stats) = Some 2%nat.
Proof.
  destruct (get_statistics_summary store_odd_timestamp) as (_ & _ & Htyped).
  destruct Htyped as (stats & Hstats & Hnames & _); [vm_compute; reflexivity|].
  exists stats. split; [exact Hstats|]. rewrite Hnames. vm_compute. reflexivity.
Defined.

End StatisticsInstance.

(** * Further properties of the code *)

(** ** The seen-item store: marking *)

Section Marking.
Import Datetime StateManager Spec.

(** X1. After [mark_mission_seen] the mission's identifier is seen and its
    record is the one built from the mission and the clock reading; the
    membership and the record of every other identifier are as before. *)
Theorem mark_mission_seen_lookup (now_iso : str) (mission : Mission.t)
    (self : StateManager.t) (other : str) :
  let self' := mark_mission_seen now_iso mission self in
  is_mission_seen self' other
  = (bool_decide (other = Mission.id mission) || is_mission_seen self other)
  /\ Dict.get other (missions_data self')
     = if bool_decide (other = Mission.id mission)
       then Some (record_of now_iso mission)
       else Dict.get other (missions_data self).
Proof.
  cbn zeta. unfold is_mission_seen, mark_mission_seen. cbn [seen_missions missions_data].
  fold (record_of now_iso mission).
  destruct (decide (other = Mission.id mission)) as [->|Hne].
  - rewrite (bool_decide_eq_true_2 (_ = _)) by reflexivity. cbn [orb]. split.
    + apply bool_decide_eq_true_2.
      rewrite elem_of_union, elem_of_singleton. tauto.
    + apply get_set_eq.
  - rewrite (bool_decide_eq_false_2 (_ = _)) by assumption. cbn [orb]. split.
    + apply bool_decide_ext.
      rewrite elem_of_union, elem_of_singleton. tauto.
    + now apply get_set_ne.
Qed.

Lemma mark_missions_seen_members clock missions self id :
  id ∈ seen_missions (mark_missions_seen clock missions self) <->
  id ∈ seen_missions self \/ id ∈ map Mission.id missions.
Proof.
  revert clock self. induction missions as [|m ms IH]; intros clock self;
    cbn [mark_missions_seen map].
  - split; [tauto | intros [?|?]; [assumption | nil_elem]].
  - rewrite IH, elem_of_cons. cbn [mark_mission_seen seen_missions].
    rewrite elem_of_union, elem_of_singleton. tauto.
Qed.

(** X2. The missions marked by [mark_missions_seen] are no longer new:
    after it, [get_new_missions] returns of any list the missions that
    were new before and are not among the marked ones, and of the marked
    list itself it returns nothing. *)
Theorem marked_missions_not_new (clock : nat -> str)
    (missions others : list Mission.t) (self : StateManager.t) :
  let self' := mark_missions_seen clock missions self in
  fst (get_new_missions others self')
  = List.filter
      (fun m => bool_decide (Mission.id m ∉ map Mission.id missions))
      (fst (get_new_missions others self))
  /\ fst (get_new_missions missions self') = [].
Proof.
  cbn zeta. unfold get_new_missions. cbn [fst]. rewrite !new_missions_loop. cbn [app].
  unfold unseen, is_mission_seen.
  assert (Hothers : forall l,
    List.filter
      (fun m => negb (bool_decide
         (Mission.id m ∈ seen_missions (mark_missions_seen clock missions self)))) l
    = List.filter (fun m => bool_decide (Mission.id m ∉ map Mission.id missions))
        (List.filter
           (fun m => negb (bool_decide (Mission.id m ∈ seen_missions self))) l)).
  { induction l as [|m l IH]; [reflexivity|]. cbn [List.filter].
    destruct (decide (Mission.id m ∈ seen_missions self)) as [Hseen|Hnew].
    - rewrite (bool_decide_eq_true_2 _ Hseen).
      rewrite bool_decide_eq_true_2 by (apply mark_missions_seen_members; tauto).
      exact IH.
    - rewrite (bool_decide_eq_false_2 _ Hnew). cbn [negb List.filter].
      destruct (decide (Mission.id m ∈ map Mission.id missions)) as [Hin|Hout].
      + rewrite bool_decide_eq_true_2 by (apply mark_missions_seen_members; tauto).
        rewrite (bool_decide_eq_false_2 (Mission.id m ∉ _)) by tauto. exact IH.
      + rewrite bool_decide_eq_false_2
          by (rewrite mark_missions_seen_members; tauto).
        rewrite (bool_decide_eq_true_2 (Mission.id m ∉ _)) by assumption.
        cbn [negb]. now rewrite IH. }
  split; [apply Hothers|].
  rewrite Hothers.
  assert (Hnone : forall l : list Mission.t,
    (forall m, m ∈ l -> Mission.id m ∈ map Mission.id missions) ->
    List.filter (fun m => bool_decide (Mission.id m ∉ map Mission.id missions)) l = []).
  { induction l as [|m l IH]; intros Hall; [reflexivity|]. cbn [List.filter].
    rewrite bool_decide_eq_false_2.
    - apply IH. intros m' Hm'. apply Hall. now apply list_elem_of_further.
    - intros Hout. apply Hout, Hall, list_elem_of_here. }
  apply Hnone. intros m Hm. apply list_elem_of_In, filter_In in Hm as [Hm _].
  apply list_elem_of_In, in_map, Hm.
Qed.

(** X3. Marking a mission that is already seen refreshes its record in
    place: the identifiers, the keys and their order stay the same.
    Marking an unseen mission adds one identifier, and its record at the
    end of the mapping.  (The store is in lockstep.) *)
Theorem mark_mission_seen_growth (now_iso : str) (mission : Mission.t)
    (self : StateManager.t) :
  lockstep self ->
  let self' := mark_mission_seen now_iso mission self in
  (is_mission_seen self (Mission.id mission) = true ->
   seen_missions self' = seen_missions self /\
   Dict.keys (missions_data self') = Dict.keys (missions_data self))
  /\
  (is_mission_seen self (Mission.id mission) = false ->
   size (seen_missions self') = S (size (seen_missions self)) /\
   missions_data self'
   = missions_data self ++ [(Mission.id mission, record_of now_iso mission)]).
Proof.
  intros [Hnd Hsame]. cbn zeta. unfold is_mission_seen, mark_mission_seen.
  cbn [seen_missions missions_data]. fold (record_of now_iso mission). split.
  - intros Hseen. apply bool_decide_eq_true_1 in Hseen. split.
    + apply set_eq. intros x. rewrite elem_of_union, elem_of_singleton.
      split; [intros [?| ->]; assumption | tauto].
    + apply Hsame in Hseen. clear -Hseen.
      induction (missions_data self) as [|[k v] d IH]; [nil_elem|].
      cbn [Dict.set Dict.keys map fst] in *. case_bool_decide as Hk.
      * now subst k.
      * cbn [map fst]. f_equal. apply IH.
        apply elem_of_cons in Hseen as [?|?]; [congruence | assumption].
  - intros Hnew. apply bool_decide_eq_false_1 in Hnew. split.
    + rewrite size_union, size_singleton; [lia|].
      intros x Hx Hx'. apply elem_of_singleton in Hx'. now subst x.
    + apply set_fresh. now rewrite <- Hsame.
Qed.

End Marking.

(** ** The seen-item store: saving, loading, resetting *)

Section SaveLoadReset.
Import Datetime StateManager Spec.

(** X4. A store saved with success and loaded back is the store as
    [save_state] left it in memory, which is the store after the cleanup:
    same identifiers, same records, in the same order. *)
Theorem save_then_load `{IsoFormat} (now : Z) (now_iso : str) (f : fault)
    (remove_fails : bool) (self : StateManager.t) (fs : FS) :
  NoDup (Dict.keys (missions_data self)) ->
  fst (fst (save_state now now_iso f remove_fails self fs)) = Ok true ->
  load_state (snd (save_state now now_iso f remove_fails self fs))
  = snd (fst (save_state now now_iso f remove_fails self fs))
  /\ snd (fst (save_state now now_iso f remove_fails self fs))
     = snd (_cleanup_old_missions now 30 self).
Proof.
  intros Hnd Hok. split; [now apply load_saved | apply save_state_store].
Qed.

(** X5. [reset_state] always leaves the store empty, also when it reports
    failure.  It reports failure exactly when the state file exists and
    cannot be removed, and then leaves the files alone.  After a success
    there is no state file, [load_state] gives the empty store, and a
    second [reset_state] succeeds without touching the files. *)
Theorem reset_state_clears (remove_fails : bool) (self : StateManager.t) (fs : FS) :
  let ok := fst (fst (reset_state remove_fails self fs)) in
  let self' := snd (fst (reset_state remove_fails self fs)) in
  let fs' := snd (reset_state remove_fails self fs) in
  self' = StateManager.empty
  /\ (forall mission_id, is_mission_seen self' mission_id = false)
  /\ (ok = false <-> data_file fs <> None /\ remove_fails = true)
  /\ (ok = false -> fs' = fs)
  /\ (ok = true ->
      data_file fs' = None /\ temp_file fs' = temp_file fs /\
      load_state fs' = StateManager.empty /\
      forall again, reset_state again self' fs' = (true, StateManager.empty, fs')).
Proof.
  cbn zeta. unfold reset_state.
  assert (Hempty : forall mission_id,
            is_mission_seen StateManager.empty mission_id = false).
  { intros mission_id. apply bool_decide_eq_false_2, not_elem_of_empty. }
  destruct (data_file fs) as [c|] eqn:Hfile; [destruct remove_fails|]; cbn [fst snd].
  - split; [reflexivity|]. split; [exact Hempty|]. split; [|split].
    + split; [intros _; split; [discriminate | reflexivity] | reflexivity].
    + reflexivity.
    + discriminate.
  - split; [reflexivity|]. split; [exact Hempty|]. split; [|split].
    + split; [discriminate | intros [_ ?]; discriminate].
    + discriminate.
    + intros _. repeat split.
  - split; [reflexivity|]. split; [exact Hempty|]. split; [|split].
    + split; [discriminate | intros [? _]; congruence].
    + discriminate.
    + intros _. split; [assumption|]. split; [reflexivity|]. split.
      * unfold load_state. now rewrite Hfile.
      * intros again. now rewrite Hfile.
Qed.

(** X23. When a step of [save_state] fails (the cleanup raises, or the
    temporary file cannot be opened, written or renamed), [save_state]
    does not return [True], the data file is as it was and no operation
    was performed on it.  It then returns [False] and leaves no temporary
    file, unless the handler fails to remove the temporary file: in that
    case alone the error of the removal leaves [save_state] and the
    temporary file stays.  When no step fails, [save_state] returns
    [True] and the data file is the document of the store, written in
    full to the temporary file and then moved over the data file by one
    rename. *)
Theorem save_state_atomic `{IsoFormat} (now : Z) (now_iso : str) (f : fault)
    (remove_fails : bool) (self : StateManager.t) (fs : FS) :
  let ok := fst (fst (save_state now now_iso f remove_fails self fs)) in
  let self' := snd (fst (save_state now now_iso f remove_fails self fs)) in
  let fs' := snd (save_state now now_iso f remove_fails self fs) in
  let pruned := fst (_cleanup_old_missions now 30 self) in
  (pruned <> Ok tt \/ f <> NoFault ->
   ok <> Ok true
   /\ data_file fs' = data_file fs
   /\ (exists ops, journal fs' = journal fs ++ ops /\
                   Forall (fun o => alters DataFile o = false) ops)
   /\ (remove_fails = false -> ok = Ok false)
   /\ (ok = Ok false -> temp_file fs' = None)
   /\ (ok <> Ok false ->
       ok = Raise OSError /\ remove_fails = true /\ temp_file fs' <> None))
  /\
  (pruned = Ok tt /\ f = NoFault ->
   let document := Document (Some (elements (seen_missions self')))
                            (Some (missions_data self')) (Some now_iso) in
   ok = Ok true /\ temp_file fs' = None /\ data_file fs' = Some document /\
   journal fs' = journal fs ++
                 [Write TempFile document;
                  match data_file fs with
                  | Some _ => Replace TempFile DataFile
                  | None => Rename TempFile DataFile
                  end]).
Proof.
  cbn zeta. unfold save_state.
  assert (Hnone : exists ops, journal fs = journal fs ++ ops /\
                    Forall (fun o => alters DataFile o = false) ops).
  { exists []. now rewrite app_nil_r. }
  assert (Hwrite : forall c, exists ops,
            journal (write_temp c fs) = journal fs ++ ops /\
            Forall (fun o => alters DataFile o = false) ops).
  { intros c. exists [Write TempFile c]. split; [reflexivity | repeat constructor]. }
  assert (Hhandler : forall (s : StateManager.t) (fs1 : FS),
    data_file fs1 = data_file fs ->
    (exists ops, journal fs1 = journal fs ++ ops /\
                 Forall (fun o => alters DataFile o = false) ops) ->
    let out := match temp_file fs1 with
               | Some _ => if remove_fails then (Raise OSError, s, fs1)
                           else (Ok false, s, remove_temp fs1)
               | None => (Ok false, s, fs1)
               end in
    fst (fst out) <> Ok true
    /\ data_file (snd out) = data_file fs
    /\ (exists ops, journal (snd out) = journal fs ++ ops /\
                    Forall (fun o => alters DataFile o = false) ops)
    /\ (remove_fails = false -> fst (fst out) = Ok false)
    /\ (fst (fst out) = Ok false -> temp_file (snd out) = None)
    /\ (fst (fst out) <> Ok false ->
        fst (fst out) = Raise OSError /\ remove_fails = true /\
        temp_file (snd out) <> None)).
  { intros s fs1 Hdata Hops.
    destruct (handler_leaves_data remove_fails s fs fs1 Hdata Hops)
      as (H1 & H2 & H3 & H4 & H5 & H6).
    repeat (split; [assumption|]). intros Hne.
    destruct (H6 Hne) as (Hraise & Hfails & Hsame & Hthere).
    repeat (split; [assumption|]). congruence. }
  destruct (_cleanup_old_missions now 30 self) as [[[]|e] self'] eqn:Hclean;
    cbn [fst snd].
  - destruct f; split;
      try (intros [Hp|Hf]; [now destruct Hp | try now destruct Hf]);
      try (intros [_ Hf]; discriminate).
    + intros _. cbn [fst snd rename_temp write_temp data_file temp_file journal].
      repeat split. now rewrite <- app_assoc.
    + now apply Hhandler.
    + apply (Hhandler self' (write_temp Malformed fs)); [reflexivity | apply Hwrite].
    + apply (Hhandler self' (write_temp _ fs)); [reflexivity | apply Hwrite].
  - split.
    + intros _. now apply Hhandler.
    + intros [Hp _]. discriminate.
Qed.

End SaveLoadReset.

(** ** The seen-item store: what the cleanup does and does not do *)

Section CleanupMore.
Import Datetime Json StateManager Spec.
Context `{IsoFormat}.

(** A timestamp that is no string, or one with an offset, stops the first
    loop with [TypeError]. *)
Lemma old_missions_not_plain now days items acc :
  forallb (fun kv => plain_timestamp (snd kv)) items = false ->
  old_missions (cutoff now days) items acc = Raise TypeError.
Proof.
  revert acc. induction items as [|[k0 r0] items IH]; intros acc Hbad;
    [discriminate|].
  cbn [forallb snd] in Hbad. cbn [old_missions].
  unfold fromisoformat_value, datetime_fromisoformat, plain_timestamp in *.
  destruct (seen_at_or_epoch r0) as [| | |s| |]; try reflexivity.
  destruct (fromisoformat s) as [t|] eqn:Hparse; cbn [mbind result_bind].
  - unfold lt at 1. cbn [cutoff naive utcoffset].
    destruct (utcoffset t) as [off|] eqn:Hoff; [reflexivity|].
    cbn [andb] in Hbad. destruct (instant t <? _)%Z; now apply IH.
  - cbn [andb] in Hbad. now apply IH.
Qed.

Lemma cutoff_out_of_range now days :
  ~ cutoff_in_range now days -> minus_days (naive now) days = Raise OverflowError.
Proof.
  unfold cutoff_in_range, minus_days, cutoff, naive. cbn [instant utcoffset].
  destruct (_ && _); [intros Hno; now destruct Hno | reflexivity].
Qed.

Lemma cleanup_raises_unless_plain now days (self : StateManager.t) :
  ~ plain_timestamps self ->
  exists e, _cleanup_old_missions now days self = (Raise e, self).
Proof.
  unfold plain_timestamps. intros Hbad. apply not_true_is_false in Hbad.
  rewrite cleanup_unfold. destruct (minus_days _ _); [|eauto].
  rewrite (old_missions_not_plain now days _ [] Hbad). eauto.
Qed.

(** X6. The cleanup completes exactly when the cutoff is a date and every
    timestamp of the store that is present is a string without UTC
    offset.  Otherwise it raises and leaves the store as it was, however
    old its records are: [OverflowError] when the cutoff is no date, and
    else [TypeError]. *)
Theorem cleanup_completes_iff_plain (now days : Z) (self : StateManager.t) :
  (fst (_cleanup_old_missions now days self) = Ok tt
   <-> cutoff_in_range now days /\ plain_timestamps self)
  /\ (~ cutoff_in_range now days ->
      _cleanup_old_missions now days self = (Raise OverflowError, self))
  /\ (cutoff_in_range now days -> ~ plain_timestamps self ->
      _cleanup_old_missions now days self = (Raise TypeError, self)).
Proof.
  assert (Hover : ~ cutoff_in_range now days ->
            _cleanup_old_missions now days self = (Raise OverflowError, self)).
  { intros Hno. unfold _cleanup_old_missions.
    now rewrite (cutoff_out_of_range now days Hno). }
  assert (Htype : cutoff_in_range now days -> ~ plain_timestamps self ->
            _cleanup_old_missions now days self = (Raise TypeError, self)).
  { intros Hrange Hbad. unfold plain_timestamps in Hbad.
    apply not_true_is_false in Hbad. unfold _cleanup_old_missions.
    rewrite Hrange. now rewrite (old_missions_not_plain now days _ [] Hbad). }
  split; [|auto]. split.
  - intros Hok.
    assert (Hrange : cutoff_in_range now days).
    { unfold cutoff_in_range.
      destruct (minus_days (naive now) days) as [c|e] eqn:Hcut.
      - unfold minus_days in Hcut. destruct (_ && _); [|discriminate].
        now injection Hcut as <-.
      - unfold _cleanup_old_missions in Hok. rewrite Hcut in Hok. discriminate. }
    split; [assumption|].
    destruct (forallb (fun kv => plain_timestamp (snd kv)) (missions_data self))
      eqn:Hplain; [assumption|].
    rewrite Htype in Hok; [discriminate | assumption |].
    unfold plain_timestamps. congruence.
  - intros [Hrange Hplain]. unfold _cleanup_old_missions. rewrite Hrange.
    destruct (old_missions_plain now days (missions_data self) [] Hplain)
      as (ids & Hrun & _).
    now rewrite Hrun.
Qed.

(** X7. A store in which a timestamp is no string or carries a UTC offset
    cannot be saved: whatever step of the file system fails or works,
    [save_state] keeps the store as it is, leaves the state file as it
    is, and does not return [True].  It returns [False], unless a
    temporary file is there and the handler fails to remove it: then the
    error of the removal leaves [save_state]. *)
Theorem save_state_blocked_by_offset (now : Z) (now_iso : str) (f : fault)
    (remove_fails : bool) (self : StateManager.t) (fs : FS) :
  ~ plain_timestamps self ->
  snd (fst (save_state now now_iso f remove_fails self fs)) = self
  /\ data_file (snd (save_state now now_iso f remove_fails self fs)) = data_file fs
  /\ fst (fst (save_state now now_iso f remove_fails self fs))
     = match temp_file fs with
       | Some _ => if remove_fails then Raise OSError else Ok false
       | None => Ok false
       end.
Proof.
  intros Hbad. unfold save_state.
  destruct (cleanup_raises_unless_plain now 30 self Hbad) as [e ->].
  destruct (temp_file fs); [destruct remove_fails|]; auto.
Qed.

Lemma pop_all_sublist {V} (ids : list str) (d : list (str * V)) :
  sublist (fold_left (fun d k => Dict.pop k d) ids d) d.
Proof.
  revert d. induction ids as [|k ids IH]; intros d; cbn [fold_left]; [reflexivity|].
  etransitivity; [apply IH|]. apply sublist_filter.
Qed.

(** X8. The cleanup only removes: the identifiers it leaves were there
    before, and the records it leaves are records of the store, unchanged
    and in their order.  Run again at the same clock reading, it changes
    nothing more. *)
Theorem cleanup_only_removes (now days : Z) (self : StateManager.t) :
  let self' := snd (_cleanup_old_missions now days self) in
  seen_missions self' ⊆ seen_missions self
  /\ sublist (missions_data self') (missions_data self)
  /\ snd (_cleanup_old_missions now days self') = self'.
Proof.
  cbn zeta.
  destruct (cleanup_outcome now days self) as [[e Hraise]|(ids & Hrange & Hrun & Hdone)].
  - rewrite Hraise. cbn [snd]. split; [reflexivity|]. split; [reflexivity|].
    now rewrite Hraise.
  - rewrite Hdone. cbn [snd]. split; [|split].
    + intros x Hx. now apply discard_all_seen in Hx.
    + rewrite discard_all_data. apply pop_all_sublist.
    + set (self' := fold_left discard ids self).
      destruct (forallb (fun kv => plain_timestamp (snd kv)) (missions_data self))
        eqn:Hfree;
        [|rewrite (old_missions_not_plain now days _ [] Hfree) in Hrun; discriminate].
      destruct (old_missions_plain now days (missions_data self) [] Hfree)
        as (ids0 & Hrun0 & Hids).
      rewrite Hrun in Hrun0. injection Hrun0 as ->.
      assert (Hfree' : forallb (fun kv => plain_timestamp (snd kv)) (missions_data self')
                       = true).
      { apply forallb_forall. intros kv Hkv.
        apply (proj1 (forallb_forall _ _) Hfree).
        apply list_elem_of_In. apply list_elem_of_In in Hkv.
        unfold self' in Hkv. rewrite discard_all_data in Hkv.
        now apply pop_all_elem in Hkv. }
      destruct (old_missions_plain now days (missions_data self') [] Hfree')
        as (ids' & Hrun' & Hids').
      unfold _cleanup_old_missions. rewrite Hrange, Hrun'. cbn [app snd].
      assert (Hnil : ids' = []).
      { destruct ids' as [|k ids']; [reflexivity|]. exfalso.
        destruct (proj1 (Hids' k) (list_elem_of_here _ _)) as (r & Hin & Hexp).
        unfold self' in Hin. rewrite discard_all_data in Hin.
        apply pop_all_elem in Hin as [Hin Hout]. apply Hout. cbn [fst].
        apply Hids. eauto. }
      now rewrite Hnil.
Qed.

End CleanupMore.

(** ** The seen-item store: statistics *)

Section StatisticsMore.
Import Datetime Json StateManager Spec.
Context `{Interpreter}.

Lemma set_key_sum k (n : nat) (d : list (json * nat)) :
  (list_sum (map snd (set_key k n d)) + default 0 (get_key k d)
   = list_sum (map snd d) + n)%nat.
Proof.
  induction d as [|[k' v] d IH]; cbn [get_key set_key].
  - cbn. lia.
  - destruct (same_key k k').
    + cbn. lia.
    + cbn [map snd list_sum fold_right].
      change (fold_right Nat.add 0 (map snd (set_key k n d)))%nat
        with (list_sum (map snd (set_key k n d))).
      change (fold_right Nat.add 0 (map snd d))%nat with (list_sum (map snd d)).
      lia.
Qed.

Lemma set_key_positive k (n : nat) (d : list (json * nat)) :
  (1 <= n)%nat ->
  Forall (fun kv => (1 <= snd kv)%nat) d ->
  Forall (fun kv => (1 <= snd kv)%nat) (set_key k n d).
Proof.
  intros Hn. induction 1 as [|[k' v] d Hv Hd IH]; cbn [set_key].
  - repeat constructor. assumption.
  - destruct (same_key k k'); constructor; assumption.
Qed.

Lemma set_key_keys k (n : nat) (d : list (json * nat)) x :
  x ∈ map fst (set_key k n d) -> x = k \/ x ∈ map fst d.
Proof.
  induction d as [|[k' v] d IH]; cbn [set_key map fst].
  - rewrite list_elem_of_singleton. tauto.
  - destruct (same_key k k'); cbn [map fst]; rewrite !elem_of_cons; [tauto|].
    intros [?|Hin]; [tauto|]. apply IH in Hin. tauto.
Qed.

(** Names that are strings stay apart. *)
Lemma set_key_string_nodup name (n : nat) (d : list (json * nat)) :
  Forall (fun kv => is_string (fst kv) = true) d ->
  NoDup (map fst d) ->
  Forall (fun kv => is_string (fst kv) = true) (set_key (JString name) n d)
  /\ NoDup (map fst (set_key (JString name) n d)).
Proof.
  induction 1 as [|[k' v] d Hk Hd IH]; cbn [set_key map fst]; intros Hnd.
  - split; repeat constructor. apply not_elem_of_nil.
  - apply NoDup_cons in Hnd as [Hout Hnd]. destruct (IH Hnd) as [Hstr Hnd'].
    cbn [fst] in Hk. destruct k' as [| | |t| |]; try discriminate.
    cbn [same_key]. case_bool_decide as Hname.
    + split; constructor; assumption.
    + split; constructor; try assumption.
      intros Hin. apply set_key_keys in Hin as [Heq|Hin]; [|auto].
      injection Heq as Heq. auto.
Qed.

(** The first loop: what it counts, whenever it ends. *)
Lemma count_feeds_sum rs (acc by_feed : list (json * nat)) :
  count_feeds rs acc = Ok by_feed ->
  Forall (fun kv => (1 <= snd kv)%nat) acc ->
  list_sum (map snd by_feed) = (list_sum (map snd acc) + length rs)%nat
  /\ Forall (fun kv => (1 <= snd kv)%nat) by_feed.
Proof.
  revert acc. induction rs as [|r rs IH]; intros acc; cbn [count_feeds length].
  - intros [= <-] Hpos. split; [lia | assumption].
  - unfold count_feed at 1.
    destruct (hashable _); cbn [mbind result_bind]; [|discriminate].
    intros Hrun Hpos.
    set (name := default (JString (u "Unknown")) (feed_name r)) in *.
    destruct (IH _ Hrun) as [Hsum Hpos'].
    { apply set_key_positive; [lia | assumption]. }
    split; [|assumption].
    pose proof (set_key_sum name (default 0 (get_key name acc) + 1)%nat acc).
    lia.
Qed.

Lemma count_feeds_nodup rs (acc by_feed : list (json * nat)) :
  forallb (fun r => string_or_absent (feed_name r)) rs = true ->
  count_feeds rs acc = Ok by_feed ->
  Forall (fun kv => is_string (fst kv) = true) acc -> NoDup (map fst acc) ->
  NoDup (map fst by_feed).
Proof.
  revert acc. induction rs as [|r rs IH]; intros acc Hall; cbn [count_feeds].
  - now intros [= <-].
  - cbn [forallb] in Hall. apply andb_true_iff in Hall as [Hr Hall].
    destruct (count_feed_string acc r Hr) as (name & _ & ->).
    cbn [mbind result_bind]. intros Hrun Hstr Hnd.
    destruct (set_key_string_nodup name
                (default 0 (get_key (JString name) acc) + 1)%nat acc Hstr Hnd).
    now apply (IH _ Hall Hrun).
Qed.

(** X9. On a store whose feed names and timestamps are strings where
    they are present, statistics are returned.  Whenever statistics are
    returned, the counts of the feeds add up to the number of records and
    no feed is listed with a count of zero; and no feed name is listed
    twice when the feed names are strings. *)
Theorem statistics_counts_add_up (self : StateManager.t) :
  (string_members self -> exists stats, get_statistics self = Ok stats)
  /\ forall stats, get_statistics self = Ok stats ->
       list_sum (map snd (missions_by_feed stats)) = length (missions_data self)
       /\ Forall (fun kv => (1 <= snd kv)%nat) (missions_by_feed stats)
       /\ (string_members self -> NoDup (map fst (missions_by_feed stats))).
Proof.
  split.
  - intros Htyped. destruct (string_members_split _ Htyped) as [Hfeeds Hstamps].
    destruct (count_feeds_loop _ [] Hfeeds) as (by_feed & Hcount & _).
    unfold get_statistics. rewrite Hcount. cbn [mbind result_bind].
    destruct (missions_data self) as [|kv d] eqn:Hdata; [eauto|].
    rewrite (sorted_by_seen_at_strings _ Hstamps). cbn [mbind result_bind]. eauto.
  - intros stats Hstats.
    assert (Hfeeds : count_feeds (Dict.values (missions_data self)) []
                     = Ok (missions_by_feed stats)).
    { unfold get_statistics in Hstats.
      destruct (count_feeds _ _) as [by_feed|e]; cbn [mbind result_bind] in Hstats;
        [|discriminate].
      destruct (missions_data self) as [|kv d]; [now injection Hstats as <-|].
      destruct (sorted_by_seen_at _); cbn [mbind result_bind] in Hstats;
        [now injection Hstats as <- | discriminate]. }
    destruct (count_feeds_sum _ _ _ Hfeeds (Forall_nil_2 _)) as [Hsum Hpos].
    split; [|split; [assumption|]].
    + rewrite Hsum. unfold Dict.values. now rewrite List.length_map.
    + intros Htyped. destruct (string_members_split _ Htyped) as [Hnames _].
      apply (count_feeds_nodup _ [] _ Hnames Hfeeds); constructor.
Qed.

End StatisticsMore.

(** ** The regular expression engine finds only what the pattern denotes *)

Section EngineSound.
Import Re Language.
Context {R : Type}.
Implicit Types (k : cont (R := R)) (res : R).

Lemma rep_greedy_sound p s n cs k res :
  rep_greedy p s n cs k = Some res ->
  exists w s', s = w ++ s' /\ Forall (fun c => p c = true) w /\
               k s' (n + length w)%nat cs = Some res.
Proof.
  revert n. induction s as [|c s IH]; intros n; cbn [rep_greedy].
  - intros Hk. exists [], []. rewrite Nat.add_0_r. auto.
  - assert (Hstop : k (c :: s) n cs = Some res ->
              exists w s', c :: s = w ++ s' /\ Forall (fun c => p c = true) w /\
                           k s' (n + length w)%nat cs = Some res).
    { intros Hk. exists [], (c :: s). rewrite Nat.add_0_r. auto. }
    destruct (p c) eqn:Hc; [|exact Hstop].
    unfold or_else. destruct (rep_greedy p s (S n) cs k) as [res'|] eqn:Hrec;
      [|exact Hstop].
    intros [= ->]. destruct (IH _ Hrec) as (w & s' & -> & Hw & Hk).
    exists (c :: w), s'. cbn [app length]. rewrite Nat.add_succ_r. auto.
Qed.

Lemma rep_lazy_sound p s n cs k res :
  rep_lazy p s n cs k = Some res ->
  exists w s', s = w ++ s' /\ Forall (fun c => p c = true) w /\
               k s' (n + length w)%nat cs = Some res.
Proof.
  revert n. induction s as [|c s IH]; intros n; cbn [rep_lazy]; unfold or_else.
  - destruct (k [] n cs) as [res'|] eqn:Hk; [|discriminate].
    intros [= ->]. exists [], []. rewrite Nat.add_0_r. auto.
  - destruct (k (c :: s) n cs) as [res'|] eqn:Hk.
    + intros [= ->]. exists [], (c :: s). rewrite Nat.add_0_r. auto.
    + destruct (p c) eqn:Hc; [|discriminate]. intros Hrec.
      destruct (IH _ Hrec) as (w & s' & -> & Hw & Hk').
      exists (c :: w), s'. cbn [app length]. rewrite Nat.add_succ_r. auto.
Qed.

Lemma rep_min_sound min p rest s n cs k res :
  (forall s n, rest s n cs k = Some res ->
     exists w s', s = w ++ s' /\ Forall (fun c => p c = true) w /\
                  k s' (n + length w)%nat cs = Some res) ->
  rep_min min p rest s n cs k = Some res ->
  exists w s', s = w ++ s' /\ (min <= length w)%nat /\
               Forall (fun c => p c = true) w /\
               k s' (n + length w)%nat cs = Some res.
Proof.
  intros Hrest. revert s n. induction min as [|m IH]; intros s n; cbn [rep_min].
  - intros Hrun. destruct (Hrest _ _ Hrun) as (w & s' & -> & Hw & Hk).
    exists w, s'. repeat split; [lia | assumption..].
  - destruct s as [|c s]; [discriminate|]. destruct (p c) eqn:Hc; [|discriminate].
    intros Hrun. destruct (IH _ _ Hrun) as (w & s' & -> & Hlen & Hw & Hk).
    exists (c :: w), s'. cbn [app length]. rewrite Nat.add_succ_r.
    repeat split; [lia | auto..].
Qed.

(** A successful run reaches its continuation after a word of the
    pattern, with groups that the pattern can capture. *)
Lemma run_sound (P : nat -> str -> Prop) r :
  groups_in P r ->
  forall s n cs k res,
    captured P cs ->
    run r s n cs k = Some res ->
    exists w s' cs',
      s = w ++ s' /\ denotes r w /\ captured P cs' /\
      k s' (n + length w)%nat cs' = Some res.
Proof.
  induction r as [|p|r1 IH1 r2 IH2|r1 IH1 r2 IH2|greedy min p|p|g r1 IH1|ml];
    intros Hgroups s n cs k res Hcs; cbn [run denotes].
  - intros Hk. exists [], s, cs. rewrite Nat.add_0_r. auto.
  - destruct s as [|c s]; [discriminate|]. destruct (p c) eqn:Hc; [|discriminate].
    intros Hk. exists [c], s, cs. cbn [app length]. rewrite Nat.add_1_r. eauto 6.
  - destruct Hgroups as [Hg1 Hg2]. intros Hrun.
    destruct (IH1 Hg1 _ _ _ _ _ Hcs Hrun) as (w1 & s1 & cs1 & -> & Hw1 & Hcs1 & Hrun2).
    destruct (IH2 Hg2 _ _ _ _ _ Hcs1 Hrun2) as (w2 & s2 & cs2 & -> & Hw2 & Hcs2 & Hk).
    exists (w1 ++ w2), s2, cs2. rewrite <- app_assoc, length_app, Nat.add_assoc.
    eauto 10.
  - destruct Hgroups as [Hg1 Hg2]. unfold or_else.
    destruct (run r1 s n cs k) as [res'|] eqn:Hrun1.
    + intros [= ->].
      destruct (IH1 Hg1 _ _ _ _ _ Hcs Hrun1) as (w & s' & cs' & -> & Hw & Hcs' & Hk).
      exists w, s', cs'. auto.
    + intros Hrun2.
      destruct (IH2 Hg2 _ _ _ _ _ Hcs Hrun2) as (w & s' & cs' & -> & Hw & Hcs' & Hk).
      exists w, s', cs'. auto.
  - intros Hrun. apply rep_min_sound in Hrun.
    + destruct Hrun as (w & s' & -> & Hlen & Hw & Hk). exists w, s', cs. auto.
    + intros s0 n0. destruct greedy; [apply rep_greedy_sound | apply rep_lazy_sound].
  - assert (Hskip : k s n cs = Some res ->
      exists w s' cs', s = w ++ s' /\ (w = [] \/ exists c, w = [c] /\ p c = true) /\
                       captured P cs' /\ k s' (n + length w)%nat cs' = Some res).
    { intros Hk. exists [], s, cs. rewrite Nat.add_0_r. auto. }
    destruct s as [|c s]; [exact Hskip|]. destruct (p c) eqn:Hc; [|exact Hskip].
    unfold or_else. destruct (k s (S n) cs) as [res'|] eqn:Hk; [|exact Hskip].
    intros [= ->]. exists [c], s, cs. cbn [app length]. rewrite Nat.add_1_r. eauto 8.
  - destruct Hgroups as [Hg Hg1]. intros Hrun.
    destruct (IH1 Hg1 _ _ _ _ _ Hcs Hrun) as (w & s' & cs' & -> & Hw & Hcs' & Hk).
    exists w, s', ((g, w) :: cs'). repeat split; [assumption| |].
    + constructor; [apply Hg, Hw | assumption].
    + replace (n + length w - n)%nat with (length w) in Hk by lia.
      now rewrite firstn_app, Nat.sub_diag, firstn_all, firstn_O, app_nil_r in Hk.
  - destruct (at_eol ml s); [|discriminate].
    intros Hk. exists [], s, cs. rewrite Nat.add_0_r. auto.
Qed.

End EngineSound.

Section SearchSound.
Import Re Language.

Lemma match_here_sound (P : nat -> str -> Prop) r b s n cs :
  groups_in P r ->
  match_here b r s = Some (n, cs) ->
  exists w s', s = w ++ s' /\ denotes r w /\ n = length w /\ captured P cs.
Proof.
  intros Hg Hrun. unfold match_here in Hrun.
  destruct (run_sound P r Hg _ _ _ _ _ (Forall_nil_2 _) Hrun)
    as (w & s' & cs' & -> & Hw & Hcs & Hk).
  destruct (b && _); [discriminate|]. injection Hk as <- <-.
  exists w, s'. auto.
Qed.

Lemma search_sound (P : nat -> str -> Prop) r s b n cs :
  groups_in P r ->
  search r s = Some (b, n, cs) ->
  exists pre w post,
    s = pre ++ w ++ post /\ denotes r w /\ captured P cs.
Proof.
  intros Hg. unfold search. generalize 0%nat as b0. revert b n cs.
  induction s as [|c s IH]; intros b n cs b0; cbn [search_from].
  - destruct (match_here false r []) as [[n' cs']|] eqn:Hm; [|discriminate].
    intros [= <- <- <-].
    destruct (match_here_sound P _ _ _ _ _ Hg Hm) as (w & s' & Hs & Hw & _ & Hcs).
    exists [], w, s'. auto.
  - destruct (match_here false r (c :: s)) as [[n' cs']|] eqn:Hm.
    + intros [= <- <- <-].
      destruct (match_here_sound P _ _ _ _ _ Hg Hm) as (w & s' & Hs & Hw & _ & Hcs).
      exists [], w, s'. auto.
    + intros Hrec. destruct (IH _ _ _ _ Hrec) as (pre & w & post & -> & Hw & Hcs).
      exists (c :: pre), w, post. auto.
Qed.

Lemma denotes_lit x w : denotes (lit x) w <-> w = x.
Proof.
  revert w. induction x as [|c x IH]; intros w; cbn [lit denotes]; [tauto|].
  split.
  - intros (w1 & w2 & -> & (c' & -> & Hc) & Hw2). apply IH in Hw2 as ->.
    unfold only in Hc. apply N.eqb_eq in Hc as ->. reflexivity.
  - intros ->. exists [c], x. repeat split.
    + exists c. split; [reflexivity | apply N.eqb_refl].
    + now apply IH.
Qed.

End SearchSound.

(** ** Text helpers *)

Section TextFacts.
Import Language.

Lemma lstrip_split s :
  exists a, s = a ++ lstrip s /\ Forall (fun c => isspace c = true) a.
Proof.
  induction s as [|c s (a & Hs & Ha)]; cbn [lstrip].
  - exists []. auto.
  - destruct (isspace c) eqn:Hc.
    + exists (c :: a). cbn [app]. split; [congruence | now constructor].
    + exists []. auto.
Qed.

Lemma lstrip_head s :
  match lstrip s with c :: _ => isspace c = false | [] => True end.
Proof.
  induction s as [|c s IH]; cbn [lstrip]; [trivial|].
  destruct (isspace c) eqn:Hc; [exact IH | exact Hc].
Qed.

Lemma rstrip_split s :
  exists b, s = rstrip s ++ b /\ Forall (fun c => isspace c = true) b.
Proof.
  unfold rstrip. destruct (lstrip_split (rev s)) as (a & Hs & Ha).
  exists (rev a). split.
  - rewrite <- rev_app_distr, <- Hs. now rewrite rev_involutive.
  - apply Forall_forall. intros c Hc. rewrite Forall_forall in Ha.
    apply Ha. now apply list_elem_of_In, in_rev, list_elem_of_In.
Qed.

Lemma last_rev (l : str) : last (rev l) = hd_error l.
Proof. destruct l as [|a l]; [reflexivity|]. cbn [rev]. apply last_snoc. Qed.

Lemma rstrip_last s :
  match last (rstrip s) with Some c => isspace c = false | None => True end.
Proof.
  unfold rstrip. rewrite last_rev. pose proof (lstrip_head (rev s)) as Hhead.
  now destruct (lstrip (rev s)).
Qed.

(** [s.strip()] is a stretch of [s] between two runs of whitespace. *)
Lemma strip_split s :
  exists a b, s = a ++ strip s ++ b /\
              Forall (fun c => isspace c = true) a /\
              Forall (fun c => isspace c = true) b.
Proof.
  unfold strip. destruct (lstrip_split s) as (a & Hs & Ha).
  destruct (rstrip_split (lstrip s)) as (b & Hl & Hb).
  exists a, b. split; [|auto]. now rewrite <- Hl.
Qed.

Lemma strip_trimmed s : trimmed (strip s).
Proof.
  unfold trimmed, strip. split; [|apply rstrip_last].
  destruct (rstrip_split (lstrip s)) as (b & Hl & _).
  pose proof (lstrip_head s) as Hhead. rewrite Hl in Hhead.
  now destruct (rstrip (lstrip s)).
Qed.

Lemma strip_Forall (P : char -> Prop) s : Forall P s -> Forall P (strip s).
Proof.
  destruct (strip_split s) as (a & b & Hs & _). intros Hall. rewrite Hs in Hall.
  apply Forall_app in Hall as [_ Hall]. now apply Forall_app in Hall as [Hall _].
Qed.

(** The pieces of [s.split(sep)] are free of the separator and made of
    characters of [s]; there is at least one piece. *)
Lemma split_pieces (P : char -> Prop) sep s :
  Forall P s ->
  split sep s <> [] /\
  Forall (fun piece => Forall (fun c => c <> sep /\ P c) piece) (split sep s).
Proof.
  induction 1 as [|c s Hc Hs [Hne IH]]; cbn [split].
  - split; [discriminate | repeat constructor].
  - destruct (N.eqb_spec c sep) as [->|Hsep].
    + split; [discriminate|]. constructor; [constructor | assumption].
    + destruct (split sep s) as [|piece pieces]; [congruence|].
      split; [discriminate|]. apply Forall_cons in IH as [Hpiece Hpieces].
      constructor; [|assumption]. constructor; [split|]; assumption.
Qed.

Lemma visible_app a b : visible (a ++ b) = visible a ++ visible b.
Proof. unfold visible. apply List.filter_app. Qed.

Lemma visible_spaces a : Forall (fun c => isspace c = true) a -> visible a = [].
Proof.
  induction 1 as [|c a Hc _ IH]; [reflexivity|].
  unfold visible in *. cbn [List.filter]. now rewrite Hc.
Qed.

Lemma visible_strip s : visible (strip s) = visible s.
Proof.
  destruct (strip_split s) as (a & b & Hs & Ha & Hb). rewrite Hs at 2.
  rewrite !visible_app, (visible_spaces a Ha), (visible_spaces b Hb).
  now rewrite app_nil_r.
Qed.

Lemma visible_collapse b s : visible (Spec.collapse b s) = visible s.
Proof.
  revert b. induction s as [|c s IH]; intros b; [reflexivity|].
  cbn [Spec.collapse]. unfold visible in *. cbn [List.filter].
  destruct (isspace c) eqn:Hc; cbn [negb].
  - destruct b; [apply IH|]. cbn [List.filter].
    change (isspace 32) with true. cbn [negb]. apply IH.
  - cbn [List.filter]. rewrite Hc. cbn [negb]. f_equal. apply IH.
Qed.

Lemma visible_sublist a b : sublist a b -> sublist (visible a) (visible b).
Proof.
  induction 1 as [|c a b _ IH|c a b _ IH]; unfold visible in *; cbn [List.filter].
  - constructor.
  - destruct (negb (isspace c)); [now constructor | assumption].
  - destruct (negb (isspace c)); [now constructor | assumption].
Qed.

Lemma collapse_single_spaces b s :
  single_spaces (Spec.collapse b s) /\
  (b = true ->
   match Spec.collapse b s with c :: _ => isspace c = false | [] => True end).
Proof.
  revert b. induction s as [|c s IH]; intros b; cbn [Spec.collapse].
  - split; [exact I | trivial].
  - destruct (isspace c) eqn:Hc.
    + destruct (IH true) as [Hs Hhead]. destruct b; [auto|].
      split; [|discriminate]. cbn [single_spaces]. split; [|assumption].
      intros _. split; [reflexivity | now apply Hhead].
    + destruct (IH false) as [Hs _]. split; [|intros _; exact Hc].
      cbn [single_spaces]. split; [|assumption]. congruence.
Qed.

Lemma single_spaces_suffix a t : single_spaces (a ++ t) -> single_spaces t.
Proof. induction a as [|c a IH]; cbn [app single_spaces]; [trivial | tauto]. Qed.

Lemma single_spaces_prefix p t : single_spaces (p ++ t) -> single_spaces p.
Proof.
  induction p as [|c p IH]; cbn [app single_spaces]; [trivial|].
  intros [Hc Hrest]. split; [|auto].
  intros Hspace. destruct (Hc Hspace) as [-> Hnext]. split; [reflexivity|].
  now destruct p.
Qed.

Lemma strip_single_spaces s : single_spaces s -> single_spaces (strip s).
Proof.
  destruct (strip_split s) as (a & b & Hs & _). intros Hall. rewrite Hs in Hall.
  eapply single_spaces_prefix, single_spaces_suffix, Hall.
Qed.

End TextFacts.

(** ** The field extractor: what it returns on every description *)

Section ExtractorMore.
Import Re RSSParser Language.

Lemma budget_pattern_groups : groups_in budget_groups budget_pattern.
Proof.
  unfold budget_pattern, ws_star. cbn [cat groups_in denotes budget_groups].
  assert (Hlit : forall x, groups_in budget_groups (lit x)).
  { induction x; cbn [lit groups_in]; auto. }
  repeat split; try apply Hlit.
  - intros w [_ Hw]. eapply Forall_impl; [exact Hw|]. cbn.
    intros c Hc ->. discriminate.
  - intros w [_ Hw]. eapply Forall_impl; [exact Hw|]. cbn.
    intros c Hc ->. discriminate.
Qed.

Lemma captured_group P cs g w :
  captured P cs -> group g cs = Some w -> P g w.
Proof.
  induction 1 as [|[g' w'] cs Hhead _ IH]; cbn [group]; [discriminate|].
  destruct (Nat.eqb_spec g' g) as [<-|_]; [|exact IH].
  intros [= <-]. exact Hhead.
Qed.

(** X10. On every description the budget returned has no hyphen and
    neither begins nor ends with whitespace; every category returned has
    no comma, no line feed, and neither begins nor ends with whitespace;
    and the category list is empty exactly when the pattern is not found,
    in which case the budget is the fallback. *)
Theorem extract_result_shape (description : str) :
  let budget := fst (_extract_budget_and_categories description) in
  let categories := snd (_extract_budget_and_categories description) in
  Forall (fun c => c <> 45) budget /\ trimmed budget
  /\ Forall (fun category =>
               Forall (fun c => c <> 44 /\ c <> 10) category /\ trimmed category)
            categories
  /\ (categories = [] <-> search budget_pattern description = None)
  /\ (categories = [] -> budget = fallback_budget).
Proof.
  cbn zeta. unfold _extract_budget_and_categories.
  destruct (search budget_pattern description) as [[[b n] cs]|] eqn:Hsearch;
    cbn [fst snd].
  - destruct (search_sound budget_groups _ _ _ _ _ budget_pattern_groups Hsearch)
      as (pre & w & post & _ & _ & Hcs).
    assert (H1 : Forall (fun c => c <> 45) (default [] (group 1 cs))).
    { destruct (group 1 cs) as [g1|] eqn:Hg1; [|constructor].
      exact (captured_group _ _ _ _ Hcs Hg1). }
    assert (H2 : Forall (fun c => c <> 10) (default [] (group 2 cs))).
    { destruct (group 2 cs) as [g2|] eqn:Hg2; [|constructor].
      exact (captured_group _ _ _ _ Hcs Hg2). }
    destruct (split_pieces _ 44 _ (strip_Forall _ _ H2)) as [Hne Hpieces].
    split; [now apply strip_Forall|]. split; [apply strip_trimmed|].
    split; [|split].
    + apply Forall_forall. intros category Hin.
      apply list_elem_of_In, in_map_iff in Hin as (piece & <- & Hin).
      split; [|apply strip_trimmed]. apply strip_Forall.
      rewrite Forall_forall in Hpieces. apply Hpieces. now apply list_elem_of_In.
    + split; [|discriminate]. intros Hnil. apply map_eq_nil in Hnil. congruence.
    + intros Hnil. apply map_eq_nil in Hnil. congruence.
  - split.
    { apply (bool_decide_unpack _). vm_compute. exact I. }
    split.
    { unfold trimmed. vm_compute. auto. }
    split; [constructor|]. split; [tauto | reflexivity].
Qed.

(** X11. A budget is found only in a description that has the word
    "Budget", later a colon and a hyphen, and after them the word
    "Catégories": when the category list returned is not empty, the
    description has that shape. *)
Theorem extract_match_is_real (description : str) :
  snd (_extract_budget_and_categories description) <> [] ->
  exists pre mid post,
    description = pre ++ u "Budget" ++ mid ++ u "Catégories" ++ post
    /\ 58 ∈ mid /\ 45 ∈ mid.
Proof.
  unfold _extract_budget_and_categories.
  destruct (search budget_pattern description) as [[[b n] cs]|] eqn:Hsearch;
    cbn [snd]; [|congruence].
  intros _.
  destruct (search_sound budget_groups _ _ _ _ _ budget_pattern_groups Hsearch)
    as (pre & w & post & -> & Hw & _).
  unfold budget_pattern in Hw. cbn [cat denotes] in Hw.
  destruct Hw as (w1 & r1 & -> & Hw1 & w2 & r2 & -> & _ & w3 & r3 & -> & Hw3
                  & w4 & r4 & -> & _ & w5 & r5 & -> & _ & w6 & r6 & -> & _
                  & w7 & r7 & -> & Hw7 & w8 & r8 & -> & _ & w9 & r9 & -> & Hw9
                  & _).
  apply denotes_lit in Hw1 as ->. apply denotes_lit in Hw3 as ->.
  apply denotes_lit in Hw7 as ->. apply denotes_lit in Hw9 as ->.
  exists pre, (w2 ++ u ":" ++ w4 ++ w5 ++ w6 ++ u "-" ++ w8), (r9 ++ post).
  split; [|split].
  - rewrite <- !app_assoc. reflexivity.
  - apply elem_of_app. right. apply list_elem_of_here.
  - rewrite !elem_of_app. do 5 right. left. apply list_elem_of_here.
Qed.

Lemma sub_loop_removes r s skip : sublist (sub_loop r [] s skip) s.
Proof.
  revert skip. induction s as [|c s IH]; intros skip; cbn [sub_loop].
  - destruct skip; [|constructor].
    destruct (match_here false r []); constructor.
  - destruct skip as [|k]; [|now constructor].
    destruct (match_here false r (c :: s)) as [[[|n] cs]|]; cbn [app].
    + destruct (match_here true r (c :: s)) as [[[|n] cs']|]; cbn [app];
        now constructor.
    + now constructor.
    + now constructor.
Qed.

(** X12. The cleaned content is normalised on every description: it
    neither begins nor ends with whitespace, and each whitespace character
    in it is a single U+0020 followed by a character that is not
    whitespace. *)
Theorem main_content_normalised (description : str) :
  trimmed (_extract_main_content description)
  /\ single_spaces (_extract_main_content description).
Proof.
  unfold _extract_main_content. rewrite sub_spaces_collapse. split.
  - apply strip_trimmed.
  - apply strip_single_spaces, collapse_single_spaces.
Qed.

(** X13. The cleaned content adds no text: its characters other than
    whitespace are characters of the description, in the order of the
    description. *)
Theorem main_content_adds_nothing (description : str) :
  sublist (visible (_extract_main_content description)) (visible description).
Proof.
  unfold _extract_main_content.
  rewrite sub_spaces_collapse, visible_strip, visible_collapse.
  apply visible_sublist. unfold sub.
  etransitivity; apply sub_loop_removes.
Qed.

End ExtractorMore.

(** ** One pass over the feeds *)

Section Pass.
Import Datetime StateManager Spec MissionBot.

Lemma get_new_missions_filter missions self :
  fst (get_new_missions missions self) = List.filter (unseen self) missions.
Proof. unfold get_new_missions. cbn [fst]. now rewrite new_missions_loop. Qed.

Lemma up_to_sublist {A} (l : list A) n : sublist (up_to l n) l.
Proof. unfold up_to. destruct (n <? 0)%Z; apply sublist_take. Qed.

Lemma up_to_length {A} (l : list A) n :
  (0 <= n)%Z -> (length (up_to l n) <= Z.to_nat n)%nat.
Proof.
  intros Hn. unfold up_to. rewrite (proj2 (Z.ltb_ge n 0)) by assumption.
  rewrite length_take. lia.
Qed.

Lemma up_to_all {A} (l : list A) n :
  (Z.of_nat (length l) <= n)%Z -> up_to l n = l.
Proof.
  intros Hn. unfold up_to. rewrite (proj2 (Z.ltb_ge n 0)) by lia.
  apply firstn_all2. lia.
Qed.

Lemma filter_unseen_elem self missions m :
  m ∈ List.filter (unseen self) missions <->
  m ∈ missions /\ Mission.id m ∉ seen_missions self.
Proof.
  rewrite !list_elem_of_In, filter_In, <- list_elem_of_In.
  unfold unseen, is_mission_seen. rewrite negb_true_iff, bool_decide_eq_false.
  reflexivity.
Qed.

(** What one feed adds: missions of the feed that were not seen, each
    marked. *)
Lemma process_feed_step max_items clock p feed :
  exists added,
    all_new_missions (process_feed max_items clock p feed)
    = all_new_missions p ++ added
    /\ sublist added (List.filter (unseen (state_manager p)) (snd feed))
    /\ state_manager (process_feed max_items clock p feed)
       = mark_missions_seen (fun k => clock (clock_reads p + k)%nat) added
           (state_manager p)
    /\ clock_reads (process_feed max_items clock p feed)
       = (clock_reads p + length added)%nat.
Proof.
  destruct feed as [feed_config missions]. unfold process_feed.
  rewrite get_new_missions_filter. cbn [snd].
  destruct (List.filter (unseen (state_manager p)) missions) as [|m ms] eqn:Hnew.
  - exists []. cbn [all_new_missions state_manager clock_reads mark_missions_seen length].
    rewrite app_nil_r, Nat.add_0_r. auto.
  - destruct max_items as [n|].
    + exists (up_to (m :: ms) n).
      cbn [all_new_missions state_manager clock_reads].
      split; [reflexivity|]. split; [apply up_to_sublist | auto].
    + exists []. cbn [mark_missions_seen length].
      rewrite app_nil_r, Nat.add_0_r. split; [reflexivity|].
      split; [apply sublist_nil_l | auto].
Qed.

Lemma process_feed_seen max_items clock p feed id :
  id ∈ seen_missions (state_manager p) ->
  id ∈ seen_missions (state_manager (process_feed max_items clock p feed)).
Proof.
  destruct (process_feed_step max_items clock p feed) as (added & _ & _ & -> & _).
  rewrite mark_missions_seen_members. tauto.
Qed.

(** The invariant of the loop, from any point of it. *)
Lemma check_feeds_invariant max_items clock feeds p :
  let p' := fold_left (process_feed max_items clock) feeds p in
  exists added,
    all_new_missions p' = all_new_missions p ++ added
    /\ (forall id, id ∈ seen_missions (state_manager p') <->
                   id ∈ seen_missions (state_manager p)
                   \/ id ∈ map Mission.id added)
    /\ Forall (fun m => Mission.id m ∉ seen_missions (state_manager p)) added
    /\ (forall m, m ∈ added -> exists feed, feed ∈ feeds /\ m ∈ snd feed)
    /\ clock_reads p' = (clock_reads p + length added)%nat.
Proof.
  cbn zeta. revert p. induction feeds as [|feed feeds IH]; intros p; cbn [fold_left].
  - exists []. rewrite app_nil_r, Nat.add_0_r. cbn [map length].
    split; [reflexivity|]. split.
    { intros id. split; [tauto | intros [?|?]; [assumption | nil_elem]]. }
    split; [constructor|]. split; [|reflexivity]. intros m Hm. nil_elem.
  - destruct (process_feed_step max_items clock p feed)
      as (first & Hall & Hsub & Hstate & Hreads).
    destruct (IH (process_feed max_items clock p feed))
      as (rest & Hall' & Hseen' & Hnew' & Hfrom' & Hreads').
    assert (Hfirst : forall m, m ∈ first ->
              m ∈ snd feed /\ Mission.id m ∉ seen_missions (state_manager p)).
    { intros m Hm. apply filter_unseen_elem. eapply elem_of_sublist; eassumption. }
    exists (first ++ rest).
    rewrite Hall', Hall, <- app_assoc. split; [reflexivity|]. split; [|split; [|split]].
    + intros id. rewrite Hseen', Hstate, mark_missions_seen_members.
      rewrite map_app, elem_of_app. tauto.
    + apply Forall_app. split.
      * apply Forall_forall. intros m Hm. now apply Hfirst.
      * eapply Forall_impl; [exact Hnew'|]. cbn. intros m Hout Hin.
        apply Hout. now apply process_feed_seen.
    + intros m Hm. apply elem_of_app in Hm as [Hm|Hm].
      * exists feed. split; [apply list_elem_of_here | now apply Hfirst].
      * destruct (Hfrom' m Hm) as (feed' & Hfeed' & Hin).
        exists feed'. split; [now apply list_elem_of_further | assumption].
    + rewrite Hreads', Hreads, length_app. lia.
Qed.

(** X14. What a pass collects and what it marks are the same missions:
    after the loop an identifier is seen exactly when it was seen before
    or belongs to a collected mission; every collected mission comes from
    the list of one of the feeds and was not seen when the pass began. *)
Theorem pass_marks_what_it_collects (max_items : option Z) (clock : nat -> str)
    (feeds : list (FeedConfig * list Mission.t)) (self : StateManager.t) :
  let p := check_feeds max_items clock feeds self in
  (forall id, id ∈ seen_missions (state_manager p) <->
              id ∈ seen_missions self \/ id ∈ map Mission.id (all_new_missions p))
  /\ Forall (fun m => is_mission_seen self (Mission.id m) = false)
            (all_new_missions p)
  /\ (forall m, m ∈ all_new_missions p -> exists feed, feed ∈ feeds /\ m ∈ snd feed).
Proof.
  cbn zeta. unfold check_feeds.
  destruct (check_feeds_invariant max_items clock feeds (start self))
    as (added & Hall & Hseen & Hnew & Hfrom & _).
  cbn [start all_new_missions state_manager app] in *. rewrite Hall.
  split; [exact Hseen|]. split; [|exact Hfrom].
  eapply Forall_impl; [exact Hnew|]. cbn. intros m Hm.
  now apply bool_decide_eq_false_2.
Qed.

Lemma sublist_map {A B} (f : A -> B) (l k : list A) :
  sublist l k -> sublist (map f l) (map f k).
Proof. induction 1; cbn [map]; now constructor. Qed.

Lemma filter_sublist {A} (f : A -> bool) (l : list A) : sublist (List.filter f l) l.
Proof.
  induction l as [|x l IH]; cbn [List.filter]; [constructor|].
  destruct (f x); now constructor.
Qed.

Lemma check_feeds_nodup max_items clock feeds p :
  Forall (fun feed => NoDup (map Mission.id (snd feed))) feeds ->
  NoDup (map Mission.id (all_new_missions p)) ->
  (forall m, m ∈ all_new_missions p -> Mission.id m ∈ seen_missions (state_manager p)) ->
  NoDup (map Mission.id
           (all_new_missions (fold_left (process_feed max_items clock) feeds p))).
Proof.
  intros Hfeeds. revert p.
  induction Hfeeds as [|feed feeds Hfeed _ IH]; intros p Hnd Hseen; cbn [fold_left];
    [assumption|].
  destruct (process_feed_step max_items clock p feed)
    as (added & Hall & Hsub & Hstate & _).
  apply IH.
  - rewrite Hall, map_app. apply NoDup_app. split; [assumption|]. split.
    + intros id Hold Hnew.
      apply list_elem_of_In, in_map_iff in Hold as (m & <- & Hm).
      apply list_elem_of_In, in_map_iff in Hnew as (m' & Hid & Hm').
      apply list_elem_of_In in Hm, Hm'.
      assert (Hout : m' ∈ List.filter (unseen (state_manager p)) (snd feed))
        by (eapply elem_of_sublist; eassumption).
      apply filter_unseen_elem in Hout as [_ Hout]. apply Hout.
      rewrite Hid. now apply Hseen.
    + eapply sublist_NoDup; [exact Hfeed|].
      apply sublist_map. etransitivity; [exact Hsub | apply filter_sublist].
  - intros m Hm. rewrite Hstate, mark_missions_seen_members.
    rewrite Hall in Hm. apply elem_of_app in Hm as [Hm|Hm].
    + left. now apply Hseen.
    + right. apply list_elem_of_In, in_map, list_elem_of_In, Hm.
Qed.

(** X15. No identifier is collected twice in a pass, across the feeds,
    when no feed lists an identifier twice in its own list. *)
Theorem pass_collects_once (max_items : option Z) (clock : nat -> str)
    (feeds : list (FeedConfig * list Mission.t)) (self : StateManager.t) :
  Forall (fun feed => NoDup (map Mission.id (snd feed))) feeds ->
  NoDup (map Mission.id
           (all_new_missions (check_feeds max_items clock feeds self))).
Proof.
  intros Hfeeds. unfold check_feeds. apply check_feeds_nodup; [assumption|..].
  - constructor.
  - intros m Hm. cbn [start all_new_missions] in Hm. nil_elem.
Qed.

Lemma process_feed_cap n clock p feed :
  (0 <= n)%Z ->
  (length (all_new_missions (process_feed (Some n) clock p feed))
   <= length (all_new_missions p) + Z.to_nat n)%nat.
Proof.
  intros Hn. destruct feed as [feed_config missions]. unfold process_feed.
  destruct (fst (get_new_missions missions (state_manager p))) as [|m ms];
    cbn [all_new_missions]; [lia|].
  rewrite length_app. pose proof (up_to_length (m :: ms) n Hn). lia.
Qed.

Lemma process_feed_name n clock p feed :
  feeds_processed (process_feed (Some n) clock p feed)
  = feeds_processed p ++ [name (fst feed)].
Proof.
  destruct feed as [feed_config missions]. unfold process_feed.
  now destruct (fst (get_new_missions missions (state_manager p))).
Qed.

(** X16. With the limit set to [n >= 0], one feed adds at most [n]
    missions to a pass, so a pass over [k] feeds collects at most [n * k];
    and every feed is recorded as processed, in the order of the
    configuration. *)
Theorem pass_respects_limit (n : Z) (clock : nat -> str)
    (feeds : list (FeedConfig * list Mission.t)) (self : StateManager.t) :
  (0 <= n)%Z ->
  let p := check_feeds (Some n) clock feeds self in
  (forall q feed,
     (length (all_new_missions (process_feed (Some n) clock q feed))
      <= length (all_new_missions q) + Z.to_nat n)%nat)
  /\ (length (all_new_missions p) <= Z.to_nat n * length feeds)%nat
  /\ feeds_processed p = map (fun feed => name (fst feed)) feeds.
Proof.
  intros Hn. cbn zeta. split; [intros q feed; now apply process_feed_cap|].
  unfold check_feeds.
  assert (Hgen : forall q,
    (length (all_new_missions (fold_left (process_feed (Some n) clock) feeds q))
     <= length (all_new_missions q) + Z.to_nat n * length feeds)%nat
    /\ feeds_processed (fold_left (process_feed (Some n) clock) feeds q)
       = feeds_processed q ++ map (fun feed => name (fst feed)) feeds).
  { induction feeds as [|feed feeds IH]; intros q; cbn [fold_left length map].
    - rewrite app_nil_r. split; [lia | reflexivity].
    - destruct (IH (process_feed (Some n) clock q feed)) as [Hlen Hnames].
      pose proof (process_feed_cap n clock q feed Hn).
      rewrite Hnames, process_feed_name, <- app_assoc.
      split; [nia | reflexivity]. }
  destruct (Hgen (start self)) as [Hlen Hnames].
  cbn [start all_new_missions feeds_processed length app] in *.
  split; [lia | assumption].
Qed.

(** X17. Without a usable limit in the configuration a pass collects
    nothing and marks nothing, whatever the feeds hold: each feed with a
    new mission is skipped, and only the feeds without one are recorded as
    processed. *)
Theorem pass_without_limit (clock : nat -> str)
    (feeds : list (FeedConfig * list Mission.t)) (self : StateManager.t) :
  let p := check_feeds None clock feeds self in
  all_new_missions p = []
  /\ state_manager p = self
  /\ feeds_processed p
     = map (fun feed => name (fst feed))
         (List.filter
            (fun feed =>
               forallb (fun m => is_mission_seen self (Mission.id m)) (snd feed))
            feeds).
Proof.
  cbn zeta. unfold check_feeds.
  assert (Hgen : forall q, state_manager q = self ->
    let q' := fold_left (process_feed None clock) feeds q in
    all_new_missions q' = all_new_missions q
    /\ state_manager q' = self
    /\ feeds_processed q'
       = feeds_processed q ++
         map (fun feed => name (fst feed))
           (List.filter
              (fun feed =>
                 forallb (fun m => is_mission_seen self (Mission.id m)) (snd feed))
              feeds)).
  { cbn zeta. induction feeds as [|[feed_config missions] feeds IH]; intros q Hq;
      cbn [fold_left List.filter map snd].
    - now rewrite app_nil_r.
    - unfold process_feed at 2 4 6. rewrite get_new_missions_filter, Hq.
      assert (Hall : forallb (fun m => is_mission_seen self (Mission.id m)) missions
                     = match List.filter (unseen self) missions with
                       | [] => true | _ :: _ => false end).
      { clear. induction missions as [|m ms IH]; [reflexivity|].
        cbn [forallb List.filter]. unfold unseen at 1.
        destruct (is_mission_seen self (Mission.id m)); cbn [negb andb];
          [exact IH | reflexivity]. }
      rewrite Hall.
      destruct (List.filter (unseen self) missions) as [|m ms].
      + destruct (IH {| state_manager := self;
                        all_new_missions := all_new_missions q;
                        feeds_processed := feeds_processed q ++ [name feed_config];
                        clock_reads := clock_reads q |} eq_refl)
          as (Hnew & Hstate & Hnames).
        cbn [all_new_missions feeds_processed] in *.
        rewrite Hnew, Hstate, Hnames. cbn [map fst]. now rewrite <- app_assoc.
      + now apply IH. }
  destruct (Hgen (start self) eq_refl) as (Hnew & Hstate & Hnames).
  cbn [start all_new_missions feeds_processed app] in *. auto.
Qed.

Lemma process_feed_marks_all n clock p feed m :
  (Z.of_nat (length (snd feed)) <= n)%Z ->
  m ∈ snd feed ->
  Mission.id m ∈ seen_missions (state_manager (process_feed (Some n) clock p feed)).
Proof.
  intros Hn Hm. destruct feed as [feed_config missions]. cbn [snd] in *.
  destruct (decide (Mission.id m ∈ seen_missions (state_manager p))) as [Hseen|Hnew];
    [now apply process_feed_seen|].
  assert (Hin : m ∈ List.filter (unseen (state_manager p)) missions)
    by now apply filter_unseen_elem.
  unfold process_feed. rewrite get_new_missions_filter.
  destruct (List.filter (unseen (state_manager p)) missions) as [|m0 ms] eqn:Hfilter;
    [nil_elem|].
  cbn [state_manager]. rewrite up_to_all.
  - apply mark_missions_seen_members. right.
    apply list_elem_of_In, in_map, list_elem_of_In, Hin.
  - pose proof (sublist_length _ _ (filter_sublist (unseen (state_manager p)) missions))
      as Hlen.
    rewrite Hfilter in Hlen. lia.
Qed.

Lemma fold_process_feed_seen max_items clock feeds p id :
  id ∈ seen_missions (state_manager p) ->
  id ∈ seen_missions (state_manager (fold_left (process_feed max_items clock) feeds p)).
Proof.
  revert p. induction feeds as [|feed feeds IH]; intros p Hid; cbn [fold_left];
    [assumption|].
  now apply IH, process_feed_seen.
Qed.

(** When every mission of every feed is seen, a pass finds nothing. *)
Lemma check_feeds_nothing_new max_items clock feeds p :
  (forall feed m, feed ∈ feeds -> m ∈ snd feed ->
                  Mission.id m ∈ seen_missions (state_manager p)) ->
  all_new_missions (fold_left (process_feed max_items clock) feeds p)
  = all_new_missions p
  /\ state_manager (fold_left (process_feed max_items clock) feeds p)
     = state_manager p.
Proof.
  revert p. induction feeds as [|[feed_config missions] feeds IH]; intros p Hall;
    cbn [fold_left]; [auto|].
  assert (Hnone : List.filter (unseen (state_manager p)) missions = []).
  { destruct (List.filter (unseen (state_manager p)) missions) as [|m ms] eqn:Hfilter;
      [reflexivity|]. exfalso.
    assert (Hm : m ∈ List.filter (unseen (state_manager p)) missions)
      by (rewrite Hfilter; apply list_elem_of_here).
    apply filter_unseen_elem in Hm as [Hm Hout]. apply Hout.
    apply (Hall (feed_config, missions) m); [apply list_elem_of_here | exact Hm]. }
  assert (Hstep :
    all_new_missions (process_feed max_items clock p (feed_config, missions))
    = all_new_missions p
    /\ state_manager (process_feed max_items clock p (feed_config, missions))
       = state_manager p).
  { unfold process_feed. rewrite get_new_missions_filter, Hnone. auto. }
  destruct Hstep as [Hnew Hstate].
  destruct (IH (process_feed max_items clock p (feed_config, missions)))
    as [Hnew' Hstate'].
  { rewrite Hstate. intros feed m Hfeed Hm.
    apply (Hall feed m); [now apply list_elem_of_further | exact Hm]. }
  rewrite Hnew', Hstate'. auto.
Qed.

(** When the limit is not below the length of any feed's list, every
    mission of every feed is seen after the loop. *)
Lemma check_feeds_marks_all n clock feeds q :
  Forall (fun feed => (Z.of_nat (length (snd feed)) <= n)%Z) feeds ->
  forall feed m, feed ∈ feeds -> m ∈ snd feed ->
    Mission.id m
    ∈ seen_missions (state_manager (fold_left (process_feed (Some n) clock) feeds q)).
Proof.
  intros Hfeeds. revert q. induction Hfeeds as [|feed0 feeds Hfeed0 _ IH];
    intros q feed m Hfeed Hm; [nil_elem|].
  cbn [fold_left]. apply elem_of_cons in Hfeed as [->|Hfeed].
  - now apply fold_process_feed_seen, process_feed_marks_all.
  - now apply (IH _ feed m).
Qed.

End Pass.

(** ** The whole pass: collecting, delivering, saving *)

Section WholePass.
Import Datetime Json StateManager Spec MissionBot DiscordNotifier.
Context `{IsoFormat} {Embed Webhook : Type}.
Variable create_embed : Mission.t -> Embed.
Variables username avatar_url : option str.
Variable post : Webhook -> payload (Embed := Embed) -> bool * Webhook.

Lemma set_elem {V} k (v : V) (d : list (str * V)) k' v' :
  (k', v') ∈ Dict.set k v d -> (k', v') = (k, v) \/ (k', v') ∈ d.
Proof.
  induction d as [|[k0 v0] d IH]; cbn [Dict.set].
  - rewrite list_elem_of_singleton. tauto.
  - case_bool_decide as Hk; rewrite !elem_of_cons; [tauto|].
    intros [?|Hin]; [tauto|]. apply IH in Hin. tauto.
Qed.

(** The records written by [mark_missions_seen] carry readings of the
    clock. *)
Lemma mark_missions_seen_records clk missions self k r :
  (k, r) ∈ missions_data (mark_missions_seen clk missions self) ->
  (k, r) ∈ missions_data self \/ exists j, seen_at r = Some (JString (clk j)).
Proof.
  revert clk self. induction missions as [|m ms IH]; intros clk self;
    cbn [mark_missions_seen]; [tauto|].
  intros Hin. apply IH in Hin as [Hin|[j Hj]]; [|right; now exists (S j)].
  cbn [mark_mission_seen missions_data] in Hin.
  apply set_elem in Hin as [[= -> ->]|Hin]; [|tauto].
  right. now exists 0%nat.
Qed.

Lemma lockstep_mark_all clk missions self :
  lockstep self -> lockstep (mark_missions_seen clk missions self).
Proof.
  revert clk self. induction missions as [|m ms IH]; intros clk self Hl;
    cbn [mark_missions_seen]; [assumption|].
  now apply IH, lockstep_mark.
Qed.

Lemma check_feeds_records max_items clock feeds p :
  lockstep (state_manager p) ->
  let p' := fold_left (process_feed max_items clock) feeds p in
  lockstep (state_manager p')
  /\ forall k r, (k, r) ∈ missions_data (state_manager p') ->
       (k, r) ∈ missions_data (state_manager p)
       \/ exists j, seen_at r = Some (JString (clock j)).
Proof.
  cbn zeta. revert p. induction feeds as [|feed feeds IH]; intros p Hl;
    cbn [fold_left]; [auto|].
  destruct (process_feed_step max_items clock p feed) as (added & _ & _ & Hstate & _).
  destruct (IH (process_feed max_items clock p feed)) as [Hl' Hrec'].
  { rewrite Hstate. now apply lockstep_mark_all. }
  split; [assumption|]. intros k r Hin.
  apply Hrec' in Hin as [Hin|?]; [|tauto].
  rewrite Hstate in Hin. apply mark_missions_seen_records in Hin as [?|[j Hj]];
    [tauto|]. right. eauto.
Qed.

(** A record written at a clock reading within the retention is not
    expired. *)
Lemma clock_reading_not_expired now clock r j :
  clock_in_retention now clock ->
  seen_at r = Some (JString (clock j)) ->
  ~ read_timestamp_expired now 30 r.
Proof.
  intros Hclock Hj (s & t & Hs & Hparse & Hlt).
  unfold seen_at_or_epoch in Hs. rewrite Hj in Hs.
  cbn [default from_option id] in Hs. injection Hs as <-.
  destruct (Hclock j) as (t' & Hparse' & Hnaive & Hrecent).
  rewrite Hparse' in Hparse. injection Hparse as <-.
  unfold lt in Hlt. rewrite Hnaive in Hlt.
  cbn [cutoff naive utcoffset instant] in Hlt.
  injection Hlt as Hlt. apply Z.ltb_lt in Hlt. lia.
Qed.

(** So is the record of a mission marked in the empty store. *)
Lemma marked_on_empty_fresh now clock j mission k r :
  clock_in_retention now clock ->
  Dict.get k (missions_data (mark_mission_seen (clock j) mission StateManager.empty))
  = Some r ->
  ~ read_timestamp_expired now 30 r.
Proof.
  intros Hclock.
  cbn [mark_mission_seen missions_data StateManager.empty Dict.set Dict.get].
  destruct (bool_decide _); [|discriminate]. intros [= <-].
  now apply (clock_reading_not_expired now clock _ j Hclock).
Qed.

(** The cleanup keeps an identifier none of whose records is expired. *)
Lemma cleanup_keeps_unexpired now days (self : StateManager.t) id :
  id ∈ seen_missions self ->
  (forall r, (id, r) ∈ missions_data self -> ~ read_timestamp_expired now days r) ->
  id ∈ seen_missions (snd (_cleanup_old_missions now days self)).
Proof.
  intros Hin Hfresh.
  destruct (cleanup_outcome now days self) as [[e ->]|(ids & _ & Hrun & ->)];
    cbn [snd]; [assumption|].
  apply discard_all_seen. split; [assumption|]. intros Hold.
  destruct (forallb (fun kv => plain_timestamp (snd kv)) (missions_data self))
    eqn:Hplain.
  - destruct (old_missions_plain now days (missions_data self) [] Hplain)
      as (ids0 & Hrun0 & Hids).
    rewrite Hrun in Hrun0. injection Hrun0 as ->.
    apply Hids in Hold as (r & Hr & Hexp). exact (Hfresh r Hr Hexp).
  - rewrite (old_missions_not_plain now days _ [] Hplain) in Hrun. discriminate.
Qed.

(** X19. A mission collected by a pass stays marked whatever happens
    next: whether the webhook accepts or refuses the deliveries and
    whether the save succeeds or fails, every collected mission is seen in
    the store the pass leaves, which is in lockstep; and when the save
    succeeds, the state file loads back as that store.  (The store is in
    lockstep at the start and the clock readings are timestamps within
    the retention.) *)
Theorem collected_missions_stay_seen (max_items : option Z) (clock : nat -> str)
    (feeds : list (FeedConfig * list Mission.t)) (now : Z) (now_iso : str)
    (f : fault) (remove_fails : bool) (self : StateManager.t) (w : Webhook)
    (fs : FS) :
  lockstep self ->
  clock_in_retention now clock ->
  let o := check_for_new_missions create_embed username avatar_url post
             max_items clock feeds now now_iso f remove_fails self w fs in
  Forall (fun m => is_mission_seen (store o) (Mission.id m) = true)
         (all_new_missions (found o))
  /\ lockstep (store o)
  /\ (saved o = Ok true -> load_state (files o) = store o).
Proof.
  intros Hl Hclock. cbn zeta. unfold check_for_new_missions.
  set (p := check_feeds max_items clock feeds self).
  pose proof (save_state_store now now_iso f remove_fails (state_manager p) fs)
    as Hstore.
  pose proof (load_saved now now_iso f remove_fails (state_manager p) fs) as Hload.
  destruct (save_state now now_iso f remove_fails (state_manager p) fs)
    as [[ok self'] fs'].
  cbn [fst snd found store saved files] in *.
  destruct (check_feeds_invariant max_items clock feeds (start self))
    as (added & Hall & Hseen & Hnew & _).
  destruct (check_feeds_records max_items clock feeds (start self) Hl)
    as [Hl' Hrec].
  fold (check_feeds max_items clock feeds self) in Hall, Hseen, Hl', Hrec.
  fold p in Hall, Hseen, Hl', Hrec.
  cbn [start all_new_missions state_manager app] in Hall, Hseen, Hnew, Hrec.
  split; [|split].
  - rewrite Hall. apply Forall_forall. intros m Hm.
    apply bool_decide_eq_true_2. rewrite Hstore.
    apply cleanup_keeps_unexpired.
    + apply Hseen. right. apply list_elem_of_In, in_map, list_elem_of_In, Hm.
    + intros r Hr. apply Hrec in Hr as [Hr|[j Hj]].
      * exfalso. rewrite Forall_forall in Hnew. apply (Hnew m Hm).
        apply Hl. eapply elem_keys, Hr.
      * eapply clock_reading_not_expired; eassumption.
  - rewrite Hstore. now apply lockstep_cleanup.
  - intros ->. apply Hload; [apply Hl' | reflexivity].
Qed.

(** The loop of a pass and its delivery do not depend on the save. *)
Lemma pass_found max_items clock feeds now now_iso f remove_fails
    (self : StateManager.t) (w : Webhook) (fs : FS) :
  let o := check_for_new_missions create_embed username avatar_url post
             max_items clock feeds now now_iso f remove_fails self w fs in
  found o = check_feeds max_items clock feeds self
  /\ delivery o
     = match all_new_missions (check_feeds max_items clock feeds self) with
       | [] => None
       | _ :: _ =>
           Some (send_multiple_missions create_embed username avatar_url post
                   (all_new_missions (check_feeds max_items clock feeds self)) w)
       end.
Proof.
  cbn zeta. unfold check_for_new_missions.
  now destruct (save_state now now_iso f remove_fails _ fs) as [[ok self'] fs'].
Qed.

(** X18. A pass whose limit is not below the length of any feed's list
    leaves nothing for the next pass of the same process: a second pass
    over the same lists, with any limit, at any time and whatever its
    webhook and files do, collects nothing, delivers nothing and starts
    its save from the store the first pass left.  (The store is in
    lockstep at the start, the clock readings of the first pass are
    timestamps within the retention, and no mission listed by a feed has
    a record that is expired when the first pass saves: the cleanup of
    that save forgets such a mission, and the next pass collects it
    again.) *)
Theorem second_pass_collects_nothing (n : Z) (max_items' : option Z)
    (clock clock' : nat -> str) (feeds : list (FeedConfig * list Mission.t))
    (now now' : Z) (now_iso now_iso' : str) (f f' : fault)
    (remove_fails remove_fails' : bool) (self : StateManager.t)
    (w w' : Webhook) (fs fs' : FS) :
  lockstep self ->
  Forall (fun feed => (Z.of_nat (length (snd feed)) <= n)%Z) feeds ->
  clock_in_retention now clock ->
  (forall feed m r,
     feed ∈ feeds -> m ∈ snd feed ->
     Dict.get (Mission.id m) (missions_data self) = Some r ->
     ~ read_timestamp_expired now 30 r) ->
  let o := check_for_new_missions create_embed username avatar_url post
             (Some n) clock feeds now now_iso f remove_fails self w fs in
  let o' := check_for_new_missions create_embed username avatar_url post
              max_items' clock' feeds now' now_iso' f' remove_fails' (store o) w' fs' in
  all_new_missions (found o') = []
  /\ delivery o' = None
  /\ state_manager (found o') = store o.
Proof.
  intros Hl Hfeeds Hclock Hfresh. cbn zeta.
  set (o := check_for_new_missions create_embed username avatar_url post
              (Some n) clock feeds now now_iso f remove_fails self w fs).
  assert (Hseen : forall feed m, feed ∈ feeds -> m ∈ snd feed ->
             Mission.id m ∈ seen_missions (store o)).
  { intros feed m Hfeed Hm. unfold o, check_for_new_missions.
    set (p := check_feeds (Some n) clock feeds self).
    pose proof (save_state_store now now_iso f remove_fails (state_manager p) fs)
      as Hstore.
    destruct (save_state now now_iso f remove_fails (state_manager p) fs)
      as [[ok self'] fs0].
    cbn [fst snd store] in *. rewrite Hstore.
    destruct (check_feeds_records (Some n) clock feeds (start self) Hl) as [_ Hrec].
    fold (check_feeds (Some n) clock feeds self) in Hrec. fold p in Hrec.
    cbn [start state_manager] in Hrec.
    apply cleanup_keeps_unexpired.
    - now apply (check_feeds_marks_all n clock feeds (start self) Hfeeds feed m).
    - intros r Hr. apply Hrec in Hr as [Hr|[j Hj]].
      + apply (Hfresh feed m r Hfeed Hm). apply elem_get; [apply Hl | exact Hr].
      + eapply clock_reading_not_expired; eassumption. }
  destruct (check_feeds_nothing_new max_items' clock' feeds (start (store o)) Hseen)
    as [Hnone Hstate].
  cbn [start all_new_missions state_manager] in Hnone, Hstate.
  destruct (pass_found max_items' clock' feeds now' now_iso' f' remove_fails'
              (store o) w' fs') as [-> ->].
  unfold check_feeds. rewrite Hnone. auto.
Qed.

End WholePass.

(** ** Dates in French *)

Section FormatDateFacts.
Import Datetime FormatDate.

Lemma chars_of_uint_inj a b : chars_of_uint a = chars_of_uint b -> a = b.
Proof.
  revert b. induction a; destruct b; cbn [chars_of_uint]; intros Heq;
    try discriminate; try reflexivity; injection Heq as Heq; f_equal; auto.
Qed.

Lemma chars_of_uint_digits a : Forall is_digit (chars_of_uint a).
Proof.
  induction a; cbn [chars_of_uint]; constructor; try assumption;
    unfold is_digit; lia.
Qed.

Lemma decimal_inj a b : (0 <= a)%Z -> (0 <= b)%Z -> decimal a = decimal b -> a = b.
Proof.
  intros Ha Hb Heq. apply chars_of_uint_inj, DecimalN.Unsigned.to_uint_inj in Heq.
  lia.
Qed.

Lemma decimal_digits a : Forall is_digit (decimal a).
Proof. apply chars_of_uint_digits. Qed.

Lemma pad2_digits a : Forall is_digit (pad2 a).
Proof.
  unfold pad2. destruct (length (decimal a) <? 2)%nat; [constructor|];
    try apply decimal_digits. unfold is_digit. lia.
Qed.

Lemma small_cases (P : Z -> bool) (n : nat) :
  forallb P (map Z.of_nat (seq 0 n)) = true ->
  forall a, (0 <= a < Z.of_nat n)%Z -> P a = true.
Proof.
  intros Hall a Ha. rewrite forallb_forall in Hall. apply Hall.
  rewrite <- (Z2Nat.id a) by lia. apply in_map, in_seq. lia.
Qed.

Lemma pad2_inj a b :
  (0 <= a < 60)%Z -> (0 <= b < 60)%Z -> pad2 a = pad2 b -> a = b.
Proof.
  intros Ha Hb Heq.
  assert (Hcases : forallb (fun a => forallb (fun b =>
              implb (bool_decide (pad2 a = pad2 b)) (a =? b)%Z)
              (map Z.of_nat (seq 0 60))) (map Z.of_nat (seq 0 60)) = true)
    by (vm_compute; reflexivity).
  pose proof (small_cases _ 60 Hcases a Ha) as Hrow. cbv beta in Hrow.
  pose proof (small_cases _ 60 Hrow b Hb) as Hcell. cbv beta in Hcell.
  rewrite bool_decide_eq_true_2 in Hcell by assumption.
  now apply Z.eqb_eq in Hcell.
Qed.

Lemma month_name_inj a b :
  (1 <= a <= 12)%Z -> (1 <= b <= 12)%Z ->
  nth (Z.to_nat (a - 1)) months [] = nth (Z.to_nat (b - 1)) months [] -> a = b.
Proof.
  intros Ha Hb Heq.
  assert (Hcases : forallb (fun a => forallb (fun b =>
              implb (bool_decide (nth (Z.to_nat a) months []
                                  = nth (Z.to_nat b) months [])) (a =? b)%Z)
              (map Z.of_nat (seq 0 12))) (map Z.of_nat (seq 0 12)) = true)
    by (vm_compute; reflexivity).
  assert (Ha' : (0 <= a - 1 < Z.of_nat 12)%Z) by lia.
  assert (Hb' : (0 <= b - 1 < Z.of_nat 12)%Z) by lia.
  pose proof (small_cases _ 12 Hcases _ Ha') as Hrow. cbv beta in Hrow.
  pose proof (small_cases _ 12 Hrow _ Hb') as Hcell. cbv beta in Hcell.
  rewrite bool_decide_eq_true_2 in Hcell by assumption.
  apply Z.eqb_eq in Hcell. lia.
Qed.

Lemma month_name_no_space a :
  (1 <= a <= 12)%Z -> Forall (fun c => c <> 32) (nth (Z.to_nat (a - 1)) months []).
Proof.
  intros Ha.
  assert (Hcases : forallb (fun a =>
              forallb (fun c => negb (c =? 32)) (nth (Z.to_nat a) months []))
              (map Z.of_nat (seq 0 12)) = true)
    by (vm_compute; reflexivity).
  assert (Ha' : (0 <= a - 1 < Z.of_nat 12)%Z) by lia.
  pose proof (small_cases _ 12 Hcases _ Ha') as Hrow. cbv beta in Hrow.
  rewrite forallb_forall in Hrow. apply Forall_forall. intros c Hc.
  apply list_elem_of_In, Hrow, negb_true_iff, N.eqb_neq in Hc. exact Hc.
Qed.

(** Two texts that agree, cut at the first occurrence of [c]. *)
Lemma cut_unique (c : char) (a b x y : str) :
  Forall (fun d => d <> c) a -> Forall (fun d => d <> c) b ->
  a ++ c :: x = b ++ c :: y -> a = b /\ x = y.
Proof.
  intros Ha. revert b. induction Ha as [|d a Hd Ha IH]; intros b Hb Heq.
  - destruct Hb as [|e b He Hb]; cbn [app] in Heq.
    + injection Heq as ->. auto.
    + injection Heq as Hce _. congruence.
  - destruct Hb as [|e b He Hb]; cbn [app] in Heq.
    + injection Heq as Hdc _. congruence.
    + injection Heq as -> Heq. destruct (IH b Hb Heq) as [-> ->]. auto.
Qed.

Lemma digits_without (c : char) (s : str) :
  ~ is_digit c -> Forall is_digit s -> Forall (fun d => d <> c) s.
Proof.
  intros Hc Hs. eapply Forall_impl; [exact Hs|]. cbn. intros d Hd ->. tauto.
Qed.

(** The answer of [format_date_fr] on a tuple, by cases. *)
Lemma format_date_fr_cases (t : list Z) :
  let y := nth 0 t 0%Z in let m := nth 1 t 0%Z in let d := nth 2 t 0%Z in
  let hh := nth 3 t 0%Z in let mm := nth 4 t 0%Z in let ss := nth 5 t 0%Z in
  if (3 <=? length t)%nat && datetime_ok y m d hh mm ss
  then format_date_fr (Some t)
       = decimal d ++ 32 :: nth (Z.to_nat (m - 1)) months [] ++ 32 :: decimal y
         ++ 32 :: 224 :: 32 :: pad2 hh ++ 104 :: pad2 mm
  else format_date_fr (Some t) = unknown_date.
Proof.
  cbn zeta.
  destruct t as [|y [|m [|d time]]]; try reflexivity.
  change (3 <=? length (y :: m :: d :: time))%nat with true.
  cbn [andb nth]. unfold format_date_fr.
  change (firstn 6 (y :: m :: d :: time)) with (y :: m :: d :: firstn 3 time).
  assert (Htime : nth 0 (firstn 3 time) 0%Z = nth 0 time 0%Z
                  /\ nth 1 (firstn 3 time) 0%Z = nth 1 time 0%Z
                  /\ nth 2 (firstn 3 time) 0%Z = nth 2 time 0%Z).
  { destruct time as [|hh [|mm [|ss rest]]]; auto. }
  destruct Htime as (-> & -> & ->).
  destruct (datetime_ok y m d (nth 0 time 0%Z) (nth 1 time 0%Z) (nth 2 time 0%Z));
    reflexivity.
Qed.

Lemma rendering_known (d : Z) (rest : str) :
  decimal d ++ 32 :: rest <> unknown_date.
Proof.
  pose proof (decimal_digits d) as Hd. unfold unknown_date.
  change (u "Date inconnue") with (68 :: u "ate inconnue").
  destruct Hd as [|c s Hc _]; cbn [app]; [discriminate|].
  intros [= -> _]. unfold is_digit in Hc. lia.
Qed.

(** X20. [format_date_fr] answers "Date inconnue" exactly when no
    [datetime] can be built from the tuple: it is missing or empty, it has
    fewer than three members, or its first six members (the time members
    counting as 0 when absent) are out of the ranges of the calendar. *)
Theorem format_date_fr_unknown (date_tuple : option (list Z)) :
  format_date_fr date_tuple = unknown_date <->
  match date_tuple with
  | None => True
  | Some t =>
      (length t < 3)%nat
      \/ datetime_ok (nth 0 t 0%Z) (nth 1 t 0%Z) (nth 2 t 0%Z)
                     (nth 3 t 0%Z) (nth 4 t 0%Z) (nth 5 t 0%Z) = false
  end.
Proof.
  destruct date_tuple as [t|]; [|split; [trivial | reflexivity]].
  pose proof (format_date_fr_cases t) as Hcases. cbn zeta in Hcases.
  destruct (Nat.leb_spec 3 (length t)) as [Hlen|Hlen]; cbn [andb] in Hcases.
  - destruct (datetime_ok _ _ _ _ _ _) eqn:Hok.
    + rewrite Hcases. split.
      * intros Heq. now apply rendering_known in Heq.
      * intros [?|?]; [lia | discriminate].
    + split; [auto | intros _; exact Hcases].
  - split; [intros _; left; lia | intros _; exact Hcases].
Qed.

(** X21. Two tuples that both get a date get the same text exactly when
    they agree on the year, the month, the day, the hour and the minute
    (an absent hour or minute counting as 0); the seconds and the members
    after them play no part. *)
Theorem format_date_fr_to_the_minute (t1 t2 : list Z) :
  format_date_fr (Some t1) <> unknown_date ->
  format_date_fr (Some t2) <> unknown_date ->
  format_date_fr (Some t1) = format_date_fr (Some t2)
  <-> Forall (fun i => nth i t1 0%Z = nth i t2 0%Z) [0; 1; 2; 3; 4]%nat.
Proof.
  intros H1 H2.
  pose proof (format_date_fr_cases t1) as C1.
  pose proof (format_date_fr_cases t2) as C2. cbn zeta in C1, C2.
  destruct ((3 <=? length t1)%nat && datetime_ok _ _ _ _ _ _) eqn:Hok1;
    [|contradiction].
  destruct ((3 <=? length t2)%nat && datetime_ok _ _ _ _ _ _) eqn:Hok2;
    [|contradiction].
  rewrite C1, C2. clear C1 C2 H1 H2.
  apply andb_true_iff in Hok1 as [_ Hok1]. apply andb_true_iff in Hok2 as [_ Hok2].
  unfold datetime_ok in Hok1, Hok2.
  repeat (apply andb_true_iff in Hok1 as [Hok1 ?]).
  repeat (apply andb_true_iff in Hok2 as [Hok2 ?]).
  repeat match goal with
         | H : (_ <=? _)%Z = true |- _ => apply Z.leb_le in H
         end.
  split.
  - intros Heq.
    assert (Hnot32 : ~ is_digit 32) by (unfold is_digit; lia).
    assert (Hnot104 : ~ is_digit 104) by (unfold is_digit; lia).
    apply cut_unique in Heq as [Hd Heq];
      [|apply digits_without; [assumption | apply decimal_digits]..].
    apply cut_unique in Heq as [Hm Heq];
      [|apply month_name_no_space; lia..].
    apply cut_unique in Heq as [Hy Heq];
      [|apply digits_without; [assumption | apply decimal_digits]..].
    injection Heq as Heq.
    apply cut_unique in Heq as [Hhh Hmm];
      [|apply digits_without; [assumption | apply pad2_digits]..].
    apply decimal_inj in Hd; [|lia..]. apply decimal_inj in Hy; [|lia..].
    apply month_name_inj in Hm; [|lia..].
    apply pad2_inj in Hhh; [|lia..]. apply pad2_inj in Hmm; [|lia..].
    repeat constructor; assumption.
  - intros Hall.
    apply Forall_cons in Hall as [-> Hall]. apply Forall_cons in Hall as [-> Hall].
    apply Forall_cons in Hall as [-> Hall]. apply Forall_cons in Hall as [-> Hall].
    apply Forall_cons in Hall as [-> _]. reflexivity.
Qed.

End FormatDateFacts.

(** ** Batch delivery: the count returned *)

Section DeliveryCount.
Import DiscordNotifier.
Context {Embed Webhook : Type}.
Variable create_embed : Mission.t -> Embed.
Variables username avatar_url : option str.
Variable post : Webhook -> payload (Embed := Embed) -> bool * Webhook.

Lemma range_from_below fuel start stop step i :
  i ∈ range_from fuel start stop step -> (i < stop)%nat.
Proof.
  revert start. induction fuel as [|k IH]; intros start; cbn [range_from].
  - intros Hin. nil_elem.
  - destruct (Nat.ltb_spec start stop) as [Hlt|Hge]; [|intros Hin; nil_elem].
    rewrite elem_of_cons. intros [->|Hin]; [assumption | eauto].
Qed.

Lemma delivered_size_all (cs : list (call (Embed := Embed))) :
  Forall (fun c => batch c <> []) cs ->
  (delivered_size cs <= length (concat (map batch cs)))%nat
  /\ (delivered_size cs = length (concat (map batch cs))
      <-> Forall (fun c => delivered c = true) cs).
Proof.
  unfold delivered_size.
  induction 1 as [|c cs Hc _ [IHle IHall]]; cbn [map concat list_sum fold_right].
  - split; [cbn; lia|]. split; [constructor | reflexivity].
  - rewrite length_app.
    change (fold_right Nat.add 0%nat
              (map (fun c => if delivered c then length (batch c) else 0%nat) cs))
      with (list_sum (map (fun c => if delivered c then length (batch c) else 0%nat) cs))
      in *.
    assert (Hpos : (0 < length (batch c))%nat) by (destruct (batch c); [congruence | cbn; lia]).
    destruct (delivered c) eqn:Hd.
    + split; [lia|]. split.
      * intros Heq. constructor; [assumption|]. apply IHall. lia.
      * intros Hall. apply Forall_cons in Hall as [_ Hall]. apply IHall in Hall. lia.
    + split; [lia|]. split; [lia|].
      intros Hall. apply Forall_cons in Hall as [Hfalse _]. congruence.
Qed.

Lemma posts_batches (w : Webhook) (bs : list (list Mission.t)) :
  map batch (fst (posts create_embed username avatar_url post w bs)) = bs.
Proof.
  revert w. induction bs as [|b bs IH]; intros w; cbn [posts]; [reflexivity|].
  destruct (post w _) as [ok w']. specialize (IH w').
  destruct (posts _ _ _ _ w' bs) as [cs w'']. cbn [fst map batch] in *.
  now rewrite IH.
Qed.

(** X22. The count that [send_multiple_missions] returns never exceeds
    the number of missions, and it equals that number exactly when the
    webhook answered every POST of the run with success, the POSTs being
    those of the slices of ten, each made to the webhook as the POST
    before left it; no POST is made with an empty batch. *)
Theorem success_count_complete (missions : list Mission.t) (w : Webhook) :
  let r := send_multiple_missions create_embed username avatar_url post missions w in
  let answers :=
    fst (posts create_embed username avatar_url post w (batches missions)) in
  calls r = answers
  /\ (success_count r <= length missions)%nat
  /\ (success_count r = length missions
      <-> Forall (fun c => delivered c = true) answers)
  /\ Forall (fun b => b <> []) (batches missions).
Proof.
  cbn zeta. rewrite send_multiple_missions_loop.
  destruct (send_loop_posts create_embed username avatar_url post missions
              (py_range 0 (length missions) 10)
              {| success_count := 0%nat; webhook := w; calls := [] |})
    as (Hcalls & _ & Hcount).
  cbn [calls webhook success_count app] in Hcalls, Hcount.
  fold (batches missions) in Hcalls, Hcount.
  set (answers := fst (posts create_embed username avatar_url post w
                         (batches missions))) in *.
  assert (Hfull : Forall (fun b : list Mission.t => b <> []) (batches missions)).
  { unfold batches. apply Forall_map, Forall_forall. intros i Hi.
    apply range_from_below in Hi.
    intros Hnil. apply (f_equal (@length _)) in Hnil.
    rewrite slice_length in Hnil. cbn [length] in Hnil. lia. }
  assert (Hbatches : map batch answers = batches missions) by apply posts_batches.
  assert (Hconcat : concat (map batch answers) = missions).
  { rewrite Hbatches. unfold batches, py_range.
    now rewrite range_from_slices by lia. }
  assert (Hfull' : Forall (fun c => batch c <> []) answers).
  { apply (Forall_map batch (fun b => b <> [])). now rewrite Hbatches. }
  destruct (delivered_size_all answers Hfull') as [Hle Hall].
  rewrite Hconcat in Hle, Hall. rewrite Hcount. auto.
Qed.

End DeliveryCount.

(** ** Worked instances *)

Section Instances.
Import Datetime Json StateManager Spec MissionBot FormatDate Examples Scenarios.

Lemma clock_within_retention : clock_in_retention now clock.
Proof.
  intros k. eexists. split; [vm_compute; reflexivity|].
  split; [reflexivity|]. vm_compute. discriminate.
Qed.

Lemma store_mixed_lockstep : lockstep store_mixed.
Proof.
  apply lockstep_from_sets.
  - apply (bool_decide_unpack _). vm_compute. exact I.
  - vm_compute. reflexivity.
Qed.

Lemma mark_mission_seen_growth_witness :
  size (seen_missions (mark_mission_seen (u "2024-06-01T08:00:00") (mission 7) store_mixed))
  = S (size (seen_missions store_mixed))
  /\ missions_data (mark_mission_seen (u "2024-06-01T08:00:00") (mission 7) store_mixed)
     = missions_data store_mixed
       ++ [(Mission.id (mission 7), record_of (u "2024-06-01T08:00:00") (mission 7))].
Proof.
  apply (mark_mission_seen_growth (u "2024-06-01T08:00:00") (mission 7) store_mixed).
  - apply lockstep_from_sets.
    + apply (bool_decide_unpack _). vm_compute. exact I.
    + vm_compute. reflexivity.
  - vm_compute. reflexivity.
Defined.

Lemma save_then_load_witness :
  load_state (snd (save_state now (u "2024-06-01T00:00:00") NoFault false
                     store_mixed no_files))
  = snd (fst (save_state now (u "2024-06-01T00:00:00") NoFault false
                store_mixed no_files))
  /\ snd (fst (save_state now (u "2024-06-01T00:00:00") NoFault false
                 store_mixed no_files))
     = snd (_cleanup_old_missions now 30 store_mixed).
Proof.
  apply (save_then_load now (u "2024-06-01T00:00:00") NoFault false
           store_mixed no_files).
  - apply (bool_decide_unpack _). vm_compute. exact I.
  - vm_compute. reflexivity.
Defined.

Lemma save_state_atomic_witness :
  (fst (fst (save_state now (u "2024-06-01T00:00:00") WriteFails false
               store_mixed old_files))
   = Ok false /\
   temp_file (snd (save_state now (u "2024-06-01T00:00:00") WriteFails false
                     store_mixed old_files))
   = None /\
   data_file (snd (save_state now (u "2024-06-01T00:00:00") WriteFails false
                     store_mixed old_files))
   = data_file old_files) /\
  fst (fst (save_state now (u "2024-06-01T00:00:00") NoFault false
              store_mixed old_files))
  = Ok true.
Proof.
  split.
  - destruct (save_state_atomic now (u "2024-06-01T00:00:00") WriteFails false
                store_mixed old_files) as [Hfail _].
    destruct Hfail as (_ & Hdata & _ & Hfalse & Htemp & _).
    + right. discriminate.
    + split; [now apply Hfalse|]. split; [|exact Hdata].
      apply Htemp. now apply Hfalse.
  - destruct (save_state_atomic now (u "2024-06-01T00:00:00") NoFault false
                store_mixed old_files) as [_ Hdone].
    destruct Hdone as (Hok & _).
    + split; [vm_compute|]; reflexivity.
    + exact Hok.
Defined.

Lemma statistics_counts_add_up_witness :
  exists stats,
    get_statistics store_mixed = Ok stats
    /\ list_sum (map snd (missions_by_feed stats)) = 3%nat
    /\ NoDup (map fst (missions_by_feed stats)).
Proof.
  destruct (statistics_counts_add_up store_mixed) as [Hreturns Hcounts].
  destruct Hreturns as [stats Hstats]; [vm_compute; reflexivity|].
  destruct (Hcounts stats Hstats) as (Hsum & _ & Hnames).
  exists stats. split; [exact Hstats|]. split; [exact Hsum|].
  apply Hnames. vm_compute. reflexivity.
Defined.

Lemma reset_state_clears_witness :
  data_file (snd (reset_state false store_mixed old_files)) = None
  /\ load_state (snd (reset_state false store_mixed old_files)) = StateManager.empty.
Proof.
  destruct (reset_state_clears false store_mixed old_files)
    as (_ & _ & _ & _ & Hdone).
  destruct Hdone as (Hfile & _ & Hload & _); [vm_compute; reflexivity|].
  split; [exact Hfile | exact Hload].
Defined.

Lemma cleanup_completes_iff_plain_witness :
  fst (_cleanup_old_missions now 30 store_mixed) = Ok tt
  /\ _cleanup_old_missions now 30 store_with_offset
     = (Raise TypeError, store_with_offset)
  /\ _cleanup_old_missions now 30 store_null_timestamp
     = (Raise TypeError, store_null_timestamp)
  /\ _cleanup_old_missions now 4000000 store_mixed
     = (Raise OverflowError, store_mixed).
Proof.
  split; [|split; [|split]].
  - apply (cleanup_completes_iff_plain now 30 store_mixed).
    split; vm_compute; reflexivity.
  - apply (cleanup_completes_iff_plain now 30 store_with_offset).
    + vm_compute. reflexivity.
    + vm_compute. discriminate.
  - apply (cleanup_completes_iff_plain now 30 store_null_timestamp).
    + vm_compute. reflexivity.
    + vm_compute. discriminate.
  - apply (cleanup_completes_iff_plain now 4000000 store_mixed).
    vm_compute. discriminate.
Defined.

Lemma save_state_blocked_by_offset_witness :
  snd (fst (save_state now (u "2024-06-01T00:00:00") NoFault true
              store_null_timestamp old_files))
  = store_null_timestamp
  /\ data_file (snd (save_state now (u "2024-06-01T00:00:00") NoFault true
                       store_null_timestamp old_files))
     = data_file old_files
  /\ fst (fst (save_state now (u "2024-06-01T00:00:00") NoFault true
                 store_null_timestamp old_files))
     = Raise OSError.
Proof.
  apply (save_state_blocked_by_offset now (u "2024-06-01T00:00:00") NoFault true
           store_null_timestamp old_files).
  vm_compute. discriminate.
Defined.

Lemma extract_match_is_real_witness :
  exists pre mid post,
    sample = pre ++ u "Budget" ++ mid ++ u "Catégories" ++ post
    /\ 58 ∈ mid /\ 45 ∈ mid.
Proof.
  apply (extract_match_is_real sample). vm_compute. discriminate.
Defined.

Lemma pass_collects_once_witness :
  NoDup (map Mission.id
           (all_new_missions (check_feeds (Some 2%Z) clock two_feeds store_mixed))).
Proof.
  apply (pass_collects_once (Some 2%Z) clock two_feeds store_mixed).
  apply (bool_decide_unpack _). vm_compute. exact I.
Defined.

Lemma pass_respects_limit_witness :
  (length (all_new_missions (check_feeds (Some 2%Z) clock two_feeds store_mixed))
   <= Z.to_nat 2 * length two_feeds)%nat
  /\ feeds_processed (check_feeds (Some 2%Z) clock two_feeds store_mixed)
     = [u "Web"; u "Mobile"].
Proof.
  destruct (pass_respects_limit 2 clock two_feeds store_mixed) as (_ & Hlen & Hnames);
    [lia|].
  split; [exact Hlen | exact Hnames].
Defined.

Lemma second_pass_collects_nothing_witness :
  let o := check_for_new_missions Mission.title (Some (u "Bot Missions Codeur")) None
             flaky_post (Some 3%Z) clock two_feeds now (u "2024-06-01T00:00:00")
             NoFault false store_recent 0%nat no_files in
  let o' := check_for_new_missions Mission.title (Some (u "Bot Missions Codeur")) None
              flaky_post (Some 1%Z) clock two_feeds now (u "2024-06-01T00:10:00")
              NoFault false (store o) 2%nat no_files in
  all_new_missions (found o') = []
  /\ delivery o' = None
  /\ state_manager (found o') = store o.
Proof.
  apply (second_pass_collects_nothing Mission.title (Some (u "Bot Missions Codeur"))
           None flaky_post 3 (Some 1%Z) clock clock two_feeds
           now now (u "2024-06-01T00:00:00") (u "2024-06-01T00:10:00")
           NoFault NoFault false false store_recent 0%nat 2%nat no_files no_files).
  - apply lockstep_mark, lockstep_empty.
  - apply (bool_decide_unpack _). vm_compute. exact I.
  - exact clock_within_retention.
  - intros feed m r _ _.
    exact (marked_on_empty_fresh now clock 0%nat (mission 1) _ r clock_within_retention).
Defined.

Lemma collected_missions_stay_seen_witness :
  let o := check_for_new_missions Mission.title (Some (u "Bot Missions Codeur")) None
             flaky_post (Some 2%Z) clock two_feeds now (u "2024-06-01T00:00:00")
             RenameFails false store_mixed 0%nat no_files in
  Forall (fun m => is_mission_seen (store o) (Mission.id m) = true)
         (all_new_missions (found o))
  /\ lockstep (store o)
  /\ (saved o = Ok true -> load_state (files o) = store o).
Proof.
  apply (collected_missions_stay_seen Mission.title (Some (u "Bot Missions Codeur")) None
           flaky_post (Some 2%Z) clock two_feeds now (u "2024-06-01T00:00:00")
           RenameFails false store_mixed 0%nat no_files).
  - exact store_mixed_lockstep.
  - exact clock_within_retention.
Defined.

Lemma format_date_fr_to_the_minute_witness :
  format_date_fr (Some published) = format_date_fr (Some same_minute).
Proof.
  apply (format_date_fr_to_the_minute published same_minute).
  - vm_compute. discriminate.
  - vm_compute. discriminate.
  - repeat constructor.
Defined.

End Instances.
